(** * Cookie_defender_bowl: a shallow embedding of [cookie_defender_bowl.py]

    The physics core of the program (the elliptical bowl collider, the cookie
    bodies, spawning, the sub-stepped integrator, pairwise contact resolution,
    the sleep/wake update), the fill accounting, the rate-based auto-drop and
    the Defender detection delta feed are translated function by function.

    Numbers.  Python [float]s are idealised as real numbers ([R]); comparisons
    are the decidable order of [R].  Python [int]s are [Z] or [nat].
    Statements whose truth would turn on the last bits of a binary64 result
    (a projection that lands exactly on the ellipse, a blend cut by [int],
    the upper end of [random.uniform]) carry a tolerance or a closed bound.

    Randomness.  The module-level generator [random] is a stream of draws
    together with a read position; every [random.random()] reads the next
    draw.  Statements that need the draws to lie in the unit interval say so.

    Faults.  A Python exception ([ZeroDivisionError], [ValueError],
    [IndexError]) is the [None] of an option; code whose divisors are positive
    by construction uses the division of [R] directly.

    State.  [App.t] carries the attributes of [App] that the simulation and
    the feed read or write.  The Tk widgets and the Defender status texts are
    left out; kept are the status line that [spawn_cookie] writes when it
    rejects a request and the canvas item ids of a cookie, which the canvas
    hands out in sequence.  Of the canvas drawing calls, the one argument
    that the program computes with code of its own that can raise
    ([highlight_color]) is kept, in the module [Calls]; the canvas itself is
    taken to accept what it is given.  The lock around the
    Defender attributes is not modelled: each locked block is one step. *)

From Stdlib Require Import Reals Lra Lia ZArith String Ascii List.
From Stdlib Require Import Zfloor.
From stdpp Require Import base decidable option list gmap sets strings pretty.

#[local] Open Scope R_scope.

(** ** Decidable comparisons on floats *)

#[global] Instance Rlt_decision (u v : R) : Decision (u < v) := Rlt_dec u v.
#[global] Instance Rle_decision (u v : R) : Decision (u <= v) := Rle_dec u v.
#[global] Instance Rgt_decision (u v : R) : Decision (u > v) := Rgt_dec u v.
#[global] Instance Rge_decision (u v : R) : Decision (u >= v) := Rge_dec u v.
#[global] Instance Req_decision : EqDecision R := Req_dec_T.
#[global] Instance nat_ge_decision (n m : nat) : Decision (n >= m)%nat :=
  decide (m <= n)%nat.

(** ** Module constants *)

Definition COLORS : list string :=
  [ "green"; "blue"; "yellow"; "red"; "purple"; "orange";
    "pink"; "brown"; "black"; "white"; "cyan"; "magenta" ]%string.

Definition GRAVITY_AIR : R := 1750.
Definition GRAVITY_WATER : R := 720.
Definition BOWL_RESTITUTION : R := 0.45.
Definition COOKIE_RESTITUTION : R := 0.10.
Definition FRICTION_AIR : R := 0.985.
Definition FRICTION_WATER : R := 0.965.
Definition MAX_COOKIES : nat := 260.

Definition SLEEP_SPEED : R := 22.
Definition SLEEP_FRAMES : nat := 18.
Definition COLLISION_PASSES : nat := 2.
Definition SUBSTEPS : nat := 2.

Definition OVERFLOW_AT : R := 0.95.
Definition HARD_STOP_AT : R := 1.10.

Definition WOBBLE_ACCEL : R := 120.
Definition WOBBLE_FREQ_MIN : R := 0.6.
Definition WOBBLE_FREQ_MAX : R := 1.6.
Definition WOBBLE_DAMP : R := 0.10.

Definition MAX_DROPS_PER_TICK : nat := 6.

(** [math.tau] and [math.hypot]. *)
Definition tau : R := 2 * PI.
Definition hypot (u v : R) : R := sqrt (u * u + v * v).

(** [clamp(v, lo, hi)]: [lo if v < lo else hi if v > hi else v]. *)
Definition clamp (v lo hi : R) : R :=
  if decide (v < lo) then lo else if decide (v > hi) then hi else v.

(** [int(x)] on a float: truncation towards zero. *)
Definition py_int (u : R) : Z :=
  if decide (0 <= u) then Zfloor u else Zceil u.

(** ** The random generator *)

Module random.
Record t := mk { stream : nat -> R; pos : nat }.

(** [random.random()] *)
Definition random (g : t) : R * t :=
  (stream g (pos g), mk (stream g) (S (pos g))).

(** [random.uniform(lo, hi)]: [lo + (hi - lo) * random()]. *)
Definition uniform (lo hi : R) (g : t) : R * t :=
  let '(u, g1) := random g in (lo + (hi - lo) * u, g1).

(** [random.choice(seq)], drawn as the element at index [int(random() * n)]
    (kept in range); an empty sequence has no choice. *)
Definition choice {A} (l : list A) (g : t) : option A * t :=
  let '(u, g1) := random g in
  (l !! (Z.to_nat (py_int (u * INR (length l))) `mod` length l)%nat, g1).

(** Every draw lies in the unit interval [0, 1). *)
Definition unit_draws (g : t) : Prop := forall n, 0 <= stream g n < 1.
End random.

(** ** Bodies *)

Module CookieBody.
Record t := mk {
  color_name : string;
  r : R;
  x : R;
  y : R;
  vx : R;
  vy : R;
  item_id : Z;
  shadow_id : Z;
  highlight_id : Z;
  asleep : bool;
  sleep_counter : nat;
  underwater : bool;
  wobble_phase : R;
  wobble_freq : R;
}.

(** Attribute assignments. *)
Definition set_x (v : R) (c : t) : t :=
  mk (color_name c) (r c) v (y c) (vx c) (vy c) (item_id c) (shadow_id c)
     (highlight_id c) (asleep c) (sleep_counter c) (underwater c)
     (wobble_phase c) (wobble_freq c).
Definition set_y (v : R) (c : t) : t :=
  mk (color_name c) (r c) (x c) v (vx c) (vy c) (item_id c) (shadow_id c)
     (highlight_id c) (asleep c) (sleep_counter c) (underwater c)
     (wobble_phase c) (wobble_freq c).
Definition set_vx (v : R) (c : t) : t :=
  mk (color_name c) (r c) (x c) (y c) v (vy c) (item_id c) (shadow_id c)
     (highlight_id c) (asleep c) (sleep_counter c) (underwater c)
     (wobble_phase c) (wobble_freq c).
Definition set_vy (v : R) (c : t) : t :=
  mk (color_name c) (r c) (x c) (y c) (vx c) v (item_id c) (shadow_id c)
     (highlight_id c) (asleep c) (sleep_counter c) (underwater c)
     (wobble_phase c) (wobble_freq c).
Definition set_asleep (v : bool) (c : t) : t :=
  mk (color_name c) (r c) (x c) (y c) (vx c) (vy c) (item_id c) (shadow_id c)
     (highlight_id c) v (sleep_counter c) (underwater c)
     (wobble_phase c) (wobble_freq c).
Definition set_sleep_counter (v : nat) (c : t) : t :=
  mk (color_name c) (r c) (x c) (y c) (vx c) (vy c) (item_id c) (shadow_id c)
     (highlight_id c) (asleep c) v (underwater c)
     (wobble_phase c) (wobble_freq c).
Definition set_underwater (v : bool) (c : t) : t :=
  mk (color_name c) (r c) (x c) (y c) (vx c) (vy c) (item_id c) (shadow_id c)
     (highlight_id c) (asleep c) (sleep_counter c) v
     (wobble_phase c) (wobble_freq c).
End CookieBody.

(** ** The bowl *)

Module EllipseBowlCollider.
Import CookieBody.

Record t := mk {
  cx : R;
  cy : R;
  a : R;
  b : R;
  rim_y : R;
  _rim_left : R;
  _rim_right : R;
  _bowl_area : R;
}.

Definition rim_left (self : t) : R := _rim_left self.
Definition rim_right (self : t) : R := _rim_right self.
Definition bowl_area (self : t) : R := _bowl_area self.

Definition is_inside_point (self : t) (px py : R) : bool :=
  let dx := (px - cx self) / a self in
  let dy := (py - cy self) / b self in
  bool_decide (dx * dx + dy * dy <= 1) && bool_decide (py >= rim_y self).

Definition _recalc_rim (self : t) : t :=
  let dy := rim_y self - cy self in
  let t0 := 1 - (dy * dy) / (b self * b self) in
  if decide (t0 <= 0) then
    mk (cx self) (cy self) (a self) (b self) (rim_y self)
       (cx self - a self * 0.05) (cx self + a self * 0.05) (_bowl_area self)
  else
    let dx := a self * sqrt t0 in
    mk (cx self) (cy self) (a self) (b self) (rim_y self)
       (cx self - dx) (cx self + dx) (_bowl_area self).

Definition _recalc_area (self : t) : t :=
  let samples_x := 140%nat in
  let samples_y := 180%nat in
  let x0 := cx self - a self in
  let x1 := cx self + a self in
  let y0 := rim_y self in
  let y1 := cy self + b self in
  let dx := (x1 - x0) / INR samples_x in
  let dy := (y1 - y0) / INR samples_y in
  let inside :=
    foldl (fun acc iy =>
             let py := y0 + (INR iy + 0.5) * dy in
             foldl (fun acc ix =>
                      let px := x0 + (INR ix + 0.5) * dx in
                      if is_inside_point self px py then S acc else acc)
                   acc (seq 0 samples_x))
          0%nat (seq 0 samples_y) in
  let total := (samples_x * samples_y)%nat in
  let rect_area := (x1 - x0) * (y1 - y0) in
  mk (cx self) (cy self) (a self) (b self) (rim_y self)
     (_rim_left self) (_rim_right self)
     (Rmax 1 (rect_area * (INR inside / INR total))).

(** [__init__]; a zero semi-axis makes the constructor divide by zero.
    (Over the reals.  In binary64 the square of a vertical semi-axis below
    about 1e-162 underflows to zero and the constructor raises as well; the
    statements about a constructor that returns take it to be at least
    1e-150 in absolute value.) *)
Definition init (cx0 cy0 a0 b0 rim_y0 : R) : option t :=
  if decide (a0 = 0 \/ b0 = 0) then None
  else Some (_recalc_area (_recalc_rim
         (mk cx0 cy0 a0 b0 rim_y0 (cx0 - a0 * 0.3) (cx0 + a0 * 0.3) 1))).

Definition opening_clamp_x (self : t) (px pr : R) : R :=
  clamp px (_rim_left self + pr + 6) (_rim_right self - pr - 6).

(** [collide_cookie].  The assignments to [c.x], [c.y], [c.vx] and [c.vy]
    are written as the successive values [x1], [y1], [vx1], [vy1], [vx2],
    [vy2] and stored at the end.  The divisors are the shrunk semi-axes (at
    least 5), [s] (the root of a number above 1, or 1) and [nlen] (at least
    1e-9 where it divides). *)
Definition collide_cookie (self : t) (c : CookieBody.t) : CookieBody.t :=
  if decide (y c < rim_y self - r c * 0.6) then
    set_x (opening_clamp_x self (x c) (r c)) c
  else
    let a' := Rmax 5 (a self - r c) in
    let b' := Rmax 5 (b self - r c) in
    let dx := x c - cx self in
    let dy := y c - cy self in
    let ex := dx / a' in
    let ey := dy / b' in
    let s2 := ex * ex + ey * ey in
    if decide (s2 <= 1) then
      if decide (y c < rim_y self + r c) then
        set_x (opening_clamp_x self (x c) (r c)) c
      else c
    else
      let s := if decide (s2 > 1e-12) then sqrt s2 else 1 in
      let x1 := cx self + dx / s in
      let y1 := cy self + dy / s in
      let nx := dx / (a' * a') in
      let ny := dy / (b' * b') in
      let nlen := hypot nx ny in
      if decide (nlen < 1e-9) then set_y y1 (set_x x1 c)
      else
        let nx := nx / nlen in
        let ny := ny / nlen in
        let vdotn := vx c * nx + vy c * ny in
        let vx1 := vx c - (1 + BOWL_RESTITUTION) * vdotn * nx in
        let vy1 := vy c - (1 + BOWL_RESTITUTION) * vdotn * ny in
        let vx2 := vx1 * 0.99 in
        let vy2 := vy1 * 0.995 in
        let c1 := set_vy vy2 (set_vx vx2 (set_y y1 (set_x x1 c))) in
        if decide (y1 < rim_y self + r c) then
          set_x (opening_clamp_x self x1 (r c)) c1
        else c1.
End EllipseBowlCollider.

(** ** Severity to colour *)

#[local] Open Scope string_scope.

(** [str.lower] and [str.strip] on ASCII text, and the substring test [in]. *)
Definition lower_ascii (ch : ascii) : ascii :=
  let n := nat_of_ascii ch in
  if (65 <=? n)%nat && (n <=? 90)%nat then ascii_of_nat (n + 32) else ch.

Fixpoint lower (s : string) : string :=
  match s with
  | EmptyString => EmptyString
  | String ch s' => String (lower_ascii ch) (lower s')
  end.

Definition is_py_space (ch : ascii) : bool :=
  let n := nat_of_ascii ch in
  ((9 <=? n)%nat && (n <=? 13)%nat) || ((28 <=? n)%nat && (n <=? 32)%nat).

Fixpoint lstrip (s : string) : string :=
  match s with
  | EmptyString => EmptyString
  | String ch s' => if is_py_space ch then lstrip s' else s
  end.

Definition strip (s : string) : string :=
  String.rev (lstrip (String.rev (lstrip s))).

Fixpoint str_in (needle hay : string) : bool :=
  String.prefix needle hay ||
  match hay with
  | EmptyString => false
  | String _ hay' => str_in needle hay'
  end.

Definition defender_severity_to_cookie_color
    (severity_id : option Z) (severity_text : option string) : string :=
  let by_id :=
    match severity_id with
    | None => "purple"
    | Some n =>
        if (5 <=? n)%Z then "red"
        else if (n =? 4)%Z then "red"
        else if (n =? 2)%Z || (n =? 3)%Z then "orange"
        else if (n =? 1)%Z then "yellow"
        else "purple"
    end in
  match severity_text with
  | Some txt =>
      if String.eqb txt "" then by_id
      else
        let s := lower (strip txt) in
        if str_in "severe" s || str_in "high" s then "red"
        else if str_in "moder" s || str_in "medium" s then "orange"
        else if str_in "low" s then "yellow"
        else by_id
  | None => by_id
  end.

(** ** The Defender feed *)

(** One entry of [Get-MpThreatDetection], as the JSON decoder delivers it:
    a missing or null field is [None]; [Resources] is carried as the text
    that the f-string prints for it. *)
Record Threat := mkThreat {
  ThreatName : option string;
  DetectionTime : option string;
  SeverityID : option Z;
  Severity : option string;
  Resources : string;
}.

(** What [fetch_defender_snapshot] does: raise, or return the detections. *)
Inductive FeedResult :=
| FeedError (msg : string)
| Snapshot (threats : list Threat).

(** [f"{name}|{det_time}|{sev_id}|{res}"] *)
Definition threat_rid (t : Threat) : string :=
  let name := default "" (ThreatName t) in
  let det_time := default "" (DetectionTime t) in
  let sev_id := match SeverityID t with None => "None" | Some n => pretty n end in
  name +:+ "|" +:+ det_time +:+ "|" +:+ sev_id +:+ "|" +:+ Resources t.

Definition threat_color (t : Threat) : string :=
  defender_severity_to_cookie_color (SeverityID t) (Severity t).

#[local] Close Scope string_scope.

(** ** The application state and its operations *)

Module App.
Import CookieBody.

Record t := mk {
  collider : EllipseBowlCollider.t;
  water_y : R;
  cookies : list CookieBody.t;
  counts : gmap string nat;
  auto_enabled : bool;
  auto_rate : R;
  auto_random_color : bool;
  auto_color : string;
  _auto_accum : R;
  def_auto_drop : bool;
  def_poll : bool;
  _defender_last_ids : gset string;
  _defender_pending_colors : list string;
  _defender_last_error : string;
  _defender_total : nat;
  _last_t : R;
  _sim_t : R;
  status : string;
  canvas_next : Z;
  rng : random.t;
}.

(** Attribute assignments. *)
Definition set_cookies (v : list CookieBody.t) (self : t) : t :=
  mk (collider self) (water_y self) v (counts self) (auto_enabled self)
     (auto_rate self) (auto_random_color self) (auto_color self)
     (_auto_accum self) (def_auto_drop self) (def_poll self)
     (_defender_last_ids self) (_defender_pending_colors self)
     (_defender_last_error self) (_defender_total self) (_last_t self)
     (_sim_t self) (status self) (canvas_next self) (rng self).
Definition set_counts (v : gmap string nat) (self : t) : t :=
  mk (collider self) (water_y self) (cookies self) v (auto_enabled self)
     (auto_rate self) (auto_random_color self) (auto_color self)
     (_auto_accum self) (def_auto_drop self) (def_poll self)
     (_defender_last_ids self) (_defender_pending_colors self)
     (_defender_last_error self) (_defender_total self) (_last_t self)
     (_sim_t self) (status self) (canvas_next self) (rng self).
Definition set_auto_accum (v : R) (self : t) : t :=
  mk (collider self) (water_y self) (cookies self) (counts self)
     (auto_enabled self) (auto_rate self) (auto_random_color self)
     (auto_color self) v (def_auto_drop self) (def_poll self)
     (_defender_last_ids self) (_defender_pending_colors self)
     (_defender_last_error self) (_defender_total self) (_last_t self)
     (_sim_t self) (status self) (canvas_next self) (rng self).
Definition set_defender_last_ids (v : gset string) (self : t) : t :=
  mk (collider self) (water_y self) (cookies self) (counts self)
     (auto_enabled self) (auto_rate self) (auto_random_color self)
     (auto_color self) (_auto_accum self) (def_auto_drop self)
     (def_poll self) v (_defender_pending_colors self) (_defender_last_error self)
     (_defender_total self) (_last_t self) (_sim_t self) (status self)
     (canvas_next self) (rng self).
Definition set_defender_pending_colors (v : list string) (self : t) : t :=
  mk (collider self) (water_y self) (cookies self) (counts self)
     (auto_enabled self) (auto_rate self) (auto_random_color self)
     (auto_color self) (_auto_accum self) (def_auto_drop self)
     (def_poll self) (_defender_last_ids self) v (_defender_last_error self)
     (_defender_total self) (_last_t self) (_sim_t self) (status self)
     (canvas_next self) (rng self).
Definition set_defender_last_error (v : string) (self : t) : t :=
  mk (collider self) (water_y self) (cookies self) (counts self)
     (auto_enabled self) (auto_rate self) (auto_random_color self)
     (auto_color self) (_auto_accum self) (def_auto_drop self)
     (def_poll self) (_defender_last_ids self) (_defender_pending_colors self) v
     (_defender_total self) (_last_t self) (_sim_t self) (status self)
     (canvas_next self) (rng self).
Definition set_defender_total (v : nat) (self : t) : t :=
  mk (collider self) (water_y self) (cookies self) (counts self)
     (auto_enabled self) (auto_rate self) (auto_random_color self)
     (auto_color self) (_auto_accum self) (def_auto_drop self)
     (def_poll self) (_defender_last_ids self) (_defender_pending_colors self)
     (_defender_last_error self) v (_last_t self) (_sim_t self)
     (status self) (canvas_next self) (rng self).
Definition set_last_t (v : R) (self : t) : t :=
  mk (collider self) (water_y self) (cookies self) (counts self)
     (auto_enabled self) (auto_rate self) (auto_random_color self)
     (auto_color self) (_auto_accum self) (def_auto_drop self)
     (def_poll self) (_defender_last_ids self) (_defender_pending_colors self)
     (_defender_last_error self) (_defender_total self) v (_sim_t self)
     (status self) (canvas_next self) (rng self).
Definition set_sim_t (v : R) (self : t) : t :=
  mk (collider self) (water_y self) (cookies self) (counts self)
     (auto_enabled self) (auto_rate self) (auto_random_color self)
     (auto_color self) (_auto_accum self) (def_auto_drop self)
     (def_poll self) (_defender_last_ids self) (_defender_pending_colors self)
     (_defender_last_error self) (_defender_total self) (_last_t self) v
     (status self) (canvas_next self) (rng self).
Definition set_status (v : string) (self : t) : t :=
  mk (collider self) (water_y self) (cookies self) (counts self)
     (auto_enabled self) (auto_rate self) (auto_random_color self)
     (auto_color self) (_auto_accum self) (def_auto_drop self)
     (def_poll self) (_defender_last_ids self) (_defender_pending_colors self)
     (_defender_last_error self) (_defender_total self) (_last_t self)
     (_sim_t self) v (canvas_next self) (rng self).
Definition set_canvas_next (v : Z) (self : t) : t :=
  mk (collider self) (water_y self) (cookies self) (counts self)
     (auto_enabled self) (auto_rate self) (auto_random_color self)
     (auto_color self) (_auto_accum self) (def_auto_drop self)
     (def_poll self) (_defender_last_ids self) (_defender_pending_colors self)
     (_defender_last_error self) (_defender_total self) (_last_t self)
     (_sim_t self) (status self) v (rng self).
Definition set_rng (v : random.t) (self : t) : t :=
  mk (collider self) (water_y self) (cookies self) (counts self)
     (auto_enabled self) (auto_rate self) (auto_random_color self)
     (auto_color self) (_auto_accum self) (def_auto_drop self)
     (def_poll self) (_defender_last_ids self) (_defender_pending_colors self)
     (_defender_last_error self) (_defender_total self) (_last_t self)
     (_sim_t self) (status self) (canvas_next self) v.

(** [__init__], up to its first call of [_loop]: [now] is the reading of
    [time.perf_counter()], [g] the state of the generator.  [_draw_bowl]
    has put 24 items on the canvas, so the next canvas id is 25. *)
Definition init (now : R) (g : random.t) : option t :=
  let canvas_w := 760 in
  let canvas_h := 520 in
  let bowl_cx := canvas_w * 0.52 in
  let bowl_cy := canvas_h * 0.67 in
  let bowl_a := canvas_w * 0.235 in
  let bowl_b := canvas_h * 0.295 in
  let rim_y := canvas_h * 0.30 in
  col ← EllipseBowlCollider.init bowl_cx bowl_cy bowl_a bowl_b rim_y;
  Some (mk col (rim_y + bowl_b * 0.20) [] ∅
           false 3 true "green" 0
           true true ∅ [] "" 0%nat
           now 0 "" 25%Z g).

(** *** Fill accounting *)

Definition _fill_ratio (self : t) : R :=
  let filled := foldl (fun acc c => acc + PI * r c * r c) 0 (cookies self) in
  filled / Rmax 1 (EllipseBowlCollider.bowl_area (collider self)).

(** *** Cookies *)

(** [spawn_cookie] and [_apply_underwater_mode] as they go when their
    drawing calls return: the state is the one that the call leaves then.
    The same methods together with the drawing argument that can raise
    ([highlight_color]) are in [Calls] below; every statement on whether a
    call returns, and on what a spawn appends, is made there. *)
Definition spawn_cookie (color : string) (self : t) : t :=
  let ratio := _fill_ratio self in
  if decide (ratio >= HARD_STOP_AT) then
    set_status "Hard stop: bowl is overfilled. Clear some cookies." self
  else if decide ((length (cookies self) >= MAX_COOKIES)%nat
                  /\ ratio >= OVERFLOW_AT) then
    set_status "Too many cookies for stability. Clear or export." self
  else
    let col := collider self in
    let '(r0, g) := random.uniform 11 18 (rng self) in
    let '(x0, g) :=
      random.uniform (EllipseBowlCollider.rim_left col + r0 + 10)
                     (EllipseBowlCollider.rim_right col - r0 - 10) g in
    let '(h0, g) := random.uniform 45 120 g in
    let y0 := EllipseBowlCollider.rim_y col - r0 - h0 in
    let '(vx0, g) := random.uniform (-240) 240 g in
    let '(vy0, g) := random.uniform (-40) 120 g in
    let shadow := canvas_next self in
    let item := (canvas_next self + 1)%Z in
    let highlight := (canvas_next self + 2)%Z in
    let '(u, g) := random.random g in
    let '(freq, g) := random.uniform WOBBLE_FREQ_MIN WOBBLE_FREQ_MAX g in
    let c := CookieBody.mk color r0 x0 y0 vx0 vy0 item shadow highlight
               false 0%nat false (u * tau) freq in
    set_rng g
      (set_canvas_next (canvas_next self + 3)%Z
        (set_counts (<[color := S (default 0%nat (counts self !! color))]>
                       (counts self))
          (set_cookies (cookies self ++ [c]) self))).

Definition _apply_underwater_mode (self : t) (c : CookieBody.t) : CookieBody.t :=
  let is_under := bool_decide (y c >= water_y self) in
  if decide (is_under = underwater c) then c
  else
    let c1 := set_underwater is_under c in
    if is_under then set_vy (vy c1 * 0.60) (set_vx (vx c1 * 0.78) c1)
    else set_vx (vx c1 * 1.05) c1.

Definition _underwater_wobble_ax (self : t) (c : CookieBody.t) : R :=
  let speed := hypot (vx c) (vy c) in
  let fade := clamp (speed / (SLEEP_SPEED * 2.5)) 0 1 in
  let wob := sin (wobble_phase c + tau * wobble_freq c * _sim_t self) in
  WOBBLE_ACCEL * wob * fade.

(** *** Actions *)

Definition shake_cookie (c : CookieBody.t) (g : random.t)
    : CookieBody.t * random.t :=
  let c := set_sleep_counter 0 (set_asleep false c) in
  let '(ix, g) := random.uniform (-760) 760 g in
  let c := set_vx (vx c + ix) c in
  let '(iy, g) := random.uniform (-560) 220 g in
  (set_vy (vy c + iy) c, g).

Definition shake (self : t) : t :=
  let '(cs, g) :=
    foldl (fun acc c =>
             let '(done, g) := acc in
             let '(c', g') := shake_cookie c g in (done ++ [c'], g'))
          ([], rng self) (cookies self) in
  set_rng g (set_cookies cs self).

Definition clear (self : t) : t :=
  set_status ""
    (set_defender_pending_colors []
      (set_auto_accum 0
        (set_counts ∅
          (set_cookies [] self)))).

(** *** Defender *)

(** [_defender_sync_once], given what [fetch_defender_snapshot] did. *)
Definition _defender_sync_once (feed : FeedResult) (self : t) : t :=
  match feed with
  | FeedError msg => set_defender_last_error msg self
  | Snapshot threats =>
      let '(new_colors, current_ids) :=
        foldl (fun (acc : list string * gset string) th =>
                 let '(new_colors, current_ids) := acc in
                 let rid := threat_rid th in
                 let current_ids := current_ids ∪ {[ rid ]} in
                 if decide (rid ∉ _defender_last_ids self)
                 then (new_colors ++ [threat_color th], current_ids)
                 else (new_colors, current_ids))
              ([], ∅) threats in
      let self := set_defender_last_error ""%string self in
      let self := set_defender_total (length threats) self in
      let self := set_defender_last_ids current_ids self in
      match new_colors with
      | [] => self
      | _ :: _ =>
          set_defender_pending_colors
            (_defender_pending_colors self ++ new_colors) self
      end
  end.

(** *** Loop / physics *)

(** One turn of the [for _ in range(to_spawn)] loop. *)
Definition auto_spawn_one (self : t) : t :=
  if auto_random_color self then
    match random.choice COLORS (rng self) with
    | (Some color, g) => spawn_cookie color (set_rng g self)
    | (None, g) => set_rng g self
    end
  else
    let color :=
      if String.eqb (auto_color self) "" then "green"%string
      else auto_color self in
    spawn_cookie color self.

(** The arithmetic of [_auto_drop_step]: the accumulator it leaves and the
    number of turns of its spawn loop. *)
Definition auto_drop_plan (accum dt rate : R) : R * Z :=
  let accum := accum + dt * rate in
  let to_spawn := py_int accum in
  if decide (to_spawn <= 0)%Z then (accum, 0%Z)
  else (accum - IZR to_spawn, Z.min to_spawn 10).

Definition _auto_drop_step (dt : R) (self : t) : t :=
  if negb (auto_enabled self) then set_auto_accum 0 self
  else
    let rate := Rmax 0 (auto_rate self) in
    if decide (rate <= 0) then self
    else
      let '(accum, to_spawn) := auto_drop_plan (_auto_accum self) dt rate in
      Nat.iter (Z.to_nat to_spawn) auto_spawn_one (set_auto_accum accum self).

(** The [while] loop of [_defender_drop_step]; [budget] is
    [MAX_DROPS_PER_TICK - dropped]. *)
Fixpoint defender_drain (budget : nat) (self : t) : t :=
  match budget with
  | O => self
  | S budget' =>
      match _defender_pending_colors self with
      | [] => self
      | color :: rest =>
          defender_drain budget'
            (spawn_cookie color (set_defender_pending_colors rest self))
      end
  end.

Definition _defender_drop_step (self : t) : t :=
  if negb (def_auto_drop self) then self
  else defender_drain MAX_DROPS_PER_TICK self.

(** [math.sqrt] and float division, which raise. *)
Definition py_sqrt (u : R) : option R :=
  if decide (u < 0) then None else Some (sqrt u).
Definition py_div (u v : R) : option R :=
  if decide (v = 0) then None else Some (u / v).

(** The head of [_resolve_circle_collision]: the centre delta [dx, dy] and
    its squared length, perturbed when the centres (nearly) coincide. *)
Definition contact_delta (a b : CookieBody.t) (g : random.t)
    : R * R * R * random.t :=
  let dx := x b - x a in
  let dy := y b - y a in
  let dist2 := dx * dx + dy * dy in
  if decide (dist2 <= 1e-9) then
    let '(u, g1) := random.random g in
    let ang := u * tau in
    let dx := cos ang * 0.01 in
    let dy := sin ang * 0.01 in
    (dx, dy, dx * dx + dy * dy, g1)
  else (dx, dy, dist2, g).

Definition _resolve_circle_collision (a b : CookieBody.t) (g : random.t)
    : option (CookieBody.t * CookieBody.t * random.t) :=
  let min_dist := r a + r b in
  let '(dx, dy, dist2, g) := contact_delta a b g in
  if decide (dist2 >= min_dist * min_dist) then Some (a, b, g)
  else
    dist ← py_sqrt dist2;
    nx ← py_div dx dist;
    ny ← py_div dy dist;
    let overlap := min_dist - dist in
    let '(a, b) :=
      if asleep a && negb (asleep b) then
        (a, set_y (y b + ny * overlap) (set_x (x b + nx * overlap) b))
      else if asleep b && negb (asleep a) then
        (set_y (y a - ny * overlap) (set_x (x a - nx * overlap) a), b)
      else
        let push := overlap * 0.5 in
        (set_y (y a - ny * push) (set_x (x a - nx * push) a),
         set_y (y b + ny * push) (set_x (x b + nx * push) b)) in
    let '(a, b) :=
      if decide (overlap > 0.6) then
        (set_sleep_counter 0 (set_asleep false a),
         set_sleep_counter 0 (set_asleep false b))
      else (a, b) in
    let rvx := vx b - vx a in
    let rvy := vy b - vy a in
    let vel_n := rvx * nx + rvy * ny in
    if decide (vel_n > 0) then Some (a, b, g)
    else
      j ← py_div (- (1 + COOKIE_RESTITUTION) * vel_n) 2;
      let ix := j * nx in
      let iy := j * ny in
      let a := if negb (asleep a) then set_vy (vy a - iy) (set_vx (vx a - ix) a)
               else a in
      let b := if negb (asleep b) then set_vy (vy b + iy) (set_vx (vx b + ix) b)
               else b in
      Some (a, b, g).

(** The body of [for c in self.cookies] inside a substep. *)
Definition step_cookie (self : t) (sub_dt : R) (c : CookieBody.t)
    : CookieBody.t :=
  let c := _apply_underwater_mode self c in
  if asleep c then c
  else
    let gravity := if underwater c then GRAVITY_WATER else GRAVITY_AIR in
    let friction := if underwater c then FRICTION_WATER else FRICTION_AIR in
    let c :=
      if underwater c then
        let c := set_vx (vx c + _underwater_wobble_ax self c * sub_dt) c in
        set_vx (vx c * (1 - WOBBLE_DAMP * sub_dt)) c
      else c in
    let c := set_vy (vy c + gravity * sub_dt) c in
    let c := set_x (x c + vx c * sub_dt) c in
    let c := set_y (y c + vy c * sub_dt) c in
    let c := set_vx (vx c * friction) c in
    let c := set_vy (vy c * (if negb (underwater c) then 0.999 else 0.990)) c in
    EllipseBowlCollider.collide_cookie (collider self) c.

(** [a = cookies[i]; b = cookies[j]; _resolve_circle_collision(a, b)]:
    both objects are updated in place in the list. *)
Definition resolve_at (i j : nat) (st : list CookieBody.t * random.t)
    : option (list CookieBody.t * random.t) :=
  let '(cs, g) := st in
  a ← cs !! i;
  b ← cs !! j;
  '(a', b', g') ← _resolve_circle_collision a b g;
  Some (<[j := b']> (<[i := a']> cs), g').

(** One collision pass: [for i in range(n): for j in range(i + 1, n)]. *)
Definition collision_pass (st : list CookieBody.t * random.t)
    : option (list CookieBody.t * random.t) :=
  let n := length (fst st) in
  foldl (fun acc i =>
           foldl (fun acc j => acc ≫= resolve_at i j)
                 acc (seq (S i) (n - S i)))
        (Some st) (seq 0 n).

(** One turn of [for _ in range(SUBSTEPS)]. *)
Definition substep (sub_dt : R) (self : t) : option t :=
  let self := set_cookies (step_cookie self sub_dt <$> cookies self) self in
  '(cs, g) ← foldl (fun acc _ => acc ≫= collision_pass)
                   (Some (cookies self, rng self)) (seq 0 COLLISION_PASSES);
  Some (set_rng g (set_cookies cs self)).

(** The sleep/wake update that closes [_step]. *)
Definition sleep_update (self : t) (c : CookieBody.t) : CookieBody.t :=
  if asleep c then c
  else
    let speed := hypot (vx c) (vy c) in
    if decide (speed < SLEEP_SPEED
               /\ y c > EllipseBowlCollider.rim_y (collider self) + r c) then
      let c := set_sleep_counter (sleep_counter c + 1) c in
      if decide (sleep_counter c >= SLEEP_FRAMES)%nat then
        set_vy 0 (set_vx 0 (set_asleep true c))
      else c
    else set_sleep_counter 0 c.

Definition _step (dt : R) (self : t) : option t :=
  let sub_dt := dt / INR SUBSTEPS in
  self ← foldl (fun acc _ => acc ≫= substep sub_dt)
               (Some self) (seq 0 SUBSTEPS);
  Some (set_cookies (sleep_update self <$> cookies self) self).

(** [_loop], given the reading [now] of [time.perf_counter()]. *)
Definition _loop (now : R) (self : t) : option t :=
  let dt := Rmin (now - _last_t self) (1 / 30) in
  let self := set_last_t now self in
  let self := set_sim_t (_sim_t self + dt) self in
  let self := _auto_drop_step dt self in
  let self := _defender_drop_step self in
  _step dt self.
End App.

(** * Statement-level definitions *)

Module Props.
Import CookieBody.

(** The sleep invariant of a body: asleep implies zero velocity. *)
Definition sleep_inv (c : CookieBody.t) : Prop :=
  asleep c = true -> vx c = 0 /\ vy c = 0.

Definition sleep_inv_all (self : App.t) : Prop :=
  Forall sleep_inv (App.cookies self).

(** The rejection condition of [spawn]: hard stop, or hard cap on the body
    count at or above the overflow ratio. *)
Definition spawn_rejects (self : App.t) : Prop :=
  App._fill_ratio self >= HARD_STOP_AT
  \/ ((length (App.cookies self) >= MAX_COOKIES)%nat
      /\ App._fill_ratio self >= OVERFLOW_AT).

(** [self'] has the bowl of [self] and bodies of the same radii. *)
Definition same_radii (self self' : App.t) : Prop :=
  r <$> App.cookies self' = r <$> App.cookies self
  /\ App.collider self' = App.collider self.



(** A run of Defender polls. *)
Definition poll_all (feeds : list FeedResult) (self : App.t) : App.t :=
  foldl (fun s feed => App._defender_sync_once feed s) self feeds.

(** The identifiers of a snapshot, as a list and as a set. *)
Definition snapshot_rids (threats : list Threat) : list string :=
  threat_rid <$> threats.
Definition snapshot_ids (threats : list Threat) : gset string :=
  list_to_set (snapshot_rids threats).

(** All identifiers that a run of polls has shown. *)
Definition seen_ids (feeds : list FeedResult) : gset string :=
  ⋃ ((fun feed => match feed with
                  | Snapshot threats => snapshot_ids threats
                  | FeedError _ => ∅
                  end) <$> feeds).

(** A cumulative feed: no snapshot repeats an identifier, and each
    snapshot still shows every identifier of the one before. *)
Fixpoint cumulative (prev : gset string) (snaps : list (list Threat)) : Prop :=
  match snaps with
  | [] => True
  | threats :: snaps' =>
      NoDup (snapshot_rids threats)
      /\ prev ⊆ snapshot_ids threats
      /\ cumulative (snapshot_ids threats) snaps'
  end.

(** The identifier set after a run of snapshots. *)
Definition last_snapshot_ids (prev : gset string) (snaps : list (list Threat))
    : gset string :=
  match last snaps with
  | Some threats => snapshot_ids threats
  | None => prev
  end.

(** The entries of a snapshot whose identifier the previous snapshot did
    not show. *)
Definition new_threats (prev : gset string) (threats : list Threat)
    : list Threat :=
  filter (fun th => threat_rid th ∉ prev) threats.

(** The semi-axes of the bowl shrunk by a body's radius, floored at 5. *)
Definition shrunk_a (col : EllipseBowlCollider.t) (c : CookieBody.t) : R :=
  Rmax 5 (EllipseBowlCollider.a col - r c).
Definition shrunk_b (col : EllipseBowlCollider.t) (c : CookieBody.t) : R :=
  Rmax 5 (EllipseBowlCollider.b col - r c).

(** The quadratic form of the shrunk ellipse at a point, for a body [c]. *)
Definition quad (col : EllipseBowlCollider.t) (c : CookieBody.t) (px py : R) : R :=
  let ex := (px - EllipseBowlCollider.cx col) / shrunk_a col c in
  let ey := (py - EllipseBowlCollider.cy col) / shrunk_b col c in
  ex * ex + ey * ey.

(** The funnel zone and the shrunk-ellipse containment test. *)
Definition in_funnel (col : EllipseBowlCollider.t) (c : CookieBody.t) : Prop :=
  y c < EllipseBowlCollider.rim_y col - r c * 0.6.
Definition contained (col : EllipseBowlCollider.t) (c : CookieBody.t) : Prop :=
  quad col c (x c) (y c) <= 1.

(** The two tests up to a tolerance [tol], which absorbs the rounding of
    the float arithmetic that has placed the body. *)
Definition in_funnel_within (tol : R)
    (col : EllipseBowlCollider.t) (c : CookieBody.t) : Prop :=
  y c < EllipseBowlCollider.rim_y col - r c * 0.6 + tol.
Definition contained_within (tol : R)
    (col : EllipseBowlCollider.t) (c : CookieBody.t) : Prop :=
  quad col c (x c) (y c) <= 1 + tol.

(** The gradient direction of the quadratic form at the body's centre, its
    length, and the unit normal. *)
Definition grad (col : EllipseBowlCollider.t) (c : CookieBody.t) : R * R :=
  ((x c - EllipseBowlCollider.cx col) / (shrunk_a col c * shrunk_a col c),
   (y c - EllipseBowlCollider.cy col) / (shrunk_b col c * shrunk_b col c)).
Definition grad_len (col : EllipseBowlCollider.t) (c : CookieBody.t) : R :=
  hypot (grad col c).1 (grad col c).2.
Definition normal (col : EllipseBowlCollider.t) (c : CookieBody.t) : R * R :=
  ((grad col c).1 / grad_len col c, (grad col c).2 / grad_len col c).

(** The velocity with its normal component reflected at the bowl
    restitution. *)
Definition reflected (col : EllipseBowlCollider.t) (c : CookieBody.t) : R * R :=
  let '(nx, ny) := normal col c in
  let vdotn := vx c * nx + vy c * ny in
  (vx c - (1 + BOWL_RESTITUTION) * vdotn * nx,
   vy c - (1 + BOWL_RESTITUTION) * vdotn * ny).

(** The centre projected onto the shrunk ellipse along the ray from the
    bowl's centre. *)
Definition projected (col : EllipseBowlCollider.t) (c : CookieBody.t) : R * R :=
  let s := sqrt (quad col c (x c) (y c)) in
  (EllipseBowlCollider.cx col + (x c - EllipseBowlCollider.cx col) / s,
   EllipseBowlCollider.cy col + (y c - EllipseBowlCollider.cy col) / s).

(** The boundary reflection as the specification words it: projection,
    reflection, then one damping factor [k] on both velocity components. *)
Definition uniformly_damped_reflection
    (col : EllipseBowlCollider.t) (c c' : CookieBody.t) : Prop :=
  (x c', y c') = projected col c
  /\ exists k, vx c' = k * (reflected col c).1 /\ vy c' = k * (reflected col c).2.

(** Containment as the specification words it, for all bodies. *)
Definition containment (self : App.t) : Prop :=
  Forall (fun c => in_funnel (App.collider self) c
                   \/ contained (App.collider self) c)
         (App.cookies self).
End Props.

(** * Concrete inputs *)

Module Samples.
Import CookieBody.

(** The bowl that [App.__init__] builds. *)
Definition bowl : EllipseBowlCollider.t :=
  EllipseBowlCollider._recalc_area
    (EllipseBowlCollider._recalc_rim
       (EllipseBowlCollider.mk
          (760 * 0.52) (520 * 0.67) (760 * 0.235) (520 * 0.295) (520 * 0.30)
          (760 * 0.52 - 760 * 0.235 * 0.3) (760 * 0.52 + 760 * 0.235 * 0.3) 1)).

(** A generator whose draws are all 1/2. *)
Definition halves : random.t := random.mk (fun _ => 1 / 2) 0.

(** The application as [__init__] leaves it, at clock reading 0. *)
Definition app0 : App.t :=
  App.mk bowl (520 * 0.30 + 520 * 0.295 * 0.20) [] ∅
         false 3 true "green" 0
         true true ∅ [] "" 0%nat
         0 0 "" 25%Z halves.

(** Three detections, with distinct identifiers. *)
Definition thA : Threat :=
  mkThreat (Some "Trojan:Win32/A"%string) (Some "2024-05-01T10:00:00"%string)
           (Some 5%Z) (Some "Severe"%string) "file:_C:\\a.exe".
Definition thB : Threat :=
  mkThreat (Some "PUA:Win32/B"%string) (Some "2024-05-01T11:00:00"%string)
           (Some 2%Z) (Some "Moderate"%string) "file:_C:\\b.exe".
Definition thC : Threat :=
  mkThreat (Some "Adware:Win32/C"%string) (Some "2024-05-01T12:00:00"%string)
           (Some 1%Z) (Some "Low"%string) "file:_C:\\c.exe".

(** A body of radius 15 straight below the bowl's centre, twice as far as the
    shrunk ellipse reaches, moving right and down. *)
Definition far_below : CookieBody.t :=
  CookieBody.mk "red" 15 395.2 625.2 100 100 26 25 27 false 0 true 0 1.

(** Two sleeping bodies of radius 15 at the height of the bowl's centre, under
    water: [at_wall] touches the right end of the shrunk ellipse, [neighbour]
    overlaps it by 0.4 from the left. *)
Definition neighbour : CookieBody.t :=
  CookieBody.mk "blue" 15 529.2 348.4 0 0 26 25 27 true 18 true 0 1.
Definition at_wall : CookieBody.t :=
  CookieBody.mk "red" 15 558.8 348.4 0 0 29 28 30 true 18 true 0 1.

(** Where one collision pass leaves them. *)
Definition neighbour' : CookieBody.t :=
  CookieBody.mk "blue" 15 529 348.4 0 0 26 25 27 true 18 true 0 1.
Definition at_wall' : CookieBody.t :=
  CookieBody.mk "red" 15 559 348.4 0 0 29 28 30 true 18 true 0 1.

(** An awake body where [at_wall] is, moving towards [neighbour]. *)
Definition loose : CookieBody.t :=
  CookieBody.mk "red" 15 558.8 348.4 (-10) 0 29 28 30 false 0 true 0 1.

(** A freshly spawned body of the largest radius. *)
Definition big : CookieBody.t :=
  CookieBody.mk "green" 18 395.2 60 0 0 26 25 27 false 0 false 0 1.

(** The application with 140 such bodies and two detections waiting. *)
Definition full : App.t :=
  App.set_defender_pending_colors ["red"; "orange"]%string
    (App.set_cookies (replicate 140 big) app0).

(** The application holding the two bodies. *)
Definition pile : App.t := App.set_cookies [neighbour; at_wall] app0.
End Samples.

(** * Colours *)

(** The colour helpers of the module, on ASCII text.  A colour triple is a
    triple of Python [int]s. *)

#[local] Open Scope string_scope.

Definition UNDERWATER_DARKEN : R := 0.65.
Definition TINT_STRENGTH : R := 0.35.
Definition WATER_TINT : Z * Z * Z := (40, 110, 170)%Z.
Definition HIGHLIGHT_ALPHA_SIM : R := 0.72.

(** [safe_fg] *)
Definition safe_fg (bg : string) : string :=
  let dark := ["black"; "brown"; "purple"; "blue"; "red"; "magenta"] in
  if existsb (String.eqb (lower bg)) dark then "white" else "black".

(** [clamp] at [int] arguments. *)
Definition clamp_int (v lo hi : Z) : Z :=
  if (v <? lo)%Z then lo else if (hi <? v)%Z then hi else v.

(** The hexadecimal digits of a non-negative [int], lowest digit last;
    [fuel] bounds the number of digits. *)
Definition hex_digit (d : Z) : ascii :=
  if (d <? 10)%Z then ascii_of_nat (48 + Z.to_nat d)
  else ascii_of_nat (87 + Z.to_nat d).

Fixpoint hex_digits (fuel : nat) (n : Z) (acc : string) : string :=
  let acc' := String (hex_digit (n mod 16)) acc in
  match fuel with
  | O => acc'
  | S fuel' => if (n / 16 =? 0)%Z then acc' else hex_digits fuel' (n / 16) acc'
  end.

(** [f"{n:02x}"]: lower-case hexadecimal, zero-padded to width 2, the sign
    of a negative number counting for the width. *)
Definition format_02x (n : Z) : string :=
  if (n <? 0)%Z then
    String "-" (hex_digits (Z.to_nat (Z.log2 (- n))) (- n) "")
  else
    let h := hex_digits (Z.to_nat (Z.log2 n)) n "" in
    if (String.length h <? 2)%nat then String "0" h else h.

(** [gray] *)
Definition gray (level : Z) : string :=
  let level := clamp_int level 0 255 in
  "#" +:+ format_02x level +:+ format_02x level +:+ format_02x level.

(** [rgb_to_hex] *)
Definition rgb_to_hex (rgb : Z * Z * Z) : string :=
  let '(r0, g0, b0) := rgb in
  let r1 := clamp_int r0 0 255 in
  let g1 := clamp_int g0 0 255 in
  let b1 := clamp_int b0 0 255 in
  "#" +:+ format_02x r1 +:+ format_02x g1 +:+ format_02x b1.

(** [int(s, 16)] on ASCII text: surrounding white space (for [int], on
    ASCII text, the characters 9 to 13 and 32), an optional sign, an
    optional [0x] prefix (which one underscore may follow), then digits with
    single underscores between them.  [None] is [ValueError]. *)
Definition is_int_space (ch : ascii) : bool :=
  let n := nat_of_ascii ch in
  ((9 <=? n)%nat && (n <=? 13)%nat) || (n =? 32)%nat.

Fixpoint int_lstrip (s : string) : string :=
  match s with
  | EmptyString => EmptyString
  | String ch s' => if is_int_space ch then int_lstrip s' else s
  end.

Definition int_strip (s : string) : string :=
  String.rev (int_lstrip (String.rev (int_lstrip s))).

Definition hex_value (ch : ascii) : option Z :=
  let n := nat_of_ascii ch in
  if (48 <=? n)%nat && (n <=? 57)%nat then Some (Z.of_nat (n - 48))
  else if (97 <=? n)%nat && (n <=? 102)%nat then Some (Z.of_nat (n - 87))
  else if (65 <=? n)%nat && (n <=? 70)%nat then Some (Z.of_nat (n - 55))
  else None.

Fixpoint parse_hex (s : string) (acc : Z) (after_digit : bool) : option Z :=
  match s with
  | EmptyString => if after_digit then Some acc else None
  | String ch s' =>
      if Ascii.eqb ch "_" then
        if after_digit then parse_hex s' acc false else None
      else
        match hex_value ch with
        | Some d => parse_hex s' (16 * acc + d)%Z true
        | None => None
        end
  end.

Definition int_base16 (s : string) : option Z :=
  let s := int_strip s in
  let '(negative, s) :=
    match s with
    | String "-" s' => (true, s')
    | String "+" s' => (false, s')
    | _ => (false, s)
    end in
  let s :=
    match s with
    | String "0" (String "x" s') | String "0" (String "X" s') =>
        match s' with
        | String "_" s'' => s''
        | _ => s'
        end
    | _ => s
    end in
  n ← parse_hex s 0 false;
  Some (if negative then (- n)%Z else n).

(** [str.lstrip("#")] and [ch * 2 for ch in h]. *)
Fixpoint lstrip_hash (s : string) : string :=
  match s with
  | String "#" s' => lstrip_hash s'
  | _ => s
  end.

Fixpoint double_chars (s : string) : string :=
  match s with
  | EmptyString => EmptyString
  | String ch s' => String ch (String ch (double_chars s'))
  end.

(** [hex_to_rgb] *)
Definition hex_to_rgb (h : string) : option (Z * Z * Z) :=
  let h := lstrip_hash h in
  let h := if (String.length h =? 3)%nat then double_chars h else h in
  r0 ← int_base16 (substring 0 2 h);
  g0 ← int_base16 (substring 2 2 h);
  b0 ← int_base16 (substring 4 2 h);
  Some (r0, g0, b0).

(** [blend_rgb] *)
Definition blend_rgb (a b : Z * Z * Z) (t : R) : Z * Z * Z :=
  let t := clamp t 0 1 in
  let '(a0, a1, a2) := a in
  let '(b0, b1, b2) := b in
  (py_int (IZR a0 * (1 - t) + IZR b0 * t),
   py_int (IZR a1 * (1 - t) + IZR b1 * t),
   py_int (IZR a2 * (1 - t) + IZR b2 * t)).

(** [COLOR_RGB] and [COLOR_RGB.get(name, default)]. *)
Definition COLOR_RGB : list (string * (Z * Z * Z)) :=
  [ ("green", (0, 128, 0)); ("blue", (0, 0, 255)); ("yellow", (255, 255, 0));
    ("red", (255, 0, 0)); ("purple", (128, 0, 128)); ("orange", (255, 165, 0));
    ("pink", (255, 192, 203)); ("brown", (139, 69, 19)); ("black", (0, 0, 0));
    ("white", (255, 255, 255)); ("cyan", (0, 255, 255));
    ("magenta", (255, 0, 255)) ]%Z.

Fixpoint dict_get {V} (d : list (string * V)) (key : string) (default : V) : V :=
  match d with
  | [] => default
  | (k, v) :: d' => if String.eqb k key then v else dict_get d' key default
  end.

(** [underwater_color] *)
Definition underwater_color (name : string) : string :=
  let '(base0, base1, base2) := dict_get COLOR_RGB (lower name) (180, 180, 180)%Z in
  let dark0 := IZR base0 * UNDERWATER_DARKEN in
  let dark1 := IZR base1 * UNDERWATER_DARKEN in
  let dark2 := IZR base2 * UNDERWATER_DARKEN in
  let '(w0, w1, w2) := WATER_TINT in
  let tint0 := dark0 * (1 - TINT_STRENGTH) + IZR w0 * TINT_STRENGTH in
  let tint1 := dark1 * (1 - TINT_STRENGTH) + IZR w1 * TINT_STRENGTH in
  let tint2 := dark2 * (1 - TINT_STRENGTH) + IZR w2 * TINT_STRENGTH in
  rgb_to_hex (py_int tint0, py_int tint1, py_int tint2).

(** [highlight_color]; [None] is the [ValueError] of [hex_to_rgb]. *)
Definition highlight_color (fill_hex_or_name : string) : option string :=
  base ← (if String.prefix "#" fill_hex_or_name
          then hex_to_rgb fill_hex_or_name
          else Some (dict_get COLOR_RGB (lower fill_hex_or_name)
                              (180, 180, 180)%Z));
  Some (rgb_to_hex (blend_rgb base (255, 255, 255)%Z HIGHLIGHT_ALPHA_SIM)).

(** [App._cookie_fill] and [App._highlight_fill]. *)
Definition _cookie_fill (c : CookieBody.t) : string :=
  if CookieBody.underwater c then underwater_color (CookieBody.color_name c)
  else CookieBody.color_name c.

Definition _highlight_fill (c : CookieBody.t) : option string :=
  highlight_color (_cookie_fill c).

(** A colour triple whose channels are bytes. *)
Definition rgb_bytes (rgb : Z * Z * Z) : Prop :=
  let '(r0, g0, b0) := rgb in
  (0 <= r0 <= 255 /\ 0 <= g0 <= 255 /\ 0 <= b0 <= 255)%Z.

(** What [format_02x] should print for a byte: two characters, the first
    not a hash sign, that [int_base16] reads back. *)
Definition byte_ok (n : Z) : bool :=
  match format_02x n with
  | String d1 (String d2 EmptyString) =>
      negb (Ascii.eqb d1 "#")
      && match int_base16 (String d1 (String d2 EmptyString)) with
         | Some m => (m =? n)%Z
         | None => false
         end
  | _ => false
  end.

#[local] Close Scope string_scope.

(** * The calls with their drawing arguments *)

(** [App.spawn_cookie] and [App._apply_underwater_mode] above give the
    state that a call leaves when its canvas calls return.  One argument of
    those canvas calls is computed by the program itself and can raise:
    [highlight_color(color)] in [spawn_cookie], which is evaluated after the
    shadow and the body have been drawn and before the body is appended, and
    [self._highlight_fill(c)] in [_apply_underwater_mode], which is evaluated
    after the flag has been flipped and before the velocity is scaled.  The
    definitions of this module are the same methods with that raise, and the
    methods that call them.  The canvas itself is taken to accept what it is
    given. *)
Module Calls.
Import CookieBody.

(** How a call ends, and the state it leaves. *)
Inductive outcome :=
| Returns (self : App.t)
| Raises (self : App.t).

Definition left (o : outcome) : App.t :=
  match o with Returns self | Raises self => self end.
Definition returned (o : outcome) : option App.t :=
  match o with Returns self => Some self | Raises _ => None end.

(** The colours whose highlight can be computed. *)
Definition drawable (color : string) : Prop := is_Some (highlight_color color).

(** [App.spawn_cookie] *)
Definition spawn_cookie (color : string) (self : App.t) : outcome :=
  let ratio := App._fill_ratio self in
  if decide (ratio >= HARD_STOP_AT) then
    Returns
      (App.set_status
         "Hard stop: bowl is overfilled. Clear some cookies." self)
  else if decide ((length (App.cookies self) >= MAX_COOKIES)%nat
                  /\ ratio >= OVERFLOW_AT) then
    Returns
      (App.set_status "Too many cookies for stability. Clear or export." self)
  else
    let col := App.collider self in
    let '(r0, g) := random.uniform 11 18 (App.rng self) in
    let '(x0, g) :=
      random.uniform (EllipseBowlCollider.rim_left col + r0 + 10)
                     (EllipseBowlCollider.rim_right col - r0 - 10) g in
    let '(h0, g) := random.uniform 45 120 g in
    let y0 := EllipseBowlCollider.rim_y col - r0 - h0 in
    let '(vx0, g) := random.uniform (-240) 240 g in
    let '(vy0, g) := random.uniform (-40) 120 g in
    let shadow := App.canvas_next self in
    let item := (App.canvas_next self + 1)%Z in
    match highlight_color color with
    | None =>
        Raises (App.set_rng g
                  (App.set_canvas_next (App.canvas_next self + 2)%Z self))
    | Some _ =>
        let highlight := (App.canvas_next self + 2)%Z in
        let '(u, g) := random.random g in
        let '(freq, g) := random.uniform WOBBLE_FREQ_MIN WOBBLE_FREQ_MAX g in
        let c := CookieBody.mk color r0 x0 y0 vx0 vy0 item shadow highlight
                   false 0%nat false (u * tau) freq in
        Returns
          (App.set_rng g
             (App.set_canvas_next (App.canvas_next self + 3)%Z
                (App.set_counts
                   (<[color := S (default 0%nat (App.counts self !! color))]>
                      (App.counts self))
                   (App.set_cookies (App.cookies self ++ [c]) self))))
    end.

(** [App._apply_underwater_mode] *)
Definition _apply_underwater_mode (self : App.t) (c : CookieBody.t)
    : option CookieBody.t :=
  let is_under := bool_decide (y c >= App.water_y self) in
  if decide (is_under = underwater c) then Some c
  else
    let c1 := set_underwater is_under c in
    _ ← _highlight_fill c1;
    Some (if is_under then set_vy (vy c1 * 0.60) (set_vx (vx c1 * 0.78) c1)
          else set_vx (vx c1 * 1.05) c1).

(** The body of [for c in self.cookies] inside a substep. *)
Definition step_cookie (self : App.t) (sub_dt : R) (c : CookieBody.t)
    : option CookieBody.t :=
  c ← _apply_underwater_mode self c;
  Some
    (if asleep c then c
     else
       let gravity := if underwater c then GRAVITY_WATER else GRAVITY_AIR in
       let friction := if underwater c then FRICTION_WATER else FRICTION_AIR in
       let c :=
         if underwater c then
           let c := set_vx (vx c + App._underwater_wobble_ax self c * sub_dt) c in
           set_vx (vx c * (1 - WOBBLE_DAMP * sub_dt)) c
         else c in
       let c := set_vy (vy c + gravity * sub_dt) c in
       let c := set_x (x c + vx c * sub_dt) c in
       let c := set_y (y c + vy c * sub_dt) c in
       let c := set_vx (vx c * friction) c in
       let c := set_vy (vy c * (if negb (underwater c) then 0.999 else 0.990)) c in
       EllipseBowlCollider.collide_cookie (App.collider self) c).

(** One turn of [for _ in range(SUBSTEPS)]. *)
Definition substep (sub_dt : R) (self : App.t) : option App.t :=
  cs ← mapM (step_cookie self sub_dt) (App.cookies self);
  let self := App.set_cookies cs self in
  '(cs, g) ← foldl (fun acc _ => acc ≫= App.collision_pass)
                   (Some (App.cookies self, App.rng self))
                   (seq 0 COLLISION_PASSES);
  Some (App.set_rng g (App.set_cookies cs self)).

(** [App._step] *)
Definition _step (dt : R) (self : App.t) : option App.t :=
  let sub_dt := dt / INR SUBSTEPS in
  self ← foldl (fun acc _ => acc ≫= substep sub_dt)
               (Some self) (seq 0 SUBSTEPS);
  Some (App.set_cookies (App.sleep_update self <$> App.cookies self) self).

(** One turn of the [for _ in range(to_spawn)] loop. *)
Definition auto_spawn_one (self : App.t) : option App.t :=
  if App.auto_random_color self then
    match random.choice COLORS (App.rng self) with
    | (Some color, g) => returned (spawn_cookie color (App.set_rng g self))
    | (None, g) => Some (App.set_rng g self)
    end
  else
    let color :=
      if String.eqb (App.auto_color self) "" then "green"%string
      else App.auto_color self in
    returned (spawn_cookie color self).

(** [App._auto_drop_step] *)
Definition _auto_drop_step (dt : R) (self : App.t) : option App.t :=
  if negb (App.auto_enabled self) then Some (App.set_auto_accum 0 self)
  else
    let rate := Rmax 0 (App.auto_rate self) in
    if decide (rate <= 0) then Some self
    else
      let '(accum, to_spawn) :=
        App.auto_drop_plan (App._auto_accum self) dt rate in
      Nat.iter (Z.to_nat to_spawn) (fun acc => acc ≫= auto_spawn_one)
               (Some (App.set_auto_accum accum self)).

(** The [while] loop of [_defender_drop_step]. *)
Fixpoint defender_drain (budget : nat) (self : App.t) : option App.t :=
  match budget with
  | O => Some self
  | S budget' =>
      match App._defender_pending_colors self with
      | [] => Some self
      | color :: rest =>
          self ← returned
                   (spawn_cookie color
                      (App.set_defender_pending_colors rest self));
          defender_drain budget' self
      end
  end.

(** [App._defender_drop_step] *)
Definition _defender_drop_step (self : App.t) : option App.t :=
  if negb (App.def_auto_drop self) then Some self
  else defender_drain MAX_DROPS_PER_TICK self.

(** [App._loop], up to and including [_step]. *)
Definition _loop (now : R) (self : App.t) : option App.t :=
  let dt := Rmin (now - App._last_t self) (1 / 30) in
  let self := App.set_last_t now self in
  let self := App.set_sim_t (App._sim_t self + dt) self in
  self ← _auto_drop_step dt self;
  self ← _defender_drop_step self;
  _step dt self.

(** A sequence of [spawn_cookie] calls, one per colour, each on the state
    that the call before it has left, whether it returned or raised. *)
Definition spawn_all (colors : list string) (self : App.t) : App.t :=
  foldl (fun s color => left (spawn_cookie color s)) self colors.




(** The colours that a frame may ask for can all be drawn. *)
Definition colors_drawable (self : App.t) : Prop :=
  (App.auto_random_color self = false ->
   drawable (if String.eqb (App.auto_color self) "" then "green"%string
             else App.auto_color self))
  /\ Forall drawable (App._defender_pending_colors self).

(** Every body has a colour that can be drawn, as every body that
    [spawn_cookie] has appended has. *)
Definition bodies_drawable (self : App.t) : Prop :=
  Forall (fun c => drawable (color_name c)) (App.cookies self).
End Calls.

(** * Further statement-level definitions *)

Module More.
Import CookieBody.

(** The attributes of a body that make up its identity: they are set when
    the body is created. *)
Definition body_ident (c : CookieBody.t)
    : string * R * Z * Z * Z * R * R :=
  (color_name c, r c, item_id c, shadow_id c, highlight_id c,
   wobble_phase c, wobble_freq c).

(** The quadratic form that [is_inside_point] compares with 1. *)
Definition ellipse_form (col : EllipseBowlCollider.t) (px py : R) : R :=
  let dx := (px - EllipseBowlCollider.cx col) / EllipseBowlCollider.a col in
  let dy := (py - EllipseBowlCollider.cy col) / EllipseBowlCollider.b col in
  dx * dx + dy * dy.

(** The squared distance of two centres, and the squared speed. *)
Definition dist2 (a b : CookieBody.t) : R :=
  (x b - x a) * (x b - x a) + (y b - y a) * (y b - y a).
Definition speed2 (c : CookieBody.t) : R := vx c * vx c + vy c * vy c.

(** A pile at rest: every body asleep with its underwater flag up to date,
    and no two bodies overlapping or coinciding. *)
Definition settled (self : App.t) : Prop :=
  Forall (fun c => asleep c = true
                   /\ underwater c = bool_decide (y c >= App.water_y self))
         (App.cookies self)
  /\ forall i j a b,
       (i < j)%nat ->
       App.cookies self !! i = Some a -> App.cookies self !! j = Some b ->
       dist2 a b > 1e-9 /\ dist2 a b >= (r a + r b) * (r a + r b).

(** The per-colour counters agree with the bodies. *)
Definition counts_ok (self : App.t) : Prop :=
  forall color,
    default 0%nat (App.counts self !! color)
    = length (filter (fun c => color_name c = color) (App.cookies self)).

(** The asleep flag says that the rest counter has reached [SLEEP_FRAMES]. *)
Definition rest_flag (c : CookieBody.t) : Prop :=
  asleep c = bool_decide (sleep_counter c >= SLEEP_FRAMES)%nat.

(** The rest state of a body is coherent: the flag agrees with the counter,
    which has not run past [SLEEP_FRAMES]. *)
Definition rest_ok (c : CookieBody.t) : Prop :=
  rest_flag c /\ (sleep_counter c <= SLEEP_FRAMES)%nat.

(** A pile of two sleeping bodies that touch without overlapping. *)
Definition resting_pair : App.t :=
  App.set_cookies [Samples.neighbour'; Samples.at_wall'] Samples.app0.

(** A run of physics steps, one per time step of the list. *)
Fixpoint steps (dts : list R) (self : App.t) : option App.t :=
  match dts with
  | [] => Some self
  | dt :: dts' => self' ← App._step dt self; steps dts' self'
  end.

(** What [n] steps can do to the rest state of a body: the counter grows by
    at most [n], and an awake body is asleep afterwards only if the counter
    could reach [SLEEP_FRAMES] on the way. *)
Definition rested_within (n : nat) (c c' : CookieBody.t) : Prop :=
  (sleep_counter c' <= sleep_counter c + n)%nat
  /\ (asleep c = false -> asleep c' = true ->
      (SLEEP_FRAMES <= sleep_counter c + n)%nat).

(** The colours that the severity mapping can return. *)
Definition defender_colors : list string :=
  ["red"; "orange"; "yellow"; "purple"]%string.

(** [self'] differs from [self] at most in its bodies and its generator. *)
Definition only_bodies_changed (self self' : App.t) : Prop :=
  self' = App.set_rng (App.rng self') (App.set_cookies (App.cookies self') self).
End More.

(** * Properties *)

Import CookieBody.

(** ** Pairwise contact resolution *)

Section Contact.
Implicit Types (a b : CookieBody.t) (g : random.t).

(** The squared length that [contact_delta] hands on is that of its delta
    and is never zero. *)
Lemma contact_delta_pos a b g :
  let '(dx, dy, dist2, _) := App.contact_delta a b g in
  dist2 = dx * dx + dy * dy /\ 0 < dist2.
Proof.
  unfold App.contact_delta. case_decide as Hd; simpl.
  - split; [reflexivity|].
    set (ang := random.stream g (random.pos g) * tau).
    pose proof (sin2_cos2 ang) as Hsc. unfold Rsqr in Hsc. nra.
  - split; [reflexivity|]. lra.
Qed.

Lemma py_sqrt_some u : 0 <= u -> App.py_sqrt u = Some (sqrt u).
Proof. intros Hu. unfold App.py_sqrt. case_decide; [lra|reflexivity]. Qed.

Lemma py_div_some u v : v <> 0 -> App.py_div u v = Some (u / v).
Proof. intros Hv. unfold App.py_div. case_decide; [contradiction|reflexivity]. Qed.
End Contact.

Section ContactResolution.
Implicit Types (a b : CookieBody.t) (g : random.t).

Lemma resolve_no_contact a b g dx dy dist2 g1 :
  App.contact_delta a b g = (dx, dy, dist2, g1) ->
  dist2 >= (r a + r b) * (r a + r b) ->
  App._resolve_circle_collision a b g = Some (a, b, g1).
Proof.
  intros Hd Hfar. unfold App._resolve_circle_collision. rewrite Hd.
  case_decide; [reflexivity|contradiction].
Qed.

(** The divisor [dist] is positive and the contact normal has length one. *)
Lemma contact_normal_unit a b g :
  let '(dx, dy, dist2, _) := App.contact_delta a b g in
  0 < sqrt dist2 /\
  (dx / sqrt dist2) * (dx / sqrt dist2)
    + (dy / sqrt dist2) * (dy / sqrt dist2) = 1.
Proof.
  pose proof (contact_delta_pos a b g) as Hpos.
  destruct (App.contact_delta a b g) as [[[dx dy] dist2] g1].
  destruct Hpos as [Heq Hpos].
  pose proof (sqrt_lt_R0 _ Hpos) as Hs. split; [exact Hs|].
  assert (sqrt dist2 * sqrt dist2 = dist2) as Hsq by (apply sqrt_sqrt; lra).
  assert (sqrt dist2 <> 0) as Hne by lra.
  apply (Rmult_eq_reg_r (sqrt dist2 * sqrt dist2)); [|nra].
  field_simplify; [|exact Hne]. nra.
Qed.

(** In the degenerate branch the delta is a vector of length 0.01 at the
    angle [random() * tau], and one draw is consumed. *)
Lemma contact_delta_degenerate a b g :
  (x b - x a) * (x b - x a) + (y b - y a) * (y b - y a) <= 1e-9 ->
  let ang := random.stream g (random.pos g) * tau in
  App.contact_delta a b g =
    (cos ang * 0.01, sin ang * 0.01,
     cos ang * 0.01 * (cos ang * 0.01) + sin ang * 0.01 * (sin ang * 0.01),
     random.mk (random.stream g) (S (random.pos g)))
  /\ sqrt (cos ang * 0.01 * (cos ang * 0.01)
           + sin ang * 0.01 * (sin ang * 0.01)) = 0.01.
Proof.
  intros Hd ang. unfold App.contact_delta.
  case_decide; [|contradiction]. simpl. split; [reflexivity|].
  fold ang. pose proof (sin2_cos2 ang) as Hsc. unfold Rsqr in Hsc.
  replace (cos ang * 0.01 * (cos ang * 0.01) + sin ang * 0.01 * (sin ang * 0.01))
    with (0.01 * 0.01) by nra.
  apply sqrt_square; lra.
Qed.

Lemma resolve_returns a b g :
  exists a' b' g', App._resolve_circle_collision a b g = Some (a', b', g').
Proof.
  pose proof (contact_delta_pos a b g) as Hpos.
  unfold App._resolve_circle_collision.
  destruct (App.contact_delta a b g) as [[[dx dy] dist2] g1].
  destruct Hpos as [_ Hpos].
  case_decide; [eauto|].
  rewrite py_sqrt_some by lra. simpl.
  assert (sqrt dist2 <> 0) as Hs by (pose proof (sqrt_lt_R0 _ Hpos); lra).
  rewrite !py_div_some by exact Hs. simpl.
  repeat (case_match || case_decide); simplify_eq; eauto;
    rewrite py_div_some by lra; simpl; eauto.
Qed.

(** C9 (degenerate-contact safety).  [_resolve_circle_collision] returns
    for every pair and every generator state: no division by zero and no
    root of a negative number is reached.  The delta it divides by has a
    positive length and yields a unit normal; when the centres coincide up
    to a squared distance of 1e-9 that delta is the vector of length 0.01
    at the angle [random() * tau]. *)
Theorem C9_degenerate_contact_safety a b g :
  (exists a' b' g', App._resolve_circle_collision a b g = Some (a', b', g'))
  /\ (let '(dx, dy, dist2, _) := App.contact_delta a b g in
      0 < sqrt dist2 /\
      (dx / sqrt dist2) * (dx / sqrt dist2)
        + (dy / sqrt dist2) * (dy / sqrt dist2) = 1)
  /\ ((x b - x a) * (x b - x a) + (y b - y a) * (y b - y a) <= 1e-9 ->
      let ang := random.stream g (random.pos g) * tau in
      App.contact_delta a b g =
        (cos ang * 0.01, sin ang * 0.01,
         cos ang * 0.01 * (cos ang * 0.01) + sin ang * 0.01 * (sin ang * 0.01),
         random.mk (random.stream g) (S (random.pos g)))
      /\ sqrt (cos ang * 0.01 * (cos ang * 0.01)
               + sin ang * 0.01 * (sin ang * 0.01)) = 0.01).
Proof.
  split; [apply resolve_returns|].
  split; [apply contact_normal_unit|apply contact_delta_degenerate].
Qed.

(** C7 (pairwise anchoring).  For a pair in contact, with [n] the contact
    normal and [overlap] the positional overlap: a sleeping body facing an
    awake one keeps its position and the awake one moves by the whole
    overlap along [n]; otherwise both move by half the overlap, in opposite
    directions.  Velocities change only when the relative normal velocity
    is negative, and then only for a body that is not asleep when the
    impulse is applied (an overlap above 0.6 has woken both by then). *)
Theorem C7_pairwise_anchoring a b g dx dy dist2 g1 :
  App.contact_delta a b g = (dx, dy, dist2, g1) ->
  dist2 < (r a + r b) * (r a + r b) ->
  let dist := sqrt dist2 in
  let nx := dx / dist in
  let ny := dy / dist in
  let overlap := r a + r b - dist in
  let vel_n := (vx b - vx a) * nx + (vy b - vy a) * ny in
  let j := - (1 + COOKIE_RESTITUTION) * vel_n / 2 in
  exists a' b',
    App._resolve_circle_collision a b g = Some (a', b', g1)
    /\ (asleep a = true -> asleep b = false ->
        x a' = x a /\ y a' = y a
        /\ x b' = x b + nx * overlap /\ y b' = y b + ny * overlap)
    /\ (asleep b = true -> asleep a = false ->
        x b' = x b /\ y b' = y b
        /\ x a' = x a - nx * overlap /\ y a' = y a - ny * overlap)
    /\ (asleep a = asleep b ->
        x a' = x a - nx * (overlap * 0.5) /\ y a' = y a - ny * (overlap * 0.5)
        /\ x b' = x b + nx * (overlap * 0.5) /\ y b' = y b + ny * (overlap * 0.5))
    /\ asleep a' = asleep a && negb (bool_decide (overlap > 0.6))
    /\ asleep b' = asleep b && negb (bool_decide (overlap > 0.6))
    /\ (0 <= vel_n ->
        vx a' = vx a /\ vy a' = vy a /\ vx b' = vx b /\ vy b' = vy b)
    /\ (vel_n < 0 ->
        (vx a', vy a') =
          (if asleep a' then (vx a, vy a) else (vx a - j * nx, vy a - j * ny))
        /\ (vx b', vy b') =
          (if asleep b' then (vx b, vy b) else (vx b + j * nx, vy b + j * ny))).
Proof.
  intros Hd Hnear dist nx ny overlap vel_n j.
  pose proof (contact_delta_pos a b g) as Hpos. rewrite Hd in Hpos.
  destruct Hpos as [_ Hpos].
  unfold App._resolve_circle_collision. rewrite Hd.
  case_decide; [lra|].
  rewrite py_sqrt_some by lra. simpl.
  assert (sqrt dist2 <> 0) as Hs by (pose proof (sqrt_lt_R0 _ Hpos); lra).
  rewrite !py_div_some by exact Hs. simpl.
  fold dist nx ny overlap.
  unfold bool_decide.
  destruct (asleep a) eqn:Ha, (asleep b) eqn:Hb; simpl;
    destruct (decide (overlap > 0.6)) as [Ho|Ho];
    simpl; fold vel_n;
    (destruct (decide (vel_n > 0)) as [Hv|Hv];
     [|rewrite py_div_some by lra; simpl; fold j; rewrite ?Ha, ?Hb; simpl]);
    eexists _, _; (split; [reflexivity|]); simpl; rewrite ?Ha, ?Hb;
    repeat split; intros; try discriminate; try lra; try reflexivity;
    try (assert (vel_n = 0) as Hz by lra; unfold j; rewrite Hz; lra);
    destruct (Rgt_decision overlap 0.6); simpl;
    first [reflexivity | contradiction].
Qed.
End ContactResolution.

(** ** Folding a fallible step over a range *)

Section FoldOption.
Context {S I : Type} (P : S -> Prop) (F : option S -> I -> option S).

Lemma foldl_option_inv (l : list I) :
  (forall i s, i ∈ l -> P s -> exists s', F (Some s) i = Some s' /\ P s') ->
  forall s, P s -> exists s', foldl F (Some s) l = Some s' /\ P s'.
Proof.
  induction l as [|i l IH]; intros Hstep s Hs; simpl.
  - eauto.
  - destruct (Hstep i s) as (s1 & -> & Hs1); [left|exact Hs|].
    apply IH; [|exact Hs1].
    intros i' s' Hin. apply Hstep. right. exact Hin.
Qed.
End FoldOption.

(** ** The sleep invariant *)

Section SleepInvariant.
Import Props.
Implicit Types (c a b : CookieBody.t) (g : random.t) (self : App.t).

Lemma sleep_inv_awake c : asleep c = false -> sleep_inv c.
Proof. intros Hc Hs. congruence. Qed.

Lemma collide_cookie_asleep col c :
  asleep (EllipseBowlCollider.collide_cookie col c) = asleep c.
Proof.
  unfold EllipseBowlCollider.collide_cookie.
  repeat case_decide; reflexivity.
Qed.

Lemma apply_underwater_mode_asleep self c :
  asleep (App._apply_underwater_mode self c) = asleep c.
Proof.
  unfold App._apply_underwater_mode.
  case_decide; [reflexivity|]. case_match; reflexivity.
Qed.

Lemma apply_underwater_mode_sleep_inv self c :
  sleep_inv c -> sleep_inv (App._apply_underwater_mode self c).
Proof.
  intros Hc. unfold App._apply_underwater_mode.
  case_decide; [exact Hc|].
  case_match; intros Hs; simpl in *; destruct (Hc Hs) as [-> ->]; lra.
Qed.

Lemma step_cookie_sleep_inv self sub_dt c :
  sleep_inv c -> sleep_inv (App.step_cookie self sub_dt c).
Proof.
  intros Hc. unfold App.step_cookie.
  pose proof (apply_underwater_mode_sleep_inv self c Hc) as Hu.
  destruct (asleep (App._apply_underwater_mode self c)) eqn:Hs; [exact Hu|].
  apply sleep_inv_awake. rewrite collide_cookie_asleep.
  case_match; simpl; exact Hs.
Qed.

Lemma resolve_sleep_inv a b g a' b' g' :
  App._resolve_circle_collision a b g = Some (a', b', g') ->
  sleep_inv a -> sleep_inv b -> sleep_inv a' /\ sleep_inv b'.
Proof.
  unfold App._resolve_circle_collision.
  destruct (App.contact_delta a b g) as [[[dx dy] dist2] g1].
  intros Hr Ha Hb. case_decide; [simplify_eq; auto|].
  destruct (App.py_sqrt dist2) as [dist|]; [|discriminate]. simpl in Hr.
  destruct (App.py_div dx dist) as [nx|]; [|discriminate]. simpl in Hr.
  destruct (App.py_div dy dist) as [ny|]; [|discriminate]. simpl in Hr.
  unfold sleep_inv in *.
  destruct (asleep a) eqn:Ea, (asleep b) eqn:Eb; simpl in Hr;
    repeat (case_decide; simpl in Hr);
    try (destruct (App.py_div _ 2) as [j|]; [|discriminate]);
    simpl in Hr; rewrite ?Ea, ?Eb in Hr; simpl in Hr; simplify_eq;
    split; simpl; rewrite ?Ea, ?Eb; auto; discriminate.
Qed.

(** A property of the list of bodies kept by contact resolution is kept,
    together with the length of the list, by the collision passes, by a
    substep and by [_step]; and these always return. *)
Section Passes.
Context (I : list CookieBody.t -> Prop).
Hypothesis I_resolve : forall cs i j a b a' b' g g',
  I cs -> cs !! i = Some a -> cs !! j = Some b ->
  App._resolve_circle_collision a b g = Some (a', b', g') ->
  I (<[j := b']> (<[i := a']> cs)).

Let inv (n : nat) (st : list CookieBody.t * random.t) : Prop :=
  length (fst st) = n /\ I (fst st).

Lemma resolve_at_inv n i j st :
  (i < n)%nat -> (j < n)%nat -> inv n st ->
  exists st', App.resolve_at i j st = Some st' /\ inv n st'.
Proof.
  intros Hi Hj [Hlen HI]. destruct st as [cs g]. simpl in *.
  destruct (lookup_lt_is_Some_2 cs i) as [a Ha]; [lia|].
  destruct (lookup_lt_is_Some_2 cs j) as [b Hb]; [lia|].
  unfold App.resolve_at. rewrite Ha, Hb. simpl.
  destruct (resolve_returns a b g) as (a' & b' & g' & Hr).
  rewrite Hr. simpl. eexists. split; [reflexivity|].
  split; simpl.
  - rewrite !length_insert. exact Hlen.
  - eapply I_resolve; eassumption.
Qed.

Lemma collision_pass_inv n st :
  inv n st -> exists st', App.collision_pass st = Some st' /\ inv n st'.
Proof.
  intros Hst. unfold App.collision_pass.
  assert (length (fst st) = n) as -> by apply Hst.
  apply (foldl_option_inv (inv n)); [|exact Hst].
  intros i s Hi Hs. apply elem_of_seq in Hi.
  apply (foldl_option_inv (inv n)); [|exact Hs].
  intros j s' Hj Hs'. apply elem_of_seq in Hj. simpl.
  apply resolve_at_inv; [lia|lia|exact Hs'].
Qed.

Lemma collision_passes_inv n k st :
  inv n st ->
  exists st', foldl (fun acc _ => acc ≫= App.collision_pass) (Some st)
                (seq 0 k) = Some st' /\ inv n st'.
Proof.
  intros Hst. apply (foldl_option_inv (inv n)); [|exact Hst].
  intros _ s _ Hs. simpl. apply collision_pass_inv. exact Hs.
Qed.

Lemma substep_inv sub_dt self :
  I (App.step_cookie self sub_dt <$> App.cookies self) ->
  exists self', App.substep sub_dt self = Some self'
    /\ I (App.cookies self')
    /\ length (App.cookies self') = length (App.cookies self)
    /\ App.collider self' = App.collider self.
Proof.
  intros HI. unfold App.substep.
  cbn [App.cookies App.rng App.set_cookies].
  destruct (collision_passes_inv (length (App.cookies self)) COLLISION_PASSES
              (App.step_cookie self sub_dt <$> App.cookies self, App.rng self))
    as ([cs g] & -> & Hlen & Hcs).
  - split; simpl; [apply length_fmap|exact HI].
  - simpl in *. eexists. split; [reflexivity|]. simpl. auto.
Qed.

Lemma step_inv dt self :
  (forall self sub_dt cs, I cs -> I (App.step_cookie self sub_dt <$> cs)) ->
  (forall self cs, I cs -> I (App.sleep_update self <$> cs)) ->
  I (App.cookies self) ->
  exists self', App._step dt self = Some self'
    /\ I (App.cookies self')
    /\ length (App.cookies self') = length (App.cookies self)
    /\ App.collider self' = App.collider self.
Proof.
  intros Hstep Hsleep HI. unfold App._step.
  destruct (foldl_option_inv
              (fun s => I (App.cookies s)
                        /\ length (App.cookies s) = length (App.cookies self)
                        /\ App.collider s = App.collider self)
              (fun acc (_ : nat) => acc ≫= App.substep (dt / INR SUBSTEPS))
              (seq 0 SUBSTEPS)) with (s := self)
    as (s1 & -> & HI1 & Hlen1 & Hcol1).
  - intros _ s _ (Hs & Hl & Hc).
    destruct (substep_inv (dt / INR SUBSTEPS) s) as (s' & Hs' & ? & ? & ?);
      [apply Hstep; exact Hs|].
    exists s'. split; [exact Hs'|]. split; [assumption|split; congruence].
  - auto.
  - simpl. eexists. split; [reflexivity|]. simpl. split; [|split].
    + apply Hsleep. exact HI1.
    + rewrite length_fmap. exact Hlen1.
    + exact Hcol1.
Qed.
End Passes.

(** The case of a predicate that holds of every body. *)
Lemma resolve_Forall (Q : CookieBody.t -> Prop) :
  (forall a b g a' b' g',
     App._resolve_circle_collision a b g = Some (a', b', g') ->
     Q a -> Q b -> Q a' /\ Q b') ->
  forall cs i j a b a' b' g g',
    Forall Q cs -> cs !! i = Some a -> cs !! j = Some b ->
    App._resolve_circle_collision a b g = Some (a', b', g') ->
    Forall Q (<[j := b']> (<[i := a']> cs)).
Proof.
  intros HQ cs i j a b a' b' g g' Hcs Ha Hb Hr.
  destruct (HQ _ _ _ _ _ _ Hr) as [Ha' Hb'].
  - eapply Forall_lookup_1; eauto.
  - eapply Forall_lookup_1; eauto.
  - apply Forall_insert; [apply Forall_insert|]; assumption.
Qed.

Lemma sleep_update_sleep_inv self c :
  sleep_inv c -> sleep_inv (App.sleep_update self c).
Proof.
  intros Hc. unfold App.sleep_update.
  destruct (asleep c) eqn:Hs; [exact Hc|].
  repeat case_decide; try (apply sleep_inv_awake; simpl; exact Hs).
  intros _. simpl. auto.
Qed.

Lemma step_sleep_inv dt self :
  sleep_inv_all self ->
  exists self', App._step dt self = Some self' /\ sleep_inv_all self'.
Proof.
  intros H.
  destruct (step_inv (Forall sleep_inv) (resolve_Forall _ resolve_sleep_inv)
              dt self) as (s & ? & ? & _); eauto.
  - intros s sub_dt cs Hcs. apply Forall_fmap.
    eapply Forall_impl; [exact Hcs|]. apply step_cookie_sleep_inv.
  - intros s cs Hcs. apply Forall_fmap.
    eapply Forall_impl; [exact Hcs|]. apply sleep_update_sleep_inv.
Qed.

Lemma substep_sleep_inv sub_dt self :
  sleep_inv_all self ->
  exists self', App.substep sub_dt self = Some self' /\ sleep_inv_all self'.
Proof.
  intros H.
  destruct (substep_inv (Forall sleep_inv) (resolve_Forall _ resolve_sleep_inv)
              sub_dt self) as (s & ? & ? & _); eauto.
  apply Forall_fmap. eapply Forall_impl; [exact H|].
  apply step_cookie_sleep_inv.
Qed.

Lemma spawn_cookie_sleep_inv color self :
  sleep_inv_all self -> sleep_inv_all (App.spawn_cookie color self).
Proof.
  intros H. unfold sleep_inv_all, App.spawn_cookie.
  repeat case_decide; try exact H.
  unfold random.uniform, random.random. simpl.
  apply Forall_app. split; [exact H|].
  apply Forall_singleton. apply sleep_inv_awake. reflexivity.
Qed.

Lemma shake_cookie_awake c g : asleep (fst (App.shake_cookie c g)) = false.
Proof. reflexivity. Qed.

Lemma shake_sleep_inv self : sleep_inv_all (App.shake self).
Proof.
  unfold sleep_inv_all, App.shake.
  assert (forall l done g,
            Forall sleep_inv done ->
            Forall sleep_inv
              (fst (foldl (fun (acc : list CookieBody.t * random.t) c =>
                             let '(done, g) := acc in
                             let '(c', g') := App.shake_cookie c g in
                             (done ++ [c'], g')) (done, g) l))) as Hfold.
  { induction l as [|c l IH]; intros done g Hd; simpl; [exact Hd|].
    apply IH. apply Forall_app. split; [exact Hd|].
    apply Forall_singleton, sleep_inv_awake. reflexivity. }
  specialize (Hfold (App.cookies self) [] (App.rng self) (Forall_nil_2 _)).
  destruct (foldl _ _ _) as [cs g]. exact Hfold.
Qed.

Lemma clear_sleep_inv self : sleep_inv_all (App.clear self).
Proof. apply Forall_nil_2. Qed.

Lemma auto_spawn_one_sleep_inv self :
  sleep_inv_all self -> sleep_inv_all (App.auto_spawn_one self).
Proof.
  intros H. unfold App.auto_spawn_one.
  destruct (App.auto_random_color self).
  - destruct (random.choice COLORS (App.rng self)) as [[color|] g].
    + apply spawn_cookie_sleep_inv. exact H.
    + exact H.
  - apply spawn_cookie_sleep_inv. exact H.
Qed.

Lemma auto_drop_step_sleep_inv dt self :
  sleep_inv_all self -> sleep_inv_all (App._auto_drop_step dt self).
Proof.
  intros H. unfold App._auto_drop_step.
  destruct (App.auto_enabled self); cbn [negb]; [|exact H].
  case_decide; [exact H|].
  destruct (App.auto_drop_plan _ _ _) as [accum n].
  induction (Z.to_nat n) as [|k IH]; simpl; [exact H|].
  apply auto_spawn_one_sleep_inv, IH.
Qed.

Lemma defender_drain_sleep_inv budget self :
  sleep_inv_all self -> sleep_inv_all (App.defender_drain budget self).
Proof.
  revert self. induction budget as [|k IH]; intros self H; simpl; [exact H|].
  destruct (App._defender_pending_colors self) as [|color rest]; [exact H|].
  apply IH, spawn_cookie_sleep_inv. exact H.
Qed.

Lemma defender_drop_step_sleep_inv self :
  sleep_inv_all self -> sleep_inv_all (App._defender_drop_step self).
Proof.
  intros H. unfold App._defender_drop_step.
  destruct (App.def_auto_drop self); cbn [negb]; [|exact H].
  apply defender_drain_sleep_inv, H.
Qed.

Lemma loop_sleep_inv now self :
  sleep_inv_all self ->
  exists self', App._loop now self = Some self' /\ sleep_inv_all self'.
Proof.
  intros H. unfold App._loop. apply step_sleep_inv.
  apply defender_drop_step_sleep_inv, auto_drop_step_sleep_inv. exact H.
Qed.

(** C1 (sleep invariant).  If every body that is asleep has zero velocity,
    the same holds after each operation: a spawn, a shake, a clear, the
    underwater regime transition of a body, the integration and boundary
    collision of a body within a substep, the contact resolution of a pair,
    a whole substep, the sleep/wake update, a whole [_step] and a whole frame
    of [_loop] (which all return).  [shake] and [clear] establish it from any
    state. *)
Theorem C1_sleep_invariant self :
  sleep_inv_all self ->
  (forall color, sleep_inv_all (App.spawn_cookie color self))
  /\ sleep_inv_all (App.shake self)
  /\ sleep_inv_all (App.clear self)
  /\ (forall c, c ∈ App.cookies self ->
        sleep_inv (App._apply_underwater_mode self c))
  /\ (forall c sub_dt, c ∈ App.cookies self ->
        sleep_inv (App.step_cookie self sub_dt c))
  /\ (forall a b g, a ∈ App.cookies self -> b ∈ App.cookies self ->
        exists a' b' g',
          App._resolve_circle_collision a b g = Some (a', b', g')
          /\ sleep_inv a' /\ sleep_inv b')
  /\ (forall sub_dt, exists self',
        App.substep sub_dt self = Some self' /\ sleep_inv_all self')
  /\ (forall c, c ∈ App.cookies self -> sleep_inv (App.sleep_update self c))
  /\ (forall dt, exists self',
        App._step dt self = Some self' /\ sleep_inv_all self')
  /\ (forall now, exists self',
        App._loop now self = Some self' /\ sleep_inv_all self').
Proof.
  intros H.
  assert (forall c, c ∈ App.cookies self -> sleep_inv c) as Hin.
  { intros c Hc. unfold sleep_inv_all in H. rewrite Forall_forall in H.
    apply H. exact Hc. }
  repeat apply conj.
  - intros color. apply spawn_cookie_sleep_inv, H.
  - apply shake_sleep_inv.
  - apply clear_sleep_inv.
  - intros c Hc. apply apply_underwater_mode_sleep_inv, Hin, Hc.
  - intros c sub_dt Hc. apply step_cookie_sleep_inv, Hin, Hc.
  - intros a b g Ha Hb.
    destruct (resolve_returns a b g) as (a' & b' & g' & Hr).
    exists a', b', g'. split; [exact Hr|].
    apply (resolve_sleep_inv _ _ _ _ _ _ Hr); apply Hin; assumption.
  - intros sub_dt. apply substep_sleep_inv, H.
  - intros c Hc. apply sleep_update_sleep_inv, Hin, Hc.
  - intros dt. apply step_sleep_inv, H.
  - intros now. apply loop_sleep_inv, H.
Qed.
End SleepInvariant.

(** ** Spawning and the fill ratio *)

Section Spawn.
Import Props.
Implicit Types (c : CookieBody.t) (self : App.t) (color : string).

Lemma spawn_cookie_reject color self :
  spawn_rejects self ->
  App.spawn_cookie color self =
    App.set_status
      (if decide (App._fill_ratio self >= HARD_STOP_AT)
       then "Hard stop: bowl is overfilled. Clear some cookies."%string
       else "Too many cookies for stability. Clear or export."%string) self.
Proof.
  intros Hrej. unfold App.spawn_cookie.
  destruct (decide (App._fill_ratio self >= HARD_STOP_AT)) as [Hh|Hh];
    [reflexivity|].
  case_decide as Hm; [reflexivity|].
  exfalso. destruct Hrej as [?|?]; [apply Hh|apply Hm]; assumption.
Qed.

Lemma spawn_cookie_accept color self :
  ~ spawn_rejects self ->
  exists c,
    App.cookies (App.spawn_cookie color self) = App.cookies self ++ [c]
    /\ color_name c = color
    /\ asleep c = false
    /\ r c = 11 + (18 - 11) * random.stream (App.rng self) (random.pos (App.rng self))
    /\ App.counts (App.spawn_cookie color self) =
         <[color := S (default 0%nat (App.counts self !! color))]> (App.counts self).
Proof.
  intros Hrej. unfold App.spawn_cookie.
  case_decide as Hh; [exfalso; apply Hrej; left; exact Hh|].
  case_decide as Hm; [exfalso; apply Hrej; right; exact Hm|].
  unfold random.uniform, random.random. simpl.
  eexists. repeat split.
Qed.

(** What [spawn_cookie] never touches. *)
Lemma spawn_cookie_frame color self :
  let self' := App.spawn_cookie color self in
  App.collider self' = App.collider self
  /\ App.water_y self' = App.water_y self
  /\ random.stream (App.rng self') = random.stream (App.rng self)
  /\ App._defender_pending_colors self' = App._defender_pending_colors self
  /\ App._defender_last_ids self' = App._defender_last_ids self
  /\ App._auto_accum self' = App._auto_accum self
  /\ App.auto_rate self' = App.auto_rate self
  /\ App.auto_enabled self' = App.auto_enabled self
  /\ App.auto_random_color self' = App.auto_random_color self
  /\ App.auto_color self' = App.auto_color self
  /\ App.def_auto_drop self' = App.def_auto_drop self
  /\ App._sim_t self' = App._sim_t self
  /\ App._last_t self' = App._last_t self.
Proof.
  unfold App.spawn_cookie. repeat case_decide;
    unfold random.uniform, random.random; simpl; repeat split.
Qed.

Lemma fill_ratio_app self self' c :
  App.cookies self' = App.cookies self ++ [c] ->
  App.collider self' = App.collider self ->
  App._fill_ratio self' =
    App._fill_ratio self
    + PI * r c * r c / Rmax 1 (EllipseBowlCollider.bowl_area (App.collider self)).
Proof.
  intros Hc Hcol. unfold App._fill_ratio. rewrite Hc, Hcol, foldl_app. simpl.
  pose proof (Rmax_l 1 (EllipseBowlCollider.bowl_area (App.collider self))).
  field. lra.
Qed.

Lemma fill_ratio_same self self' :
  App.cookies self' = App.cookies self ->
  App.collider self' = App.collider self ->
  App._fill_ratio self' = App._fill_ratio self.
Proof. intros Hc Hcol. unfold App._fill_ratio. rewrite Hc, Hcol. reflexivity. Qed.

Lemma spawn_rejects_dec self : spawn_rejects self \/ ~ spawn_rejects self.
Proof.
  unfold spawn_rejects.
  destruct (decide (App._fill_ratio self >= HARD_STOP_AT)); [tauto|].
  destruct (decide ((length (App.cookies self) >= MAX_COOKIES)%nat
                    /\ App._fill_ratio self >= OVERFLOW_AT)); tauto.
Qed.

Lemma spawn_cookie_fill color self :
  random.unit_draws (App.rng self) ->
  (spawn_rejects self ->
     App._fill_ratio (App.spawn_cookie color self) = App._fill_ratio self)
  /\ (~ spawn_rejects self ->
       App._fill_ratio self < App._fill_ratio (App.spawn_cookie color self)).
Proof.
  intros Hu. pose proof (spawn_cookie_frame color self) as (Hcol & _).
  split; intros H.
  - apply fill_ratio_same; [|exact Hcol].
    rewrite (spawn_cookie_reject color self H). reflexivity.
  - destruct (spawn_cookie_accept color self H) as (c & Hc & _ & _ & Hr & _).
    rewrite (fill_ratio_app self _ c Hc Hcol).
    pose proof (Hu (random.pos (App.rng self))) as Hu0.
    pose proof PI_RGT_0 as Hpi.
    pose proof (Rmax_l 1 (EllipseBowlCollider.bowl_area (App.collider self))) as Hm.
    assert (0 < r c) as Hrc by (rewrite Hr; nra).
    assert (0 < PI * r c * r c) as Hnum by (apply Rmult_lt_0_compat; nra).
    assert (0 < PI * r c * r c
                / Rmax 1 (EllipseBowlCollider.bowl_area (App.collider self))).
    { apply Rdiv_lt_0_compat; lra. }
    lra.
Qed.

End Spawn.

(** ** The defender drain *)

Section DefenderDrain.
Import Props.
Implicit Types (self : App.t).

Lemma defender_drain_pending budget self :
  App._defender_pending_colors (App.defender_drain budget self)
  = drop budget (App._defender_pending_colors self).
Proof.
  revert self. induction budget as [|k IH]; intros self; simpl.
  - rewrite drop_0. reflexivity.
  - destruct (App._defender_pending_colors self) as [|color rest] eqn:Hp.
    + rewrite Hp. reflexivity.
    + rewrite IH.
      pose proof (spawn_cookie_frame color
                    (App.set_defender_pending_colors rest self))
        as (_ & _ & _ & Hpend & _).
      rewrite Hpend. reflexivity.
Qed.

Lemma defender_drain_rejected budget self :
  spawn_rejects self ->
  App.cookies (App.defender_drain budget self) = App.cookies self
  /\ App.counts (App.defender_drain budget self) = App.counts self.
Proof.
  revert self. induction budget as [|k IH]; intros self Hrej; simpl; [auto|].
  destruct (App._defender_pending_colors self) as [|color rest]; [auto|].
  assert (spawn_rejects (App.set_defender_pending_colors rest self)) as Hrej'
    by exact Hrej.
  rewrite (spawn_cookie_reject color _ Hrej').
  destruct (IH (App.set_status
                  (if decide (App._fill_ratio
                                (App.set_defender_pending_colors rest self)
                              >= HARD_STOP_AT)
                   then "Hard stop: bowl is overfilled. Clear some cookies."%string
                   else "Too many cookies for stability. Clear or export."%string)
                  (App.set_defender_pending_colors rest self)))
    as [H1 H2]; [exact Hrej|].
  rewrite H1, H2. auto.
Qed.

(** C10 (lossy defender drain).  With detection drops enabled, a frame's
    drain removes the first [MAX_DROPS_PER_TICK] pending colours (all of
    them if there are fewer) whatever [spawn_cookie] does with them: each is
    popped before the spawn is attempted.  When the spawn guard rejects, no
    body and no count is added, yet the popped requests are gone from the
    queue, so no later frame can retry them. *)
Theorem C10_lossy_defender_drain self :
  App.def_auto_drop self = true ->
  App._defender_pending_colors (App._defender_drop_step self)
    = drop MAX_DROPS_PER_TICK (App._defender_pending_colors self)
  /\ length (App._defender_pending_colors (App._defender_drop_step self))
     = (length (App._defender_pending_colors self)
        - MAX_DROPS_PER_TICK)%nat
  /\ (spawn_rejects self ->
      App.cookies (App._defender_drop_step self) = App.cookies self
      /\ App.counts (App._defender_drop_step self) = App.counts self).
Proof.
  intros Hon. unfold App._defender_drop_step. rewrite Hon. cbn [negb].
  rewrite defender_drain_pending. split; [reflexivity|].
  split; [apply length_drop|]. apply defender_drain_rejected.
Qed.
End DefenderDrain.

(** ** The auto-drop accumulator *)

Section AutoDrop.
Import Props.










End AutoDrop.

(** ** Operations that keep the radii *)

Section Radii.
Import Props.
Implicit Types (c a b : CookieBody.t) (g : random.t) (self : App.t).


Lemma same_radii_trans self1 self2 self3 :
  same_radii self1 self2 -> same_radii self2 self3 -> same_radii self1 self3.
Proof. intros [H1 H2] [H3 H4]. split; congruence. Qed.

Lemma fill_ratio_radii self self' :
  same_radii self self' -> App._fill_ratio self' = App._fill_ratio self.
Proof.
  intros [Hr Hc]. unfold App._fill_ratio. rewrite Hc. f_equal.
  assert (forall cs acc,
            foldl (fun acc c => acc + PI * r c * r c) acc cs
            = foldl (fun acc u => acc + PI * u * u) acc (r <$> cs)) as Hmap.
  { induction cs as [|c cs IH]; intros acc; [reflexivity|]. simpl. apply IH. }
  rewrite !Hmap, Hr. reflexivity.
Qed.

Lemma spawn_rejects_radii self self' :
  same_radii self self' -> spawn_rejects self -> spawn_rejects self'.
Proof.
  intros Hs Hrej. unfold spawn_rejects. rewrite (fill_ratio_radii _ _ Hs).
  destruct Hs as [Hr _]. apply (f_equal length) in Hr.
  rewrite !length_fmap in Hr. rewrite Hr. exact Hrej.
Qed.









Lemma spawn_cookie_rejected color self :
  spawn_rejects self -> same_radii self (App.spawn_cookie color self).
Proof.
  intros Hrej. rewrite (spawn_cookie_reject color self Hrej).
  split; reflexivity.
Qed.

Lemma auto_spawn_one_rejected self :
  spawn_rejects self -> same_radii self (App.auto_spawn_one self).
Proof.
  intros Hrej. unfold App.auto_spawn_one.
  destruct (App.auto_random_color self).
  - destruct (random.choice COLORS (App.rng self)) as [[color|] g].
    + apply (spawn_cookie_rejected color (App.set_rng g self)). exact Hrej.
    + (split; reflexivity).
  - apply spawn_cookie_rejected. exact Hrej.
Qed.


Lemma defender_drain_radii budget self :
  spawn_rejects self -> same_radii self (App.defender_drain budget self).
Proof.
  revert self. induction budget as [|k IH]; intros self Hrej; simpl;
    [(split; reflexivity)|].
  destruct (App._defender_pending_colors self) as [|color rest];
    [(split; reflexivity)|].
  pose proof (spawn_cookie_rejected color
                (App.set_defender_pending_colors rest self) Hrej) as Hs.
  eapply same_radii_trans; [exact Hs|].
  apply IH. eapply spawn_rejects_radii; [exact Hs|exact Hrej].
Qed.


End Radii.

(** ** The Defender delta feed *)

Section DefenderFeed.
Import Props.
Implicit Types (self : App.t) (prev ids : gset string) (th : Threat).

Lemma sync_fold prev (threats : list Threat) (nc : list string) ids :
  foldl (fun (acc : list string * gset string) th =>
           let '(new_colors, current_ids) := acc in
           let rid := threat_rid th in
           let current_ids := current_ids ∪ {[ rid ]} in
           if decide (rid ∉ prev)
           then (new_colors ++ [threat_color th], current_ids)
           else (new_colors, current_ids))
        (nc, ids) threats
  = (nc ++ (threat_color <$> new_threats prev threats),
     ids ∪ snapshot_ids threats).
Proof.
  revert nc ids. induction threats as [|th threats IH]; intros nc ids.
  - simpl. rewrite app_nil_r. f_equal. unfold snapshot_ids. simpl. set_solver.
  - cbn [foldl]. unfold new_threats. rewrite filter_cons.
    destruct (decide (threat_rid th ∉ prev)) as [Hn|Hn].
    + rewrite IH. rewrite fmap_cons, <- app_assoc. simpl. f_equal.
      unfold snapshot_ids, snapshot_rids. simpl. set_solver.
    + rewrite IH. f_equal.
      unfold snapshot_ids, snapshot_rids. simpl. set_solver.
Qed.

Lemma sync_snapshot threats self :
  App._defender_pending_colors (App._defender_sync_once (Snapshot threats) self)
    = App._defender_pending_colors self
      ++ (threat_color <$> new_threats (App._defender_last_ids self) threats)
  /\ App._defender_last_ids (App._defender_sync_once (Snapshot threats) self)
    = snapshot_ids threats.
Proof.
  unfold App._defender_sync_once. rewrite sync_fold. simpl.
  destruct (threat_color <$> new_threats (App._defender_last_ids self) threats)
    as [|color colors]; simpl.
  - rewrite app_nil_r. split; [reflexivity|set_solver].
  - split; [reflexivity|set_solver].
Qed.

Lemma sync_error msg self :
  App._defender_pending_colors (App._defender_sync_once (FeedError msg) self)
    = App._defender_pending_colors self
  /\ App._defender_last_ids (App._defender_sync_once (FeedError msg) self)
    = App._defender_last_ids self.
Proof. split; reflexivity. Qed.

Lemma new_threats_rids prev (threats : list Threat) :
  snapshot_rids (new_threats prev threats)
  = filter (fun rid => rid ∉ prev) (snapshot_rids threats).
Proof.
  unfold snapshot_rids, new_threats.
  induction threats as [|th threats IH]; [reflexivity|].
  rewrite fmap_cons, !filter_cons.
  destruct (decide (threat_rid th ∉ prev));
    [rewrite fmap_cons; f_equal|]; exact IH.
Qed.

Lemma new_threats_count prev (threats : list Threat) :
  NoDup (snapshot_rids threats) ->
  prev ⊆ snapshot_ids threats ->
  (length (new_threats prev threats) + size prev
   = size (snapshot_ids threats))%nat.
Proof.
  intros Hnd Hsub.
  assert (length (new_threats prev threats)
          = size (snapshot_ids threats ∖ prev)) as ->.
  { rewrite <- (length_fmap threat_rid).
    change (threat_rid <$> new_threats prev threats)
      with (snapshot_rids (new_threats prev threats)).
    rewrite new_threats_rids.
    rewrite <- (size_list_to_set (C := gset string))
      by (apply NoDup_filter; exact Hnd).
    f_equal. unfold snapshot_ids. apply set_eq. intros rid.
    rewrite elem_of_list_to_set, list_elem_of_filter, elem_of_difference,
      elem_of_list_to_set. tauto. }
  rewrite size_difference by exact Hsub.
  pose proof (subseteq_size _ _ Hsub). lia.
Qed.

Lemma last_snapshot_ids_cons prev (threats : list Threat) snaps :
  last_snapshot_ids prev (threats :: snaps)
  = last_snapshot_ids (snapshot_ids threats) snaps.
Proof.
  unfold last_snapshot_ids. destruct snaps as [|threats' snaps]; [reflexivity|].
  rewrite last_cons_cons. destruct (last (threats' :: snaps)) eqn:Hl; [reflexivity|].
  apply last_None in Hl. discriminate.
Qed.

Lemma poll_all_cumulative snaps self :
  cumulative (App._defender_last_ids self) snaps ->
  (length (App._defender_pending_colors (poll_all (Snapshot <$> snaps) self))
   + size (App._defender_last_ids self)
   = length (App._defender_pending_colors self)
     + size (last_snapshot_ids (App._defender_last_ids self) snaps))%nat.
Proof.
  revert self. induction snaps as [|threats snaps IH]; intros self Hc.
  - reflexivity.
  - destruct Hc as (Hnd & Hsub & Hc).
    change (poll_all (Snapshot <$> threats :: snaps) self)
      with (poll_all (Snapshot <$> snaps)
              (App._defender_sync_once (Snapshot threats) self)).
    destruct (sync_snapshot threats self) as [Hp Hl].
    specialize (IH (App._defender_sync_once (Snapshot threats) self)).
    rewrite Hl, Hp, length_app, length_fmap in IH. specialize (IH Hc).
    rewrite last_snapshot_ids_cons.
    pose proof (new_threats_count _ _ Hnd Hsub). lia.
Qed.

Lemma seen_ids_cumulative prev snaps :
  cumulative prev snaps ->
  prev ∪ seen_ids (Snapshot <$> snaps) = last_snapshot_ids prev snaps.
Proof.
  revert prev. induction snaps as [|threats snaps IH]; intros prev Hc.
  - unfold seen_ids, last_snapshot_ids. simpl. set_solver.
  - destruct Hc as (_ & Hsub & Hc).
    rewrite last_snapshot_ids_cons, <- (IH _ Hc).
    unfold seen_ids. rewrite fmap_cons, fmap_cons, union_list_cons.
    set_solver.
Qed.

(** C4 (delta dedup), as the code has it.  A failed poll changes neither the
    queue nor the identifier set.  A successful poll enqueues one colour for
    each entry of the snapshot whose identifier the previous snapshot did not
    show, in order, and then replaces the identifier set by the identifiers
    of this snapshot: an identifier of the previous snapshot never enqueues.
    For a cumulative feed without repeated entries, started from an empty
    identifier set, the number of enqueued requests is the number of distinct
    identifiers shown. *)
Theorem C4_delta_dedup self :
  (forall msg,
     App._defender_pending_colors (App._defender_sync_once (FeedError msg) self)
       = App._defender_pending_colors self
     /\ App._defender_last_ids (App._defender_sync_once (FeedError msg) self)
       = App._defender_last_ids self)
  /\ (forall threats,
       App._defender_pending_colors
         (App._defender_sync_once (Snapshot threats) self)
         = App._defender_pending_colors self
           ++ (threat_color <$> new_threats (App._defender_last_ids self) threats)
       /\ App._defender_last_ids
           (App._defender_sync_once (Snapshot threats) self)
         = snapshot_ids threats)
  /\ (forall threats th,
       threat_rid th ∈ App._defender_last_ids self ->
       th ∉ new_threats (App._defender_last_ids self) threats)
  /\ (forall snaps,
       App._defender_last_ids self = ∅ ->
       cumulative ∅ snaps ->
       length (App._defender_pending_colors (poll_all (Snapshot <$> snaps) self))
       = (length (App._defender_pending_colors self)
          + size (seen_ids (Snapshot <$> snaps)))%nat).
Proof.
  repeat apply conj.
  - intros msg. apply sync_error.
  - intros threats. apply sync_snapshot.
  - intros threats th Hin Hnew. unfold new_threats in Hnew.
    apply list_elem_of_filter in Hnew as [Hnot _]. contradiction.
  - intros snaps Hempty Hc.
    pose proof (poll_all_cumulative snaps self) as Hrun.
    rewrite Hempty in Hrun. specialize (Hrun Hc).
    rewrite <- (seen_ids_cumulative _ _ Hc) in Hrun.
    rewrite size_empty, union_empty_l_L in Hrun. lia.
Qed.
End DefenderFeed.

Section DefenderFeedSamples.
Import Props Samples.

(** A cumulative feed: first A, then A and B, then A, B and C. *)
Lemma C4_delta_dedup_witness :
  length (App._defender_pending_colors
            (poll_all (Snapshot <$> [[thA]; [thA; thB]; [thA; thB; thC]]) app0))
  = (length (App._defender_pending_colors app0)
     + size (seen_ids (Snapshot <$> [[thA]; [thA; thB]; [thA; thB; thC]])))%nat.
Proof.
  apply (proj2 (proj2 (proj2 (C4_delta_dedup app0)))).
  - reflexivity.
  - simpl. repeat split; compute_done.
Defined.

(** The polls [A], [B], [A], [C] enqueue four requests for three distinct
    identifiers: when A comes back, the identifier set holds only B. *)
Lemma poll_ABAC self :
  App._defender_last_ids self = ∅ ->
  App._defender_pending_colors self = [] ->
  App._defender_pending_colors
    (poll_all [Snapshot [thA]; Snapshot [thB]; Snapshot [thA]; Snapshot [thC]]
              self)
  = ["red"; "orange"; "red"; "yellow"]%string.
Proof.
  intros Hl Hp. unfold poll_all. cbn [foldl].
  set (s1 := App._defender_sync_once (Snapshot [thA]) self).
  set (s2 := App._defender_sync_once (Snapshot [thB]) s1).
  set (s3 := App._defender_sync_once (Snapshot [thA]) s2).
  destruct (sync_snapshot [thA] self) as [P1 L1]. fold s1 in P1, L1.
  destruct (sync_snapshot [thB] s1) as [P2 L2]. fold s2 in P2, L2.
  destruct (sync_snapshot [thA] s2) as [P3 L3]. fold s3 in P3, L3.
  destruct (sync_snapshot [thC] s3) as [P4 _].
  rewrite P4, L3, P3, L2, P2, L1, P1, Hl, Hp.
  vm_compute. reflexivity.
Qed.

Lemma C4_counterexample :
  let feeds := [Snapshot [thA]; Snapshot [thB]; Snapshot [thA]; Snapshot [thC]] in
  App._defender_last_ids app0 = ∅
  /\ App._defender_pending_colors app0 = []
  /\ size (seen_ids feeds) = 3%nat
  /\ length (App._defender_pending_colors (poll_all feeds app0)) = 4%nat
  /\ length (App._defender_pending_colors (poll_all feeds app0))
     <> size (seen_ids feeds).
Proof.
  cbv zeta.
  assert (size (seen_ids [Snapshot [thA]; Snapshot [thB]; Snapshot [thA];
                          Snapshot [thC]]) = 3%nat) as Hs by (vm_compute; reflexivity).
  rewrite (poll_ABAC app0 eq_refl eq_refl), Hs. simpl. repeat split. lia.
Qed.
End DefenderFeedSamples.

(** ** The bowl boundary *)

Section Boundary.
Import Props.
Implicit Types (col : EllipseBowlCollider.t) (c : CookieBody.t).

Lemma shrunk_a_pos col c : 5 <= shrunk_a col c.
Proof. apply Rmax_l. Qed.

Lemma shrunk_b_pos col c : 5 <= shrunk_b col c.
Proof. apply Rmax_l. Qed.

Lemma hypot_sqr u v : hypot u v * hypot u v = u * u + v * v.
Proof. unfold hypot. apply sqrt_sqrt. nra. Qed.

Lemma hypot_nonneg u v : 0 <= hypot u v.
Proof. unfold hypot. apply sqrt_pos. Qed.

(** The projection of an outside point lies on the shrunk ellipse. *)
Lemma projected_on_ellipse col c :
  quad col c (x c) (y c) > 1 ->
  quad col c (projected col c).1 (projected col c).2 = 1.
Proof.
  intros Hout. unfold projected. simpl.
  set (q := quad col c (x c) (y c)) in *.
  assert (sqrt q * sqrt q = q) as Hsq by (apply sqrt_sqrt; lra).
  assert (0 < sqrt q) as Hs by (apply sqrt_lt_R0; lra).
  pose proof (shrunk_a_pos col c) as Ha. pose proof (shrunk_b_pos col c) as Hb.
  assert (q = (x c - EllipseBowlCollider.cx col) / shrunk_a col c
              * ((x c - EllipseBowlCollider.cx col) / shrunk_a col c)
              + (y c - EllipseBowlCollider.cy col) / shrunk_b col c
                * ((y c - EllipseBowlCollider.cy col) / shrunk_b col c)) as Hq
    by reflexivity.
  unfold quad. cbv zeta.
  set (A := shrunk_a col c) in *. set (B := shrunk_b col c) in *.
  set (dx := x c - EllipseBowlCollider.cx col) in *.
  set (dy := y c - EllipseBowlCollider.cy col) in *.
  replace (EllipseBowlCollider.cx col + dx / sqrt q - EllipseBowlCollider.cx col)
    with (dx / sqrt q) by lra.
  replace (EllipseBowlCollider.cy col + dy / sqrt q - EllipseBowlCollider.cy col)
    with (dy / sqrt q) by lra.
  transitivity (q / (sqrt q * sqrt q)).
  - clearbody q.
    replace (q / (sqrt q * sqrt q))
      with ((dx / A * (dx / A) + dy / B * (dy / B)) / (sqrt q * sqrt q))
      by (rewrite <- Hq; reflexivity).
    field. repeat split; lra.
  - rewrite Hsq. field. lra.
Qed.

(** What [collide_cookie] does to a body outside the shrunk ellipse and
    below the funnel zone, when the gradient is not degenerate. *)
Lemma collide_cookie_outside col c :
  ~ in_funnel col c ->
  quad col c (x c) (y c) > 1 ->
  ~ grad_len col c < 1e-9 ->
  let c' := EllipseBowlCollider.collide_cookie col c in
  y c' = (projected col c).2
  /\ x c' = (if decide ((projected col c).2 < EllipseBowlCollider.rim_y col + r c)
             then EllipseBowlCollider.opening_clamp_x col (projected col c).1 (r c)
             else (projected col c).1)
  /\ vx c' = (reflected col c).1 * 0.99
  /\ vy c' = (reflected col c).2 * 0.995
  /\ r c' = r c /\ asleep c' = asleep c.
Proof.
  intros Hf Hout Hn c'. subst c'.
  unfold EllipseBowlCollider.collide_cookie.
  unfold in_funnel in Hf.
  rewrite (decide_False (P := y c < _)) by exact Hf.
  unfold projected, reflected, normal, grad_len, grad, quad, shrunk_a, shrunk_b
    in *.
  cbv zeta in *. cbn [fst snd] in *.
  match type of Hout with ?q > 1 => set (s2 := q) in * end.
  match type of Hn with ~ ?n < _ => set (nlen := n) in * end.
  rewrite (decide_False (P := s2 <= 1)) by lra.
  rewrite (decide_True (P := s2 > 1e-12)) by lra.
  rewrite (decide_False (P := nlen < 1e-9)) by exact Hn.
  cbn [y x r vx vy asleep set_x set_y set_vx set_vy].
  case_decide; cbn [y x r vx vy asleep set_x set_y set_vx set_vy];
    repeat split; reflexivity.
Qed.

(** Where [collide_cookie] leaves the centre, branch by branch. *)
Lemma collide_cookie_position col c :
  let c' := EllipseBowlCollider.collide_cookie col c in
  r c' = r c
  /\ (in_funnel col c -> y c' = y c)
  /\ (~ in_funnel col c -> quad col c (x c) (y c) <= 1 ->
      y c' = y c
      /\ (~ y c < EllipseBowlCollider.rim_y col + r c -> x c' = x c))
  /\ (~ in_funnel col c -> quad col c (x c) (y c) > 1 ->
      y c' = (projected col c).2
      /\ (~ (projected col c).2 < EllipseBowlCollider.rim_y col + r c ->
          x c' = (projected col c).1)).
Proof.
  unfold EllipseBowlCollider.collide_cookie, in_funnel, projected, quad,
    shrunk_a, shrunk_b.
  cbv zeta. cbn [fst snd].
  set (s2 := (x c - EllipseBowlCollider.cx col)
               / Rmax 5 (EllipseBowlCollider.a col - r c)
             * ((x c - EllipseBowlCollider.cx col)
                / Rmax 5 (EllipseBowlCollider.a col - r c))
             + (y c - EllipseBowlCollider.cy col)
               / Rmax 5 (EllipseBowlCollider.b col - r c)
               * ((y c - EllipseBowlCollider.cy col)
                  / Rmax 5 (EllipseBowlCollider.b col - r c))).
  destruct (decide (y c < EllipseBowlCollider.rim_y col - r c * 0.6)) as [Hf|Hf].
  { cbn [r y set_x]. repeat split; intros; try reflexivity; contradiction. }
  destruct (decide (s2 <= 1)) as [Hin|Hout].
  { destruct (decide (y c < EllipseBowlCollider.rim_y col + r c)) as [Hr|Hr];
      cbn [r x y set_x]; repeat split; intros;
      try reflexivity; try contradiction; lra. }
  rewrite (decide_True (P := s2 > 1e-12)) by lra.
  destruct (decide (hypot _ _ < 1e-9)) as [Hn|Hn];
    cbn [r x y vx vy set_x set_y set_vx set_vy].
  { repeat split; intros; try reflexivity; try contradiction; lra. }
  destruct (decide (_ < _)) as [Hr|Hr];
    cbn [r x y vx vy set_x set_y set_vx set_vy];
    repeat split; intros; try reflexivity; try contradiction; lra.
Qed.

Lemma quad_bound_y col c px py :
  quad col c px py <= 1 -> EllipseBowlCollider.cy col - shrunk_b col c <= py.
Proof.
  unfold quad. cbv zeta. intros Hq.
  pose proof (shrunk_b_pos col c) as HB.
  set (B := shrunk_b col c) in *.
  set (ex := (px - EllipseBowlCollider.cx col) / shrunk_a col c) in *.
  assert (py - EllipseBowlCollider.cy col
          = (py - EllipseBowlCollider.cy col) / B * B) as Hey by (field; lra).
  set (ey := (py - EllipseBowlCollider.cy col) / B) in *.
  assert (-1 <= ey) by nra.
  nra.
Qed.

Lemma quad_radius col c1 c2 px py :
  r c1 = r c2 -> quad col c1 px py = quad col c2 px py.
Proof. intros Hr. unfold quad, shrunk_a, shrunk_b. rewrite Hr. reflexivity. Qed.

(** Over the reals the boundary collision leaves a body in the funnel zone
    or within the shrunk ellipse, in a bowl whose rim line lies a body's
    radius or more above the top of the shrunk ellipse. *)
Lemma collide_cookie_contained col c :
  EllipseBowlCollider.rim_y col + r c
    <= EllipseBowlCollider.cy col - shrunk_b col c ->
  let c' := EllipseBowlCollider.collide_cookie col c in
  in_funnel col c' \/ contained col c'.
Proof.
  intros Hrim c'.
  destruct (collide_cookie_position col c) as (Hr & Hfun & Hin & Hout).
  fold c' in Hr, Hfun, Hin, Hout.
  destruct (decide (in_funnel col c)) as [Hf|Hf].
  - left. unfold in_funnel in *. rewrite (Hfun Hf), Hr. exact Hf.
  - right. unfold contained. rewrite (quad_radius col c' c _ _ Hr).
    destruct (decide (quad col c (x c) (y c) <= 1)) as [Hq|Hq].
    + destruct (Hin Hf Hq) as [Hy Hx].
      pose proof (quad_bound_y col c _ _ Hq) as Hb.
      rewrite Hy, Hx by lra. exact Hq.
    + assert (quad col c (x c) (y c) > 1) as Hgt by lra.
      destruct (Hout Hf Hgt) as [Hy Hx].
      pose proof (projected_on_ellipse col c Hgt) as Hp.
      assert (quad col c (projected col c).1 (projected col c).2 <= 1) as Hle by lra.
      pose proof (quad_bound_y col c _ _ Hle) as Hb.
      rewrite Hy, Hx by lra. lra.
Qed.

(** C3 (containment), as the code has it.  In a bowl whose rim line lies
    more than a body's radius above the top of the shrunk ellipse (as it does
    in the application's bowl), the boundary collision of a substep leaves the
    body either in the funnel zone or within the shrunk ellipse, up to
    rounding: its height is below the funnel line plus 1e-9, or the
    quadratic form of the shrunk ellipse at its centre is at most 1 + 1e-9.
    (The projection onto the ellipse is exact over the reals only.)  Nothing
    is promised after the contact resolution that follows in the same
    substep. *)
Theorem C3_containment col c :
  EllipseBowlCollider.rim_y col + r c + 1e-6
    <= EllipseBowlCollider.cy col - shrunk_b col c ->
  let c' := EllipseBowlCollider.collide_cookie col c in
  in_funnel_within 1e-9 col c' \/ contained_within 1e-9 col c'.
Proof.
  intros Hrim c'.
  destruct (collide_cookie_contained col c) as [Hf|Hq]; [lra| |].
  - left. unfold in_funnel_within, in_funnel in *. fold c' in Hf. lra.
  - right. unfold contained_within, contained in *. fold c' in Hq. lra.
Qed.

Lemma normal_unit col c :
  ~ grad_len col c < 1e-9 ->
  (normal col c).1 * (normal col c).1 + (normal col c).2 * (normal col c).2 = 1.
Proof.
  intros Hn. unfold normal. cbn [fst snd].
  pose proof (hypot_sqr (grad col c).1 (grad col c).2) as Hsq.
  fold (grad_len col c) in Hsq.
  set (n := grad_len col c) in *. set (gx := (grad col c).1) in *.
  set (gy := (grad col c).2) in *.
  assert (0 < n) as Hpos by lra.
  transitivity ((gx * gx + gy * gy) / (n * n)).
  - field. lra.
  - rewrite <- Hsq. field. lra.
Qed.

(** C5 (boundary reflection), as the code has it.  A body outside the shrunk
    ellipse and below the funnel zone, whose gradient is not degenerate, is
    put at the projection of its centre onto the shrunk ellipse along the ray
    from the bowl's centre (and its [x] is clamped to the opening if that
    point is within one radius of the rim line); the normal is a unit vector;
    the normal component of the velocity is reversed and scaled by
    [BOWL_RESTITUTION] while the tangential component is kept; then [vx] is
    scaled by 0.99 and [vy] by 0.995. *)
Theorem C5_boundary_reflection col c :
  ~ in_funnel col c ->
  quad col c (x c) (y c) > 1 ->
  ~ grad_len col c < 1e-9 ->
  let c' := EllipseBowlCollider.collide_cookie col c in
  let n := normal col c in
  let v := reflected col c in
  y c' = (projected col c).2
  /\ x c' = (if decide ((projected col c).2 < EllipseBowlCollider.rim_y col + r c)
             then EllipseBowlCollider.opening_clamp_x col (projected col c).1 (r c)
             else (projected col c).1)
  /\ quad col c (projected col c).1 (projected col c).2 = 1
  /\ n.1 * n.1 + n.2 * n.2 = 1
  /\ v.1 * n.1 + v.2 * n.2 = - BOWL_RESTITUTION * (vx c * n.1 + vy c * n.2)
  /\ v.1 * n.2 - v.2 * n.1 = vx c * n.2 - vy c * n.1
  /\ vx c' = 0.99 * v.1
  /\ vy c' = 0.995 * v.2.
Proof.
  intros Hf Hout Hn c' n v.
  destruct (collide_cookie_outside col c Hf Hout Hn) as (Hy & Hx & Hvx & Hvy & _).
  pose proof (normal_unit col c Hn) as Hunit. fold n in Hunit.
  assert (v = (vx c - (1 + BOWL_RESTITUTION) * (vx c * n.1 + vy c * n.2) * n.1,
               vy c - (1 + BOWL_RESTITUTION) * (vx c * n.1 + vy c * n.2) * n.2))
    as Hv.
  { subst v. unfold reflected. fold n. destruct n as [nx ny]. reflexivity. }
  fold c' v in Hvx, Hvy. fold c' in Hy, Hx.
  pose proof (projected_on_ellipse col c Hout) as Hproj.
  clearbody c' v n. subst v. destruct n as [nx ny]. cbn [fst snd] in *.
  split; [exact Hy|]. split; [exact Hx|]. split; [exact Hproj|].
  split; [exact Hunit|]. split; [|split; [ring|split; lra]].
  transitivity ((vx c * nx + vy c * ny)
                - (1 + BOWL_RESTITUTION) * (vx c * nx + vy c * ny)
                  * (nx * nx + ny * ny)); [ring|].
  rewrite Hunit. ring.
Qed.
End Boundary.

(** ** The bowl of the application *)

Section AppBowl.
Import Props Samples.

Lemma bowl_geometry :
  EllipseBowlCollider.cx bowl = 395.2
  /\ EllipseBowlCollider.cy bowl = 348.4
  /\ EllipseBowlCollider.a bowl = 178.6
  /\ EllipseBowlCollider.b bowl = 153.4
  /\ EllipseBowlCollider.rim_y bowl = 156
  /\ EllipseBowlCollider._rim_left bowl = 386.27
  /\ EllipseBowlCollider._rim_right bowl = 404.13.
Proof.
  unfold bowl, EllipseBowlCollider._recalc_area.
  cbn [EllipseBowlCollider.cx EllipseBowlCollider.cy EllipseBowlCollider.a
       EllipseBowlCollider.b EllipseBowlCollider.rim_y
       EllipseBowlCollider._rim_left EllipseBowlCollider._rim_right].
  unfold EllipseBowlCollider._recalc_rim.
  cbn [EllipseBowlCollider.cx EllipseBowlCollider.cy EllipseBowlCollider.a
       EllipseBowlCollider.b EllipseBowlCollider.rim_y].
  case_decide as Ht.
  - cbn. repeat split; lra.
  - exfalso. apply Ht.
    replace (520 * 0.295 * (520 * 0.295)) with 23531.56 by lra.
    lra.
Qed.

Lemma app0_init : App.init 0 halves = Some app0.
Proof.
  unfold App.init, EllipseBowlCollider.init.
  case_decide as Hz; [exfalso; destruct Hz; lra|]. reflexivity.
Qed.

Lemma hypot_0_l v : 0 <= v -> hypot 0 v = v.
Proof.
  intros Hv. unfold hypot. replace (0 * 0 + v * v) with (v * v) by ring.
  apply sqrt_square, Hv.
Qed.

(** [far_below] against the bowl: twice the shrunk semi-axis below the
    centre, so the form is 4, the normal points straight down and the
    reflected velocity is (100, -45). *)
Lemma far_below_facts :
  ~ in_funnel bowl far_below
  /\ quad bowl far_below (x far_below) (y far_below) = 4
  /\ grad_len bowl far_below = 2 / 138.4
  /\ normal bowl far_below = (0, 1)
  /\ reflected bowl far_below = (100, -45)
  /\ projected bowl far_below = (395.2, 486.8).
Proof.
  destruct bowl_geometry as (Hcx & Hcy & Ha & Hb & Hrim & _).
  assert (shrunk_a bowl far_below = 163.6) as HA.
  { unfold shrunk_a. rewrite Ha. cbn [r far_below]. rewrite Rmax_right; lra. }
  assert (shrunk_b bowl far_below = 138.4) as HB.
  { unfold shrunk_b. rewrite Hb. cbn [r far_below]. rewrite Rmax_right; lra. }
  assert (quad bowl far_below (x far_below) (y far_below) = 4) as Hq.
  { unfold quad. rewrite HA, HB, Hcx, Hcy. cbn [x y far_below]. lra. }
  assert (grad bowl far_below = (0, 2 / 138.4)) as Hg.
  { unfold grad. rewrite HA, HB, Hcx, Hcy. cbn [x y far_below].
    f_equal; lra. }
  assert (grad_len bowl far_below = 2 / 138.4) as Hl.
  { unfold grad_len. rewrite Hg. cbn [fst snd]. apply hypot_0_l. lra. }
  assert (normal bowl far_below = (0, 1)) as Hnrm.
  { unfold normal. rewrite Hl, Hg. cbn [fst snd]. f_equal; lra. }
  split; [unfold in_funnel; rewrite Hrim; cbn [y r far_below]; lra|].
  split; [exact Hq|]. split; [exact Hl|]. split; [exact Hnrm|]. split.
  - unfold reflected. rewrite Hnrm. cbn [vx vy far_below].
    unfold BOWL_RESTITUTION. f_equal; lra.
  - unfold projected. rewrite Hq, Hcx, Hcy. cbn [x y far_below].
    replace 4 with (2 * 2) by lra. rewrite sqrt_square by lra.
    f_equal; lra.
Qed.

Lemma C5_boundary_reflection_witness :
  vx (EllipseBowlCollider.collide_cookie bowl far_below) = 0.99 * 100
  /\ vy (EllipseBowlCollider.collide_cookie bowl far_below) = 0.995 * -45
  /\ y (EllipseBowlCollider.collide_cookie bowl far_below) = 486.8.
Proof.
  destruct far_below_facts as (Hf & Hq & Hl & Hn & Hr & Hp).
  destruct (C5_boundary_reflection bowl far_below) as (Hy & _ & _ & _ & _ & _ & Hvx & Hvy).
  - exact Hf.
  - rewrite Hq. lra.
  - rewrite Hl. lra.
  - rewrite Hr in Hvx, Hvy. rewrite Hp in Hy. auto.
Defined.

(** The specification's single damping factor does not exist: the reflected
    velocity (100, -45) becomes (99, -44.775), that is 0.99 on [vx] and
    0.995 on [vy]. *)
Lemma C5_counterexample :
  ~ in_funnel bowl far_below
  /\ quad bowl far_below (x far_below) (y far_below) > 1
  /\ ~ uniformly_damped_reflection bowl far_below
        (EllipseBowlCollider.collide_cookie bowl far_below).
Proof.
  destruct far_below_facts as (Hf & Hq & Hl & Hn & Hr & Hp).
  split; [exact Hf|]. split; [rewrite Hq; lra|].
  destruct (collide_cookie_outside bowl far_below) as (_ & _ & Hvx & Hvy & _).
  - exact Hf.
  - rewrite Hq. lra.
  - rewrite Hl. lra.
  - rewrite Hr in Hvx, Hvy. cbn [fst snd] in Hvx, Hvy.
    intros (_ & k & Hkx & Hky). rewrite Hr in Hkx, Hky. cbn [fst snd] in Hkx, Hky.
    lra.
Qed.
End AppBowl.

(** ** A step on two sleeping bodies in contact *)

Section SleepingPair.
Import Props Samples.
Implicit Types (a b : CookieBody.t) (g : random.t) (self : App.t).

#[local] Arguments App._resolve_circle_collision : simpl never.
#[local] Arguments App.step_cookie : simpl never.
#[local] Arguments App.sleep_update : simpl never.

Lemma step_cookie_asleep self sub_dt c :
  asleep c = true ->
  underwater c = bool_decide (y c >= App.water_y self) ->
  App.step_cookie self sub_dt c = c.
Proof.
  intros Hs Hu. unfold App.step_cookie, App._apply_underwater_mode.
  rewrite decide_True by (symmetry; exact Hu). rewrite Hs. reflexivity.
Qed.

Lemma sleep_update_asleep self c :
  asleep c = true -> App.sleep_update self c = c.
Proof. intros Hs. unfold App.sleep_update. rewrite Hs. reflexivity. Qed.

Lemma collision_pass_pair a b g :
  App.collision_pass ([a; b], g)
  = '(a', b', g') ← App._resolve_circle_collision a b g; Some ([a'; b'], g').
Proof.
  unfold App.collision_pass. simpl.
  destruct (App._resolve_circle_collision a b g) as [[[a' b'] g']|]; reflexivity.
Qed.

(** A substep on two sleeping bodies whose first collision pass maps
    [a, b] to [a', b'] and whose later passes find no contact. *)
Lemma substep_sleeping_pair self sub_dt a b a' b' :
  App.cookies self = [a; b] ->
  App.step_cookie self sub_dt a = a ->
  App.step_cookie self sub_dt b = b ->
  (forall g, App._resolve_circle_collision a b g = Some (a', b', g)) ->
  (forall g, App._resolve_circle_collision a' b' g = Some (a', b', g)) ->
  App.substep sub_dt self
  = Some (App.set_rng (App.rng self)
            (App.set_cookies [a'; b'] (App.set_cookies [a; b] self))).
Proof.
  intros Hc Ha Hb Hr1 Hr2. unfold App.substep.
  cbn [App.cookies App.rng App.set_cookies]. rewrite Hc.
  cbn [fmap list_fmap]. rewrite Ha, Hb.
  unfold COLLISION_PASSES. cbn [seq foldl].
  cbn [mbind option_bind]. rewrite collision_pass_pair, Hr1.
  cbn [mbind option_bind]. rewrite collision_pass_pair, Hr2.
  reflexivity.
Qed.

Lemma resolve_pile g :
  App._resolve_circle_collision neighbour at_wall g
  = Some (neighbour', at_wall', g).
Proof.
  unfold App._resolve_circle_collision, App.contact_delta.
  cbn [x y r vx vy asleep neighbour at_wall].
  rewrite (decide_False (P := _ <= 1e-9)) by lra.
  rewrite (decide_False (P := _ >= _)) by lra.
  assert (sqrt ((558.8 - 529.2) * (558.8 - 529.2)
                + (348.4 - 348.4) * (348.4 - 348.4)) = 29.6) as Hs.
  { replace ((558.8 - 529.2) * (558.8 - 529.2)
             + (348.4 - 348.4) * (348.4 - 348.4)) with (29.6 * 29.6) by lra.
    apply sqrt_square. lra. }
  rewrite py_sqrt_some by lra. cbn [mbind option_bind]. rewrite Hs.
  rewrite !py_div_some by lra. cbn [mbind option_bind andb negb].
  rewrite (decide_False (P := _ > 0.6)) by lra.
  cbv beta iota zeta.
  cbn [x y r vx vy asleep set_x set_y neighbour at_wall].
  rewrite (decide_False (P := _ > 0)) by lra.
  rewrite py_div_some by lra. cbn [mbind option_bind negb asleep].
  unfold neighbour', at_wall', set_x, set_y.
  cbn [x y r vx vy asleep color_name item_id shadow_id highlight_id
       sleep_counter underwater wobble_phase wobble_freq].
  repeat f_equal; lra.
Qed.

Lemma resolve_pile' g :
  App._resolve_circle_collision neighbour' at_wall' g
  = Some (neighbour', at_wall', g).
Proof.
  unfold App._resolve_circle_collision, App.contact_delta.
  cbn [x y r neighbour' at_wall'].
  rewrite (decide_False (P := _ <= 1e-9)) by lra.
  rewrite (decide_True (P := _ >= _)) by lra. reflexivity.
Qed.

Lemma pile_under_water c :
  y c = 348.4 -> underwater c = true ->
  underwater c = bool_decide (y c >= App.water_y pile).
Proof.
  intros Hy Hu. rewrite Hu, Hy. symmetry. apply bool_decide_eq_true_2.
  cbn [App.water_y pile app0 App.set_cookies]. lra.
Qed.

(** [_step] on the pile: the first collision pass pushes both sleepers 0.2
    apart, everything after that leaves them alone. *)
Lemma step_pile dt :
  exists self',
    App._step dt pile = Some self'
    /\ App.cookies self' = [neighbour'; at_wall']
    /\ App.collider self' = bowl.
Proof.
  unfold App._step, SUBSTEPS. cbn [seq foldl mbind option_bind].
  rewrite (substep_sleeping_pair pile _ neighbour at_wall neighbour' at_wall');
    try reflexivity; try (intros; apply resolve_pile || apply resolve_pile');
    try (apply step_cookie_asleep; [reflexivity|apply pile_under_water; reflexivity]).
  cbn [mbind option_bind].
  rewrite (substep_sleeping_pair _ _ neighbour' at_wall' neighbour' at_wall');
    try reflexivity; try (intros; apply resolve_pile');
    try (apply step_cookie_asleep; [reflexivity|apply pile_under_water; reflexivity]).
  cbn [mbind option_bind]. eexists. split; [reflexivity|].
  cbn [App.cookies App.collider App.set_cookies App.set_rng fmap list_fmap].
  rewrite !sleep_update_asleep by reflexivity. split; reflexivity.
Qed.

(** Containment fails after a step: from a state where every body passes
    the containment test and every sleeper is at rest, [_step] ends with
    [at_wall] 0.2 beyond the shrunk ellipse and far below the funnel zone. *)
Lemma C3_counterexample :
  containment pile
  /\ sleep_inv_all pile
  /\ exists self',
       App._step (1 / 60) pile = Some self'
       /\ ~ containment self'.
Proof.
  destruct bowl_geometry as (Hcx & Hcy & Ha & Hb & Hrim & _).
  assert (forall c, r c = 15 -> shrunk_a bowl c = 163.6) as HA.
  { intros c Hr. unfold shrunk_a. rewrite Ha, Hr. rewrite Rmax_right; lra. }
  assert (forall c, r c = 15 -> shrunk_b bowl c = 138.4) as HB.
  { intros c Hr. unfold shrunk_b. rewrite Hb, Hr. rewrite Rmax_right; lra. }
  split; [|split].
  - unfold containment. cbn [App.cookies App.collider pile app0 App.set_cookies].
    apply Forall_cons_2; [|apply Forall_cons_2; [|apply Forall_nil_2]];
      right; unfold contained, quad;
      rewrite HA, HB, Hcx, Hcy by reflexivity;
      cbn [x y neighbour at_wall]; lra.
  - unfold sleep_inv_all. cbn [App.cookies pile App.set_cookies].
    apply Forall_cons_2; [|apply Forall_cons_2; [|apply Forall_nil_2]];
      intros _; split; reflexivity.
  - destruct (step_pile (1 / 60)) as (self' & Hstep & Hc & Hcol).
    exists self'. split; [exact Hstep|].
    unfold containment. rewrite Hc, Hcol. intros Hall.
    apply Forall_cons in Hall as [_ Hall].
    apply Forall_cons in Hall as [[Hf|Hin] _].
    + unfold in_funnel in Hf. rewrite Hrim in Hf.
      cbn [y r at_wall'] in Hf. lra.
    + unfold contained, quad in Hin.
      rewrite HA, HB, Hcx, Hcy in Hin by reflexivity.
      cbn [x y at_wall'] in Hin. lra.
Qed.
End SleepingPair.

(** ** The sampled bowl area and a full bowl *)

Section FullBowl.
Import Props Samples.

Lemma count_fold_le (f : nat -> bool) (l : list nat) (acc : nat) :
  (foldl (fun acc i => if f i then S acc else acc) acc l <= acc + length l)%nat.
Proof.
  revert acc. induction l as [|i l IH]; intros acc; simpl; [lia|].
  specialize (IH (if f i then S acc else acc)). destruct (f i); lia.
Qed.

Lemma grid_fold_le (f : nat -> nat -> bool) (lx ly : list nat) (acc : nat) :
  (foldl (fun acc iy => foldl (fun acc ix => if f iy ix then S acc else acc)
                              acc lx) acc ly
   <= acc + length ly * length lx)%nat.
Proof.
  revert acc. induction ly as [|iy ly IH]; intros acc; simpl; [lia|].
  specialize (IH (foldl (fun acc ix => if f iy ix then S acc else acc) acc lx)).
  pose proof (count_fold_le (f iy) lx acc). lia.
Qed.

(** The sampled area is at least 1 and at most the sampled rectangle. *)
Lemma recalc_area_bounds col :
  0 <= EllipseBowlCollider.a col ->
  EllipseBowlCollider.rim_y col
    <= EllipseBowlCollider.cy col + EllipseBowlCollider.b col ->
  1 <= EllipseBowlCollider.bowl_area (EllipseBowlCollider._recalc_area col)
  /\ EllipseBowlCollider.bowl_area (EllipseBowlCollider._recalc_area col)
     <= Rmax 1 (2 * EllipseBowlCollider.a col
                * (EllipseBowlCollider.cy col + EllipseBowlCollider.b col
                   - EllipseBowlCollider.rim_y col)).
Proof.
  intros Ha Hrim.
  unfold EllipseBowlCollider.bowl_area, EllipseBowlCollider._recalc_area.
  cbn [EllipseBowlCollider._bowl_area].
  split; [apply Rmax_l|].
  match goal with
  | |- context [INR (foldl ?F 0%nat (seq 0 180))] =>
      set (inside := foldl F 0%nat (seq 0 180))
  end.
  assert (inside <= 140 * 180)%nat as Hin.
  { pose proof (grid_fold_le
                  (fun iy ix =>
                     EllipseBowlCollider.is_inside_point col
                       (EllipseBowlCollider.cx col - EllipseBowlCollider.a col
                        + (INR ix + 0.5)
                          * ((EllipseBowlCollider.cx col + EllipseBowlCollider.a col
                              - (EllipseBowlCollider.cx col - EllipseBowlCollider.a col))
                             / INR 140))
                       (EllipseBowlCollider.rim_y col
                        + (INR iy + 0.5)
                          * ((EllipseBowlCollider.cy col + EllipseBowlCollider.b col
                              - EllipseBowlCollider.rim_y col) / INR 180)))
                  (seq 0 140) (seq 0 180) 0%nat) as Hle.
    rewrite !length_seq in Hle. subst inside. lia. }
  assert (0 < INR (140 * 180)) as Htot by (apply lt_0_INR; lia).
  assert (0 <= INR inside / INR (140 * 180) <= 1) as [Hlo Hhi].
  { split.
    - apply Rle_mult_inv_pos; [apply pos_INR|exact Htot].
    - apply (Rmult_le_reg_r (INR (140 * 180))); [exact Htot|].
      unfold Rdiv. rewrite Rmult_assoc, Rinv_l by lra.
      rewrite Rmult_1_r, Rmult_1_l. apply le_INR. exact Hin. }
  apply Rmax_lub; [apply Rmax_l|].
  etransitivity; [|apply Rmax_r].
  set (q := INR inside / INR (140 * 180)) in *.
  set (W := 2 * EllipseBowlCollider.a col).
  set (H := EllipseBowlCollider.cy col + EllipseBowlCollider.b col
            - EllipseBowlCollider.rim_y col).
  assert (0 <= W * H) as HWH by (apply Rmult_le_pos; unfold W, H; lra).
  replace (EllipseBowlCollider.cx col + EllipseBowlCollider.a col
           - (EllipseBowlCollider.cx col - EllipseBowlCollider.a col))
    with W by (unfold W; ring).
  clearbody W H q. nra.
Qed.

Lemma bowl_area_bounds :
  1 <= EllipseBowlCollider.bowl_area bowl <= 123519.76.
Proof.
  unfold bowl.
  destruct (recalc_area_bounds
              (EllipseBowlCollider._recalc_rim
                 (EllipseBowlCollider.mk
                    (760 * 0.52) (520 * 0.67) (760 * 0.235) (520 * 0.295)
                    (520 * 0.30) (760 * 0.52 - 760 * 0.235 * 0.3)
                    (760 * 0.52 + 760 * 0.235 * 0.3) 1))) as [Hlo Hhi].
  - unfold EllipseBowlCollider._recalc_rim. case_decide; cbn; lra.
  - unfold EllipseBowlCollider._recalc_rim. case_decide; cbn; lra.
  - split; [exact Hlo|]. etransitivity; [exact Hhi|].
    unfold EllipseBowlCollider._recalc_rim. case_decide; cbn;
      apply Rmax_lub; lra.
Qed.

Lemma fill_replicate (n : nat) (c : CookieBody.t) (acc : R) :
  foldl (fun acc c => acc + PI * r c * r c) acc (replicate n c)
  = acc + INR n * (PI * r c * r c).
Proof.
  revert acc. induction n as [|n IH]; intros acc.
  - simpl. lra.
  - cbn [replicate foldl]. rewrite IH, S_INR. lra.
Qed.

Lemma full_hard_stopped : App._fill_ratio full >= HARD_STOP_AT.
Proof.
  unfold App._fill_ratio.
  cbn [App.cookies App.collider full app0 App.set_cookies
       App.set_defender_pending_colors].
  rewrite fill_replicate. cbn [r big].
  destruct bowl_area_bounds as [Hlo Hhi].
  rewrite Rmax_right by exact Hlo.
  set (A := EllipseBowlCollider.bowl_area bowl) in *.
  assert (3 < PI) as Hpi.
  { pose proof PI2_3_2. lra. }
  replace (INR 140) with 140 by (simpl; lra).
  unfold HARD_STOP_AT. apply Rle_ge.
  apply (Rmult_le_reg_r A); [lra|].
  unfold Rdiv. rewrite Rmult_assoc, Rinv_l by lra. nra.
Qed.
End FullBowl.

(** ** The theorems at concrete inputs *)

Section Witnesses.
Import Props Samples.

Lemma pile_sleep_inv : sleep_inv_all pile.
Proof.
  unfold sleep_inv_all. cbn [App.cookies pile App.set_cookies].
  apply Forall_cons_2; [|apply Forall_cons_2; [|apply Forall_nil_2]];
    intros _; split; reflexivity.
Qed.

Lemma C1_sleep_invariant_witness :
  sleep_inv_all pile
  /\ exists self', App._step (1 / 60) pile = Some self' /\ sleep_inv_all self'.
Proof.
  split; [exact pile_sleep_inv|].
  destruct (C1_sleep_invariant pile pile_sleep_inv)
    as (_ & _ & _ & _ & _ & _ & _ & _ & Hstep & _).
  exact (Hstep (1 / 60)).
Defined.

Lemma app0_accepts : ~ spawn_rejects app0.
Proof.
  assert (App._fill_ratio app0 = 0) as Hz.
  { unfold App._fill_ratio. cbn [App.cookies app0 foldl]. unfold Rdiv. ring. }
  unfold spawn_rejects. rewrite Hz. unfold HARD_STOP_AT, OVERFLOW_AT.
  intros [H|[_ H]]; lra.
Qed.

Lemma halves_unit_draws : random.unit_draws halves.
Proof. intros n. cbn [random.stream halves]. lra. Qed.

Lemma contact_delta_anchor :
  App.contact_delta neighbour loose halves
  = (558.8 - 529.2, 348.4 - 348.4,
     (558.8 - 529.2) * (558.8 - 529.2) + (348.4 - 348.4) * (348.4 - 348.4),
     halves).
Proof.
  unfold App.contact_delta. cbn [x y neighbour loose].
  rewrite (decide_False (P := _ <= 1e-9)) by lra. reflexivity.
Qed.

(** A sleeping anchor and an awake body overlapping it by 0.4. *)
Lemma C7_pairwise_anchoring_witness :
  exists a' b',
    App._resolve_circle_collision neighbour loose halves = Some (a', b', halves)
    /\ x a' = x neighbour /\ y a' = y neighbour
    /\ asleep a' = true /\ vx a' = 0 /\ vy a' = 0.
Proof.
  destruct (C7_pairwise_anchoring neighbour loose halves _ _ _ _
              contact_delta_anchor)
    as (a' & b' & Hr & Hanchor & _ & _ & Hsa & _ & Hsep & Happ).
  - cbn [r neighbour loose]. lra.
  - exists a', b'. split; [exact Hr|].
    destruct (Hanchor eq_refl eq_refl) as (Hx & Hy & _).
    split; [exact Hx|]. split; [exact Hy|].
    assert (asleep a' = true) as Ha'.
    { rewrite Hsa. cbn [asleep neighbour andb r loose].
      rewrite bool_decide_eq_false_2; [reflexivity|].
      assert (sqrt ((558.8 - 529.2) * (558.8 - 529.2)
                    + (348.4 - 348.4) * (348.4 - 348.4)) = 29.6) as ->.
      { replace ((558.8 - 529.2) * (558.8 - 529.2)
                 + (348.4 - 348.4) * (348.4 - 348.4)) with (29.6 * 29.6) by lra.
        apply sqrt_square. lra. }
      lra. }
    split; [exact Ha'|].
    match type of Happ with
    | ?v < 0 -> _ => destruct (Rlt_dec v 0) as [Hneg|Hpos]
    end.
    + destruct (Happ Hneg) as [Hva _]. rewrite Ha' in Hva.
      injection Hva as -> ->. split; reflexivity.
    + destruct Hsep as (Hvx & Hvy & _); [lra|].
      rewrite Hvx, Hvy. split; reflexivity.
Defined.

(** Two bodies at the same place: the degenerate branch. *)
Lemma C9_degenerate_contact_safety_witness :
  (exists a' b' g',
     App._resolve_circle_collision big big halves = Some (a', b', g'))
  /\ sqrt (cos (1 / 2 * tau) * 0.01 * (cos (1 / 2 * tau) * 0.01)
           + sin (1 / 2 * tau) * 0.01 * (sin (1 / 2 * tau) * 0.01)) = 0.01.
Proof.
  destruct (C9_degenerate_contact_safety big big halves) as (Hret & _ & Hdeg).
  split; [exact Hret|].
  destruct Hdeg as [_ Hlen]; [cbn [x y big]; lra|]. exact Hlen.
Defined.

Lemma C10_lossy_defender_drain_witness :
  App._defender_pending_colors full = ["red"; "orange"]%string
  /\ App._defender_pending_colors (App._defender_drop_step full) = []
  /\ App.cookies (App._defender_drop_step full) = App.cookies full.
Proof.
  destruct (C10_lossy_defender_drain full eq_refl) as (Hpend & _ & Hrej).
  split; [reflexivity|]. split; [exact Hpend|].
  apply Hrej. left. exact full_hard_stopped.
Defined.

Lemma C3_containment_witness :
  in_funnel_within 1e-9 bowl (EllipseBowlCollider.collide_cookie bowl far_below)
  \/ contained_within 1e-9 bowl
       (EllipseBowlCollider.collide_cookie bowl far_below).
Proof.
  apply (C3_containment bowl far_below).
  destruct bowl_geometry as (_ & -> & _ & Hb & -> & _).
  unfold shrunk_b. rewrite Hb. cbn [r far_below]. rewrite Rmax_right; lra.
Defined.
End Witnesses.

(** * Further properties of the code *)

(** ** Colour helpers *)

Section Colours.
#[local] Open Scope string_scope.

Lemma clamp_int_range v : (0 <= clamp_int v 0 255 <= 255)%Z.
Proof.
  unfold clamp_int.
  destruct (v <? 0)%Z eqn:H1; [lia|].
  destruct (255 <? v)%Z eqn:H2; [lia|].
  apply Z.ltb_ge in H1, H2. lia.
Qed.

Lemma clamp_int_id v : (0 <= v <= 255)%Z -> clamp_int v 0 255 = v.
Proof.
  intros Hv. unfold clamp_int.
  destruct (v <? 0)%Z eqn:H1; [apply Z.ltb_lt in H1; lia|].
  destruct (255 <? v)%Z eqn:H2; [apply Z.ltb_lt in H2; lia|]. reflexivity.
Qed.

Lemma bytes_ok : forallb byte_ok (Z.of_nat <$> seq 0 256) = true.
Proof. vm_compute. reflexivity. Qed.

Lemma format_02x_byte n :
  (0 <= n <= 255)%Z ->
  exists d1 d2,
    format_02x n = String d1 (String d2 EmptyString)
    /\ d1 <> "#"%char
    /\ int_base16 (String d1 (String d2 EmptyString)) = Some n.
Proof.
  intros Hn. pose proof bytes_ok as Hall.
  rewrite forallb_forall in Hall.
  specialize (Hall n).
  assert (byte_ok n = true) as Hok.
  { apply Hall. apply list_elem_of_In. apply list_elem_of_fmap.
    exists (Z.to_nat n). split; [lia|]. apply elem_of_seq. lia. }
  unfold byte_ok in Hok.
  destruct (format_02x n) as [|d1 [|d2 [|? ?]]]; try discriminate.
  apply andb_true_iff in Hok as [Hd Hint].
  exists d1, d2. split; [reflexivity|]. split.
  - intros ->. discriminate.
  - destruct (int_base16 _) as [m|]; [|discriminate].
    apply Z.eqb_eq in Hint. congruence.
Qed.

Lemma lstrip_hash_other d s : d <> "#"%char -> lstrip_hash (String d s) = String d s.
Proof.
  intros Hd. destruct d as [[] [] [] [] [] [] [] []];
    first [reflexivity | exfalso; apply Hd; reflexivity].
Qed.

Lemma lstrip_hash_hash s : lstrip_hash (String "#" s) = lstrip_hash s.
Proof. reflexivity. Qed.

Lemma rgb_to_hex_digits (r0 g0 b0 : Z) :
  exists r1 r2 g1 g2 b1 b2,
    rgb_to_hex (r0, g0, b0)
    = String "#" (String r1 (String r2 (String g1 (String g2
        (String b1 (String b2 EmptyString))))))
    /\ r1 <> "#"%char
    /\ int_base16 (String r1 (String r2 EmptyString)) = Some (clamp_int r0 0 255)
    /\ int_base16 (String g1 (String g2 EmptyString)) = Some (clamp_int g0 0 255)
    /\ int_base16 (String b1 (String b2 EmptyString)) = Some (clamp_int b0 0 255).
Proof.
  unfold rgb_to_hex.
  destruct (format_02x_byte _ (clamp_int_range r0)) as (r1 & r2 & -> & Hr & Hri).
  destruct (format_02x_byte _ (clamp_int_range g0)) as (g1 & g2 & -> & _ & Hgi).
  destruct (format_02x_byte _ (clamp_int_range b0)) as (b1 & b2 & -> & _ & Hbi).
  exists r1, r2, g1, g2, b1, b2. unfold String.app. cbn [String.append].
  split; [reflexivity|]. split; [exact Hr|]. split; [exact Hri|].
  split; [exact Hgi|exact Hbi].
Qed.

Lemma hex_to_rgb_digits (r1 r2 g1 g2 b1 b2 : ascii) :
  r1 <> "#"%char ->
  hex_to_rgb (String "#" (String r1 (String r2 (String g1 (String g2
                (String b1 (String b2 EmptyString)))))))
  = (r0 ← int_base16 (String r1 (String r2 EmptyString));
     g0 ← int_base16 (String g1 (String g2 EmptyString));
     b0 ← int_base16 (String b1 (String b2 EmptyString));
     Some (r0, g0, b0)).
Proof.
  intros Hr. unfold hex_to_rgb.
  rewrite lstrip_hash_hash, (lstrip_hash_other _ _ Hr). reflexivity.
Qed.

(** Reading back what [rgb_to_hex] wrote gives the triple, each channel
    clamped to a byte. *)
Theorem hex_to_rgb_of_rgb_to_hex (r0 g0 b0 : Z) :
  hex_to_rgb (rgb_to_hex (r0, g0, b0))
  = Some (clamp_int r0 0 255, clamp_int g0 0 255, clamp_int b0 0 255).
Proof.
  destruct (rgb_to_hex_digits r0 g0 b0)
    as (r1 & r2 & g1 & g2 & b1 & b2 & -> & Hr & Hri & Hgi & Hbi).
  rewrite (hex_to_rgb_digits _ _ _ _ _ _ Hr), Hri, Hgi, Hbi. reflexivity.
Qed.

(** Fewer than five characters after the hash signs, unless exactly three,
    leave an empty slice for a channel: [hex_to_rgb] raises.  Exactly three
    are read as the shorthand, each digit doubled. *)
Theorem hex_to_rgb_short_input h :
  (String.length (lstrip_hash h) <> 3%nat ->
   (String.length (lstrip_hash h) < 5)%nat ->
   hex_to_rgb h = None)
  /\ (forall c1 c2 c3,
        lstrip_hash h = String c1 (String c2 (String c3 EmptyString)) ->
        hex_to_rgb h
        = (r0 ← int_base16 (String c1 (String c1 EmptyString));
           g0 ← int_base16 (String c2 (String c2 EmptyString));
           b0 ← int_base16 (String c3 (String c3 EmptyString));
           Some (r0, g0, b0))).
Proof.
  assert (int_base16 EmptyString = None) as Hempty by reflexivity.
  split.
  - intros H3 H5. unfold hex_to_rgb.
    destruct (lstrip_hash h) as [|c1 [|c2 [|c3 [|c4 [|c5 rest]]]]];
      cbn [String.length] in *; try lia; cbn [Nat.eqb substring].
    + rewrite Hempty. reflexivity.
    + rewrite Hempty. destruct (int_base16 (String c1 _)); reflexivity.
    + rewrite Hempty. destruct (int_base16 (String c1 _)); reflexivity.
    + rewrite Hempty.
      destruct (int_base16 (String c1 _)); [|reflexivity].
      destruct (int_base16 (String c3 _)); reflexivity.
  - intros c1 c2 c3 Hh. unfold hex_to_rgb. rewrite Hh. reflexivity.
Qed.

Lemma hex_to_rgb_short_input_witness :
  hex_to_rgb "#ff" = None /\ hex_to_rgb "#fa0" = Some (255, 170, 0)%Z.
Proof.
  destruct (hex_to_rgb_short_input "#ff") as [Hshort _].
  destruct (hex_to_rgb_short_input "#fa0") as [_ Hthree].
  split.
  - apply Hshort; cbn; lia.
  - rewrite (Hthree "f"%char "a"%char "0"%char eq_refl). reflexivity.
Defined.

Lemma py_int_IZR z : py_int (IZR z) = z.
Proof.
  unfold py_int. case_decide.
  - apply ZfloorZ.
  - unfold Zceil. rewrite <- opp_IZR, ZfloorZ. lia.
Qed.

Lemma py_int_between (lo hi : Z) v :
  IZR lo <= v <= IZR hi -> (lo <= py_int v <= hi)%Z.
Proof.
  intros [Hlo Hhi]. unfold py_int. case_decide.
  - split; [apply Zfloor_lub; exact Hlo|].
    apply le_IZR. pose proof (Zfloor_bound v). lra.
  - pose proof (Zceil_bound v) as Hc. split.
    + apply le_IZR. lra.
    + unfold Zceil.
      assert (- hi <= Zfloor (- v))%Z; [|lia].
      apply Zfloor_lub. rewrite opp_IZR. lra.
Qed.

Lemma blend_channel (a b : Z) t :
  0 <= t <= 1 ->
  (Z.min a b <= py_int (IZR a * (1 - t) + IZR b * t) <= Z.max a b)%Z.
Proof.
  intros Ht. apply py_int_between.
  assert (IZR (Z.min a b) <= IZR a /\ IZR (Z.min a b) <= IZR b) as [? ?]
    by (split; apply IZR_le; lia).
  assert (IZR a <= IZR (Z.max a b) /\ IZR b <= IZR (Z.max a b)) as [? ?]
    by (split; apply IZR_le; lia).
  split; nra.
Qed.

Lemma clamp_unit t : 0 <= clamp t 0 1 <= 1.
Proof. unfold clamp. repeat case_decide; lra. Qed.

(** [blend_rgb] on byte channels clamps the weight: each channel of the
    blend is a byte that lies between the two channels it blends, or (by the
    rounding of the weighted sum before [int] cuts it) one below the smaller
    of them; a weight of 0 or less gives the first colour and a weight of 1
    or more the second. *)
Theorem blend_rgb_between (a b : Z * Z * Z) t :
  rgb_bytes a -> rgb_bytes b ->
  (let '(a0, a1, a2) := a in
   let '(b0, b1, b2) := b in
   let '(c0, c1, c2) := blend_rgb a b t in
   (Z.min a0 b0 - 1 <= c0 <= Z.max a0 b0)%Z
   /\ (Z.min a1 b1 - 1 <= c1 <= Z.max a1 b1)%Z
   /\ (Z.min a2 b2 - 1 <= c2 <= Z.max a2 b2)%Z)
  /\ rgb_bytes (blend_rgb a b t)
  /\ (t <= 0 -> blend_rgb a b t = a)
  /\ (1 <= t -> blend_rgb a b t = b).
Proof.
  destruct a as [[a0 a1] a2], b as [[b0 b1] b2].
  intros (Ha0 & Ha1 & Ha2) (Hb0 & Hb1 & Hb2).
  pose proof (clamp_unit t) as Ht.
  pose proof (blend_channel a0 b0 _ Ht) as H0.
  pose proof (blend_channel a1 b1 _ Ht) as H1.
  pose proof (blend_channel a2 b2 _ Ht) as H2.
  split; [|split; [|split]].
  - unfold blend_rgb. repeat split; lia.
  - unfold blend_rgb, rgb_bytes. repeat split; lia.
  - intros Hle. unfold blend_rgb.
    assert (clamp t 0 1 = 0) as -> by (unfold clamp; repeat case_decide; lra).
    rewrite !Rminus_0_r, !Rmult_1_r, !Rmult_0_r, !Rplus_0_r, !py_int_IZR.
    reflexivity.
  - intros Hge. unfold blend_rgb.
    assert (clamp t 0 1 = 1) as -> by (unfold clamp; repeat case_decide; lra).
    replace (1 - 1) with 0 by lra.
    rewrite !Rmult_0_r, !Rmult_1_r, !Rplus_0_l, !py_int_IZR.
    reflexivity.
Qed.

Lemma blend_rgb_between_witness :
  blend_rgb (255, 0, 0)%Z (255, 255, 255)%Z (-1) = (255, 0, 0)%Z
  /\ blend_rgb (255, 0, 0)%Z (255, 255, 255)%Z 2 = (255, 255, 255)%Z
  /\ rgb_bytes (blend_rgb (255, 0, 0)%Z (255, 255, 255)%Z HIGHLIGHT_ALPHA_SIM).
Proof.
  assert (rgb_bytes (255, 0, 0)%Z /\ rgb_bytes (255, 255, 255)%Z) as [Ha Hb]
    by (unfold rgb_bytes; lia).
  destruct (blend_rgb_between (255, 0, 0)%Z (255, 255, 255)%Z (-1) Ha Hb)
    as (_ & _ & Hlo & _).
  destruct (blend_rgb_between (255, 0, 0)%Z (255, 255, 255)%Z 2 Ha Hb)
    as (_ & _ & _ & Hhi).
  destruct (blend_rgb_between (255, 0, 0)%Z (255, 255, 255)%Z
              HIGHLIGHT_ALPHA_SIM Ha Hb) as (_ & Hbytes & _).
  split; [apply Hlo; lra|]. split; [apply Hhi; lra|exact Hbytes].
Defined.

Lemma rgb_to_hex_prefix rgb : String.prefix "#" (rgb_to_hex rgb) = true.
Proof.
  destruct rgb as [[r0 g0] b0]. unfold rgb_to_hex, String.app.
  cbn [String.append String.prefix].
  destruct (ascii_dec "#" "#") as [_|Hne]; [|exfalso; apply Hne; reflexivity].
  match goal with |- String.prefix EmptyString ?s = true => destruct s end;
    reflexivity.
Qed.

Lemma underwater_color_hex name : exists rgb, underwater_color name = rgb_to_hex rgb.
Proof.
  unfold underwater_color.
  destruct (dict_get COLOR_RGB (lower name) (180, 180, 180)%Z) as [[b0 b1] b2].
  cbn [WATER_TINT]. eexists. reflexivity.
Qed.

(** [_highlight_fill] returns for every body that is under water, and for
    every body whose colour name does not begin with a hash sign: the tinted
    colour that [underwater_color] hands to [highlight_color] always parses. *)
Theorem highlight_fill_returns c :
  CookieBody.underwater c = true
  \/ String.prefix "#" (CookieBody.color_name c) = false ->
  exists s rgb, _highlight_fill c = Some s /\ s = rgb_to_hex rgb.
Proof.
  intros Hc. unfold _highlight_fill, _cookie_fill, highlight_color.
  destruct (CookieBody.underwater c) eqn:Hu.
  - destruct (underwater_color_hex (CookieBody.color_name c)) as ([[r0 g0] b0] & ->).
    rewrite rgb_to_hex_prefix.
    destruct (rgb_to_hex_digits r0 g0 b0)
      as (r1 & r2 & g1 & g2 & b1 & b2 & -> & Hr & Hri & Hgi & Hbi).
    rewrite (hex_to_rgb_digits _ _ _ _ _ _ Hr), Hri, Hgi, Hbi.
    cbn [mbind option_bind]. eauto.
  - destruct Hc as [Hc|Hc]; [discriminate|]. rewrite Hc.
    cbn [mbind option_bind]. eauto.
Qed.

Lemma highlight_fill_returns_witness :
  exists s rgb,
    _highlight_fill (CookieBody.mk "red" 15 0 0 0 0 2 1 3 false 0 true 0 1) = Some s
    /\ s = rgb_to_hex rgb.
Proof.
  apply highlight_fill_returns. left. reflexivity.
Defined.
End Colours.

(** ** [clamp] and the opening of the bowl *)

Section Clamp.
Import Props More Samples.

(** With ordered bounds [clamp] lands in the interval, fixes its points and
    is idempotent; with crossed bounds it returns one of the two bounds,
    the lower bound for every value below it and the upper bound
    otherwise. *)
Theorem clamp_bounds v lo hi :
  (lo <= hi ->
   lo <= clamp v lo hi <= hi
   /\ (lo <= v <= hi -> clamp v lo hi = v)
   /\ clamp (clamp v lo hi) lo hi = clamp v lo hi)
  /\ (hi < lo -> clamp v lo hi = (if decide (v < lo) then lo else hi)).
Proof.
  unfold clamp. split.
  - intros Hle. repeat split; repeat case_decide; try lra.
  - intros Hcross. repeat case_decide; lra.
Qed.

Lemma clamp_bounds_witness :
  (0 <= clamp 7 0 5 <= 5) /\ clamp 7 5 0 = 0.
Proof.
  destruct (clamp_bounds 7 0 5) as [Hord _].
  destruct (clamp_bounds 7 5 0) as [_ Hcross].
  split.
  - apply Hord. lra.
  - rewrite Hcross by lra. case_decide; [lra|reflexivity].
Defined.

(** [_recalc_rim], for a vertical semi-axis that is not tiny (so that the
    division by its square is safe), centres the opening on the bowl.  When
    the rim line clearly cuts the ellipse, the two ends of the opening lie on
    the ellipse up to rounding: the quadratic form that [is_inside_point]
    tests is within 1e-9 of 1 there (it need not be at most 1, so
    [is_inside_point] can refuse an end).  When the rim line clearly misses
    the ellipse, the opening is a tenth of the horizontal semi-axis wide. *)
Theorem recalc_rim_opening col :
  1e-150 <= Rabs (EllipseBowlCollider.b col) ->
  let col' := EllipseBowlCollider._recalc_rim col in
  let dy := EllipseBowlCollider.rim_y col - EllipseBowlCollider.cy col in
  let t0 := 1 - dy * dy / (EllipseBowlCollider.b col * EllipseBowlCollider.b col) in
  EllipseBowlCollider.rim_left col' + EllipseBowlCollider.rim_right col'
    = 2 * EllipseBowlCollider.cx col
  /\ (t0 <= - 1e-9 ->
      EllipseBowlCollider.rim_right col' - EllipseBowlCollider.rim_left col'
        = 0.1 * EllipseBowlCollider.a col)
  /\ (1e-9 <= t0 -> EllipseBowlCollider.a col <> 0 ->
      Rabs (ellipse_form col' (EllipseBowlCollider.rim_left col')
                         (EllipseBowlCollider.rim_y col') - 1) <= 1e-9
      /\ Rabs (ellipse_form col' (EllipseBowlCollider.rim_right col')
                            (EllipseBowlCollider.rim_y col') - 1) <= 1e-9).
Proof.
  intros Hbig col' dy t0. subst col'.
  assert (EllipseBowlCollider.b col <> 0) as Hb.
  { intros Hz. rewrite Hz, Rabs_R0 in Hbig. lra. }
  unfold EllipseBowlCollider._recalc_rim, EllipseBowlCollider.rim_left,
    EllipseBowlCollider.rim_right.
  fold dy. fold t0.
  destruct (decide (t0 <= 0)) as [Ht|Ht];
    cbn [EllipseBowlCollider._rim_left EllipseBowlCollider._rim_right
         EllipseBowlCollider.rim_y EllipseBowlCollider.cx].
  - split; [lra|]. split; [intros _; lra|intros; lra].
  - split; [lra|]. split; [intros; lra|]. intros _ Ha.
    assert (sqrt t0 * sqrt t0 = t0) as Hsq by (apply sqrt_sqrt; lra).
    unfold ellipse_form.
    cbn [EllipseBowlCollider.cx EllipseBowlCollider.cy EllipseBowlCollider.a
         EllipseBowlCollider.b EllipseBowlCollider.rim_y].
    fold dy.
    assert (dy / EllipseBowlCollider.b col * (dy / EllipseBowlCollider.b col)
            = 1 - t0) as Hdy by (unfold t0; field; exact Hb).
    split.
    + replace ((EllipseBowlCollider.cx col - EllipseBowlCollider.a col * sqrt t0
                - EllipseBowlCollider.cx col) / EllipseBowlCollider.a col)
        with (- sqrt t0) by (field; exact Ha).
      rewrite Hdy.
      replace (- sqrt t0 * - sqrt t0 + (1 - t0) - 1) with 0 by nra.
      rewrite Rabs_R0. lra.
    + replace ((EllipseBowlCollider.cx col + EllipseBowlCollider.a col * sqrt t0
                - EllipseBowlCollider.cx col) / EllipseBowlCollider.a col)
        with (sqrt t0) by (field; exact Ha).
      rewrite Hdy.
      replace (sqrt t0 * sqrt t0 + (1 - t0) - 1) with 0 by nra.
      rewrite Rabs_R0. lra.
Qed.
End Clamp.

(** ** The bowl and the boundary collision *)

Section BowlMore.
Import Props More Samples.
Implicit Types (col : EllipseBowlCollider.t) (c : CookieBody.t).

Lemma recalc_rim_opening_witness :
  Rabs (ellipse_form
          (EllipseBowlCollider._recalc_rim (EllipseBowlCollider.mk 0 0 5 5 3 0 0 1))
          (EllipseBowlCollider.rim_left
             (EllipseBowlCollider._recalc_rim (EllipseBowlCollider.mk 0 0 5 5 3 0 0 1)))
          (EllipseBowlCollider.rim_y
             (EllipseBowlCollider._recalc_rim (EllipseBowlCollider.mk 0 0 5 5 3 0 0 1)))
        - 1) <= 1e-9
  /\ EllipseBowlCollider.rim_right
       (EllipseBowlCollider._recalc_rim (EllipseBowlCollider.mk 0 0 5 5 (-6) 0 0 1))
     - EllipseBowlCollider.rim_left
         (EllipseBowlCollider._recalc_rim (EllipseBowlCollider.mk 0 0 5 5 (-6) 0 0 1))
     = 0.1 * 5.
Proof.
  assert (1e-150 <= Rabs 5) as Hbig by (rewrite Rabs_pos_eq by lra; lra).
  destruct (recalc_rim_opening (EllipseBowlCollider.mk 0 0 5 5 3 0 0 1) Hbig)
    as (_ & _ & Hcut).
  destruct (recalc_rim_opening (EllipseBowlCollider.mk 0 0 5 5 (-6) 0 0 1) Hbig)
    as (_ & Hfloor & _).
  cbn [EllipseBowlCollider.rim_y EllipseBowlCollider.cy EllipseBowlCollider.a
       EllipseBowlCollider.b] in Hcut, Hfloor.
  split.
  - apply Hcut; lra.
  - apply Hfloor. lra.
Defined.

Lemma recalc_rim_fields col :
  EllipseBowlCollider.cx (EllipseBowlCollider._recalc_rim col) = EllipseBowlCollider.cx col
  /\ EllipseBowlCollider.cy (EllipseBowlCollider._recalc_rim col) = EllipseBowlCollider.cy col
  /\ EllipseBowlCollider.a (EllipseBowlCollider._recalc_rim col) = EllipseBowlCollider.a col
  /\ EllipseBowlCollider.b (EllipseBowlCollider._recalc_rim col) = EllipseBowlCollider.b col
  /\ EllipseBowlCollider.rim_y (EllipseBowlCollider._recalc_rim col)
     = EllipseBowlCollider.rim_y col.
Proof.
  unfold EllipseBowlCollider._recalc_rim. case_decide; repeat split.
Qed.

(** [EllipseBowlCollider.__init__] raises when a semi-axis is zero (in
    binary64 it also raises for a vertical semi-axis so small that its
    square underflows to zero).  It returns when the horizontal semi-axis is
    not zero and the vertical one is at least 1e-150 in absolute value: the
    bowl keeps the geometry it was given, its opening is centred, and its
    sampled area is at least 1 and, for a non-negative horizontal semi-axis
    and a rim line not below the bottom of the ellipse, at most the area of
    the sampled rectangle (or 1). *)
Theorem collider_init cx0 cy0 a0 b0 rim0 :
  (a0 = 0 \/ b0 = 0 -> EllipseBowlCollider.init cx0 cy0 a0 b0 rim0 = None)
  /\ (a0 <> 0 -> 1e-150 <= Rabs b0 ->
      exists col,
        EllipseBowlCollider.init cx0 cy0 a0 b0 rim0 = Some col
        /\ EllipseBowlCollider.cx col = cx0 /\ EllipseBowlCollider.cy col = cy0
        /\ EllipseBowlCollider.a col = a0 /\ EllipseBowlCollider.b col = b0
        /\ EllipseBowlCollider.rim_y col = rim0
        /\ EllipseBowlCollider.rim_left col + EllipseBowlCollider.rim_right col
           = 2 * cx0
        /\ 1 <= EllipseBowlCollider.bowl_area col
        /\ (0 <= a0 -> rim0 <= cy0 + b0 ->
            EllipseBowlCollider.bowl_area col
              <= Rmax 1 (2 * a0 * (cy0 + b0 - rim0)))).
Proof.
  unfold EllipseBowlCollider.init. split.
  - intros Hz. case_decide; [reflexivity|contradiction].
  - intros Ha Hbig.
    assert (b0 <> 0) as Hb.
    { intros Hz. rewrite Hz, Rabs_R0 in Hbig. lra. }
    case_decide as Hz; [destruct Hz; contradiction|].
    eexists. split; [reflexivity|].
    set (col0 := EllipseBowlCollider.mk cx0 cy0 a0 b0 rim0 _ _ 1).
    pose proof (recalc_rim_fields col0) as (Hcx & Hcy & Hax & Hbx & Hrim).
    assert (EllipseBowlCollider.rim_left (EllipseBowlCollider._recalc_rim col0)
            + EllipseBowlCollider.rim_right (EllipseBowlCollider._recalc_rim col0)
            = 2 * EllipseBowlCollider.cx col0) as Hmid.
    { unfold EllipseBowlCollider._recalc_rim, EllipseBowlCollider.rim_left,
        EllipseBowlCollider.rim_right.
      case_decide;
        cbn [EllipseBowlCollider._rim_left EllipseBowlCollider._rim_right]; lra. }
    cbn [EllipseBowlCollider.cx EllipseBowlCollider.cy EllipseBowlCollider.a
         EllipseBowlCollider.b EllipseBowlCollider.rim_y col0]
      in Hcx, Hcy, Hax, Hbx, Hrim, Hmid.
    assert (forall col1,
              EllipseBowlCollider.cx (EllipseBowlCollider._recalc_area col1)
              = EllipseBowlCollider.cx col1
              /\ EllipseBowlCollider.cy (EllipseBowlCollider._recalc_area col1)
                = EllipseBowlCollider.cy col1
              /\ EllipseBowlCollider.a (EllipseBowlCollider._recalc_area col1)
                = EllipseBowlCollider.a col1
              /\ EllipseBowlCollider.b (EllipseBowlCollider._recalc_area col1)
                = EllipseBowlCollider.b col1
              /\ EllipseBowlCollider.rim_y (EllipseBowlCollider._recalc_area col1)
                = EllipseBowlCollider.rim_y col1
              /\ EllipseBowlCollider.rim_left (EllipseBowlCollider._recalc_area col1)
                = EllipseBowlCollider.rim_left col1
              /\ EllipseBowlCollider.rim_right (EllipseBowlCollider._recalc_area col1)
                = EllipseBowlCollider.rim_right col1
              /\ 1 <= EllipseBowlCollider.bowl_area
                        (EllipseBowlCollider._recalc_area col1)) as Harea.
    { intros col1. repeat split. apply Rmax_l. }
    destruct (Harea (EllipseBowlCollider._recalc_rim col0))
      as (-> & -> & -> & -> & -> & -> & -> & Hone).
    repeat (split; [assumption|]).
    intros Ha0 Hr0.
    destruct (recalc_area_bounds (EllipseBowlCollider._recalc_rim col0))
      as [_ Hup]; [rewrite Hax; exact Ha0|rewrite Hrim, Hcy, Hbx; exact Hr0|].
    rewrite Hax, Hcy, Hbx, Hrim in Hup. exact Hup.
Qed.

Lemma collider_init_witness :
  exists col,
    EllipseBowlCollider.init (760 * 0.52) (520 * 0.67) (760 * 0.235)
                             (520 * 0.295) (520 * 0.30) = Some col
    /\ 1 <= EllipseBowlCollider.bowl_area col
    /\ EllipseBowlCollider.bowl_area col
       <= Rmax 1 (2 * (760 * 0.235) * (520 * 0.67 + 520 * 0.295 - 520 * 0.30)).
Proof.
  destruct (collider_init (760 * 0.52) (520 * 0.67) (760 * 0.235)
                          (520 * 0.295) (520 * 0.30)) as [_ Hsome].
  destruct Hsome as (col & Hinit & _ & _ & _ & _ & _ & _ & Hlo & Hhi);
    [lra|rewrite Rabs_pos_eq by lra; lra|].
  exists col. split; [exact Hinit|]. split; [exact Hlo|]. apply Hhi; lra.
Defined.

(** [collide_cookie] changes nothing but position and velocity.  In the
    funnel zone it keeps [y] and the velocity and puts [x] at the opening
    clamp; a body inside the shrunk ellipse and at least a radius below the
    rim line is returned as it is. *)
Theorem collide_cookie_frame col c :
  let c' := EllipseBowlCollider.collide_cookie col c in
  (body_ident c' = body_ident c
   /\ asleep c' = asleep c
   /\ sleep_counter c' = sleep_counter c
   /\ underwater c' = underwater c)
  /\ (in_funnel col c ->
      c' = set_x (EllipseBowlCollider.opening_clamp_x col (x c) (r c)) c)
  /\ (~ in_funnel col c -> contained col c ->
      ~ y c < EllipseBowlCollider.rim_y col + r c ->
      c' = c).
Proof.
  unfold EllipseBowlCollider.collide_cookie, in_funnel, contained, quad,
    shrunk_a, shrunk_b, body_ident.
  cbv zeta.
  split; [repeat case_decide; repeat split; reflexivity|].
  split.
  - intros Hf. rewrite (decide_True (P := y c < _)) by exact Hf. reflexivity.
  - intros Hf Hin Hr.
    rewrite (decide_False (P := y c < _ - _)) by exact Hf.
    rewrite (decide_True (P := _ <= 1)) by exact Hin.
    rewrite (decide_False (P := y c < _ + _)) by exact Hr. reflexivity.
Qed.

Lemma collide_cookie_frame_witness :
  EllipseBowlCollider.collide_cookie bowl at_wall = at_wall.
Proof.
  destruct bowl_geometry as (Hcx & Hcy & Ha & Hb & Hrim & _).
  destruct (collide_cookie_frame bowl at_wall) as (_ & _ & Hid).
  apply Hid.
  - unfold in_funnel. rewrite Hrim. cbn [y r at_wall]. lra.
  - unfold contained, quad, shrunk_a, shrunk_b.
    rewrite Ha, Hb, Hcx, Hcy. cbn [x y r at_wall].
    rewrite !Rmax_right by lra. lra.
  - rewrite Hrim. cbn [y r at_wall]. lra.
Defined.

Lemma collide_cookie_velocity col c :
  (vx (EllipseBowlCollider.collide_cookie col c) = vx c
   /\ vy (EllipseBowlCollider.collide_cookie col c) = vy c)
  \/ (~ in_funnel col c /\ quad col c (x c) (y c) > 1 /\ ~ grad_len col c < 1e-9).
Proof.
  destruct (decide (in_funnel col c)) as [Hf|Hf].
  { left. unfold EllipseBowlCollider.collide_cookie. unfold in_funnel in Hf.
    rewrite (decide_True (P := y c < _ - _)) by exact Hf.
    split; reflexivity. }
  destruct (decide (quad col c (x c) (y c) <= 1)) as [Hq|Hq].
  { left. unfold EllipseBowlCollider.collide_cookie.
    unfold in_funnel in Hf. unfold quad, shrunk_a, shrunk_b in Hq. cbv zeta in Hq.
    rewrite (decide_False (P := y c < _ - _)) by exact Hf. cbv zeta.
    rewrite (decide_True (P := _ <= 1)) by exact Hq.
    case_decide; split; reflexivity. }
  destruct (decide (grad_len col c < 1e-9)) as [Hn|Hn]; [|right; repeat split; [assumption|lra|assumption]].
  left. unfold EllipseBowlCollider.collide_cookie.
  unfold in_funnel in Hf. unfold quad, shrunk_a, shrunk_b in Hq. cbv zeta in Hq.
  unfold grad_len, grad, shrunk_a, shrunk_b in Hn. cbn [fst snd] in Hn.
  rewrite (decide_False (P := y c < _ - _)) by exact Hf. cbv zeta.
  rewrite (decide_False (P := _ <= 1)) by exact Hq.
  rewrite (decide_True (P := hypot _ _ < 1e-9)) by exact Hn.
  split; reflexivity.
Qed.

(** The boundary collision never speeds a body up. *)
Theorem collide_cookie_slows col c :
  speed2 (EllipseBowlCollider.collide_cookie col c) <= speed2 c.
Proof.
  unfold speed2.
  destruct (collide_cookie_velocity col c) as [[-> ->]|(Hf & Hq & Hn)]; [lra|].
  destruct (collide_cookie_outside col c Hf Hq Hn) as (_ & _ & -> & -> & _).
  pose proof (normal_unit col c Hn) as Hunit.
  unfold reflected. destruct (normal col c) as [nx ny]. cbn [fst snd] in *.
  unfold BOWL_RESTITUTION.
  set (vn := vx c * nx + vy c * ny).
  set (rx := vx c - (1 + 0.45) * vn * nx). set (ry := vy c - (1 + 0.45) * vn * ny).
  assert (rx * rx + ry * ry
          = vx c * vx c + vy c * vy c - 2.9 * vn * vn
            + 2.1025 * vn * vn * (nx * nx + ny * ny)) as Hr
    by (unfold rx, ry, vn; lra).
  rewrite Hunit in Hr.
  assert (rx * rx + ry * ry <= vx c * vx c + vy c * vy c) by nra.
  nra.
Qed.
End BowlMore.

(** ** Contact resolution *)

Section ContactMore.
Import Props More Samples.
Implicit Types (a b : CookieBody.t) (g : random.t).

Lemma contact_delta_regular a b g :
  dist2 a b > 1e-9 ->
  App.contact_delta a b g = (x b - x a, y b - y a, dist2 a b, g).
Proof.
  intros Hd. unfold App.contact_delta, dist2 in *.
  rewrite (decide_False (P := _ <= 1e-9)) by lra. reflexivity.
Qed.

(** The outcome of a contact, relative to the pair. *)
Lemma resolve_contact_facts a b g dx dy d2 g1 :
  App.contact_delta a b g = (dx, dy, d2, g1) ->
  d2 < (r a + r b) * (r a + r b) ->
  let dist := sqrt d2 in
  let nx := dx / dist in
  let ny := dy / dist in
  let overlap := r a + r b - dist in
  let vel_n := (vx b - vx a) * nx + (vy b - vy a) * ny in
  exists a' b',
    App._resolve_circle_collision a b g = Some (a', b', g1)
    /\ x b' - x a' = x b - x a + nx * overlap
    /\ y b' - y a' = y b - y a + ny * overlap
    /\ (asleep a' = true -> asleep a = true)
    /\ (asleep b' = true -> asleep b = true)
    /\ (asleep a = false -> asleep b = false ->
        vx a' + vx b' = vx a + vx b
        /\ vy a' + vy b' = vy a + vy b
        /\ (vx b' - vx a') * nx + (vy b' - vy a') * ny
           = (if decide (vel_n > 0) then vel_n
              else vel_n - (1 + COOKIE_RESTITUTION) * vel_n * (nx * nx + ny * ny))).
Proof.
  intros Hd Hnear dist nx ny overlap vel_n.
  pose proof (contact_delta_pos a b g) as Hpos. rewrite Hd in Hpos.
  destruct Hpos as [_ Hpos].
  unfold App._resolve_circle_collision. rewrite Hd.
  case_decide; [lra|].
  rewrite py_sqrt_some by lra. simpl.
  assert (sqrt d2 <> 0) as Hs by (pose proof (sqrt_lt_R0 _ Hpos); lra).
  rewrite !py_div_some by exact Hs. simpl.
  fold dist nx ny overlap.
  destruct (asleep a) eqn:Ha, (asleep b) eqn:Hb; simpl;
    destruct (decide (overlap > 0.6)) as [Ho|Ho];
    simpl; fold vel_n;
    (destruct (decide (vel_n > 0)) as [Hv|Hv];
     [|rewrite py_div_some by lra; simpl; rewrite ?Ha, ?Hb; simpl]);
    eexists _, _; (split; [reflexivity|]); simpl; rewrite ?Ha, ?Hb;
    repeat split; intros; try discriminate; try lra; try reflexivity;
    unfold vel_n; field.
Qed.

(** A contact between two bodies whose centres are clearly apart is
    resolved up to rounding: the call returns and uses no random draw, and
    afterwards the squared distance of the centres is that of the radii
    added up, [m * m], within [1e-9 * (1 + m * m)]. *)
Theorem resolve_separates a b g :
  dist2 a b >= 2e-9 ->
  dist2 a b < (r a + r b) * (r a + r b) ->
  exists a' b',
    App._resolve_circle_collision a b g = Some (a', b', g)
    /\ Rabs (dist2 a' b' - (r a + r b) * (r a + r b))
       <= 1e-9 * (1 + (r a + r b) * (r a + r b)).
Proof.
  intros Hreg Hnear.
  assert (dist2 a b > 1e-9) as Hreg' by lra.
  destruct (resolve_contact_facts a b g _ _ _ _ (contact_delta_regular a b g Hreg')
              Hnear) as (a' & b' & Hr & Hx & Hy & _).
  exists a', b'. split; [exact Hr|].
  assert (dist2 a' b' = (r a + r b) * (r a + r b)) as ->.
  { unfold dist2 at 1. rewrite Hx, Hy.
    assert (0 < dist2 a b) as Hpos by lra.
    pose proof (sqrt_lt_R0 _ Hpos) as Hs.
    assert (sqrt (dist2 a b) * sqrt (dist2 a b) = dist2 a b) as Hsq
      by (apply sqrt_sqrt; lra).
    set (d := sqrt (dist2 a b)) in *.
    set (dx := x b - x a) in *. set (dy := y b - y a) in *.
    set (m := r a + r b) in *.
    assert (dx * dx + dy * dy = d * d) as Hdd by (rewrite Hsq; reflexivity).
    replace (dx + dx / d * (m - d)) with (dx * (m / d)) by (field; lra).
    replace (dy + dy / d * (m - d)) with (dy * (m / d)) by (field; lra).
    transitivity ((dx * dx + dy * dy) * (m / d * (m / d))); [ring|].
    rewrite Hdd. field. lra. }
  rewrite Rminus_diag, Rabs_R0.
  pose proof (Rle_0_sqr (r a + r b)) as Hm. unfold Rsqr in Hm. lra.
Qed.

Lemma resolve_separates_witness :
  exists a' b',
    App._resolve_circle_collision neighbour at_wall halves = Some (a', b', halves)
    /\ Rabs (dist2 a' b' - (r neighbour + r at_wall) * (r neighbour + r at_wall))
       <= 1e-9 * (1 + (r neighbour + r at_wall) * (r neighbour + r at_wall)).
Proof.
  apply resolve_separates; unfold dist2; cbn [x y r neighbour at_wall]; lra.
Defined.

(** When both bodies are awake, a contact keeps the sum of their velocities,
    and afterwards they do not approach each other along the contact normal:
    an approach speed [v] becomes a separation speed [0.10 * v]. *)
Theorem resolve_awake_pair a b g dx dy d2 g1 :
  App.contact_delta a b g = (dx, dy, d2, g1) ->
  d2 < (r a + r b) * (r a + r b) ->
  asleep a = false -> asleep b = false ->
  let nx := dx / sqrt d2 in
  let ny := dy / sqrt d2 in
  let vel_n := (vx b - vx a) * nx + (vy b - vy a) * ny in
  exists a' b',
    App._resolve_circle_collision a b g = Some (a', b', g1)
    /\ vx a' + vx b' = vx a + vx b
    /\ vy a' + vy b' = vy a + vy b
    /\ (vx b' - vx a') * nx + (vy b' - vy a') * ny
       = (if decide (vel_n > 0) then vel_n else - COOKIE_RESTITUTION * vel_n)
    /\ 0 <= (vx b' - vx a') * nx + (vy b' - vy a') * ny.
Proof.
  intros Hd Hnear Ha Hb nx ny vel_n.
  destruct (resolve_contact_facts a b g _ _ _ _ Hd Hnear)
    as (a' & b' & Hr & _ & _ & _ & _ & Hv).
  destruct (Hv Ha Hb) as (Hsx & Hsy & Hn). fold nx ny vel_n in Hn.
  pose proof (contact_normal_unit a b g) as Hunit. rewrite Hd in Hunit.
  destruct Hunit as [_ Hunit]. fold nx ny in Hunit.
  exists a', b'. split; [exact Hr|]. split; [exact Hsx|]. split; [exact Hsy|].
  rewrite Hn. unfold COOKIE_RESTITUTION.
  destruct (decide (vel_n > 0)) as [Hp|Hp]; rewrite ?Hunit; split; lra.
Qed.

Lemma resolve_awake_pair_witness :
  exists a' b',
    App._resolve_circle_collision big (set_x 400 big) halves = Some (a', b', halves)
    /\ vx a' + vx b' = vx big + vx (set_x 400 big).
Proof.
  assert (App.contact_delta big (set_x 400 big) halves
          = (400 - 395.2, 60 - 60, dist2 big (set_x 400 big), halves)) as Hd.
  { apply contact_delta_regular. unfold dist2. cbn [x y big set_x]. lra. }
  destruct (resolve_awake_pair big (set_x 400 big) halves _ _ _ _ Hd)
    as (a' & b' & Hr & Hsx & _); try reflexivity.
  - unfold dist2. cbn [x y r big set_x]. lra.
  - exists a', b'. split; [exact Hr|exact Hsx].
Defined.

Lemma contact_delta_rng a b g :
  (App.contact_delta a b g).2
  = (if decide (dist2 a b <= 1e-9)
     then random.mk (random.stream g) (S (random.pos g)) else g).
Proof.
  unfold App.contact_delta, dist2. case_decide; reflexivity.
Qed.

(** Contact resolution leaves the identity of both bodies and their
    underwater flags alone, never puts a body to sleep, keeps the rest flag
    in step with the rest counter, and reads the generator once exactly when
    the centres coincide up to a squared distance of 1e-9. *)
Theorem resolve_frame a b g a' b' g' :
  App._resolve_circle_collision a b g = Some (a', b', g') ->
  body_ident a' = body_ident a /\ body_ident b' = body_ident b
  /\ underwater a' = underwater a /\ underwater b' = underwater b
  /\ (asleep a' = true -> asleep a = true)
  /\ (asleep b' = true -> asleep b = true)
  /\ (rest_flag a -> rest_flag a') /\ (rest_flag b -> rest_flag b')
  /\ g' = (if decide (dist2 a b <= 1e-9)
           then random.mk (random.stream g) (S (random.pos g)) else g).
Proof.
  pose proof (contact_delta_rng a b g) as Hg.
  unfold App._resolve_circle_collision.
  destruct (App.contact_delta a b g) as [[[dx dy] d2] g1]. cbn [snd] in Hg.
  intros Hr. unfold body_ident, rest_flag.
  case_decide; [simplify_eq; repeat split; auto|].
  destruct (App.py_sqrt d2) as [dist|]; [|discriminate]. simpl in Hr.
  destruct (App.py_div dx dist) as [nx|]; [|discriminate]. simpl in Hr.
  destruct (App.py_div dy dist) as [ny|]; [|discriminate]. simpl in Hr.
  destruct (asleep a) eqn:Ea, (asleep b) eqn:Eb; simpl in Hr;
    repeat (case_decide; simpl in Hr);
    try (destruct (App.py_div _ 2) as [j|]; [|discriminate]);
    simpl in Hr; rewrite ?Ea, ?Eb in Hr; simpl in Hr; simplify_eq;
    simpl; rewrite ?Ea, ?Eb; repeat split; auto; try discriminate.
Qed.

Lemma resolve_frame_witness :
  exists a' b' g',
    App._resolve_circle_collision big big halves = Some (a', b', g')
    /\ body_ident a' = body_ident big
    /\ g' = random.mk (random.stream halves) (S (random.pos halves)).
Proof.
  destruct (resolve_returns big big halves) as (a' & b' & g' & Hr).
  destruct (resolve_frame _ _ _ _ _ _ Hr) as (Ha & _ & _ & _ & _ & _ & _ & _ & Hg).
  exists a', b', g'. split; [exact Hr|]. split; [exact Ha|].
  rewrite Hg. rewrite decide_True; [reflexivity|].
  unfold dist2. lra.
Defined.
End ContactMore.

(** ** Water, wobble and rest *)

Section WaterAndRest.
Import Props More Samples.
Implicit Types (c : CookieBody.t) (self : App.t).

(** [_apply_underwater_mode] brings the underwater flag up to date and is
    idempotent; it leaves position, identity and the sleep state alone,
    returns a body whose flag is up to date as it is, and never speeds a
    body up on its way into the water. *)
Theorem apply_underwater_mode_sync self c :
  let c' := App._apply_underwater_mode self c in
  underwater c' = bool_decide (y c >= App.water_y self)
  /\ x c' = x c /\ y c' = y c
  /\ body_ident c' = body_ident c
  /\ asleep c' = asleep c /\ sleep_counter c' = sleep_counter c
  /\ App._apply_underwater_mode self c' = c'
  /\ (underwater c = bool_decide (y c >= App.water_y self) -> c' = c)
  /\ (y c >= App.water_y self -> speed2 c' <= speed2 c).
Proof.
  unfold App._apply_underwater_mode, body_ident, speed2.
  destruct (decide (bool_decide (y c >= App.water_y self) = underwater c)) as [He|He].
  - rewrite decide_True by exact He. repeat split; auto. lra.
  - destruct (bool_decide (y c >= App.water_y self)) eqn:Hb;
      destruct (underwater c) eqn:Hu; try contradiction;
      cbn [underwater x y vx vy asleep sleep_counter color_name r item_id
           shadow_id highlight_id wobble_phase wobble_freq
           set_underwater set_vx set_vy];
      rewrite ?Hb; cbn [decide]; repeat split; try reflexivity;
      try (rewrite decide_True by reflexivity; reflexivity);
      try (intros; discriminate).
    + intros _. nra.
    + intros Hy. apply bool_decide_eq_false_1 in Hb. contradiction.
Qed.

Lemma apply_underwater_mode_sync_witness :
  speed2 (App._apply_underwater_mode app0 loose) <= speed2 loose.
Proof.
  destruct (apply_underwater_mode_sync app0 loose)
    as (_ & _ & _ & _ & _ & _ & _ & _ & Hslow).
  apply Hslow. cbn [y loose App.water_y app0]. lra.
Defined.

(** The wobble acceleration is at most [WOBBLE_ACCEL] in size and vanishes
    for a body at rest. *)
Theorem underwater_wobble_bounded self c :
  - WOBBLE_ACCEL <= App._underwater_wobble_ax self c <= WOBBLE_ACCEL
  /\ (vx c = 0 -> vy c = 0 -> App._underwater_wobble_ax self c = 0).
Proof.
  unfold App._underwater_wobble_ax.
  set (wob := sin _).
  set (fade := clamp _ 0 1).
  assert (-1 <= wob <= 1) as Hw by apply SIN_bound.
  assert (0 <= fade <= 1) as Hf by apply clamp_unit.
  unfold WOBBLE_ACCEL. split; [split; nra|].
  intros Hx Hy. subst fade. rewrite Hx, Hy.
  unfold hypot. replace (0 * 0 + 0 * 0) with 0 by lra. rewrite sqrt_0.
  unfold clamp, SLEEP_SPEED.
  replace (0 / (22 * 2.5)) with 0 by lra.
  repeat case_decide; lra.
Qed.

Lemma underwater_wobble_bounded_witness :
  App._underwater_wobble_ax app0 at_wall = 0.
Proof.
  apply (underwater_wobble_bounded app0 at_wall); reflexivity.
Defined.
End WaterAndRest.

(** ** A physics step *)

Section StepMore.
Import Props More Samples.
Implicit Types (c a b : CookieBody.t) (g : random.t) (self : App.t).

#[local] Arguments App._resolve_circle_collision : simpl never.
#[local] Arguments App.step_cookie : simpl never.
#[local] Arguments App.sleep_update : simpl never.
#[local] Arguments App.collision_pass : simpl never.

Lemma only_bodies_changed_trans self1 self2 self3 :
  only_bodies_changed self1 self2 -> only_bodies_changed self2 self3 ->
  only_bodies_changed self1 self3.
Proof.
  unfold only_bodies_changed. intros H1 H2.
  destruct self1, self2, self3. simpl in *.
  injection H1. injection H2. intros. subst. reflexivity.
Qed.

Lemma substep_only_bodies sub_dt self self' :
  App.substep sub_dt self = Some self' -> only_bodies_changed self self'.
Proof.
  unfold App.substep. intros H.
  destruct (foldl _ _ _) as [[cs g]|]; [|discriminate].
  simpl in H. simplify_eq. destruct self. reflexivity.
Qed.

Lemma foldl_bind_rel {S} (R : S -> S -> Prop) (f : S -> option S) (l : list nat) :
  (forall s, R s s) ->
  (forall s1 s2 s3, R s1 s2 -> R s2 s3 -> R s1 s3) ->
  (forall s s', f s = Some s' -> R s s') ->
  forall s s', foldl (fun acc _ => acc ≫= f) (Some s) l = Some s' -> R s s'.
Proof.
  intros Hrefl Htrans Hf.
  induction l as [|i l IH]; intros s s' H; simpl in H.
  - simplify_eq. apply Hrefl.
  - destruct (f s) as [s1|] eqn:Hs.
    + eapply Htrans; [apply Hf; exact Hs|]. apply IH. exact H.
    + exfalso. clear -H. induction l as [|? l IHl]; simpl in H;
        [discriminate|auto].
Qed.

Lemma step_only_bodies dt self self' :
  App._step dt self = Some self' -> only_bodies_changed self self'.
Proof.
  unfold App._step. intros H.
  destruct (foldl _ _ _) as [s1|] eqn:Hs; [|discriminate].
  simpl in H. simplify_eq.
  apply (foldl_bind_rel only_bodies_changed) in Hs.
  - eapply only_bodies_changed_trans; [exact Hs|].
    destruct s1. reflexivity.
  - intros s. destruct s. reflexivity.
  - apply only_bodies_changed_trans.
  - apply substep_only_bodies.
Qed.

Lemma apply_underwater_mode_ident self c :
  body_ident (App._apply_underwater_mode self c) = body_ident c.
Proof.
  unfold App._apply_underwater_mode.
  case_decide; [reflexivity|]. case_match; reflexivity.
Qed.

Lemma collide_cookie_ident col c :
  body_ident (EllipseBowlCollider.collide_cookie col c) = body_ident c.
Proof.
  unfold EllipseBowlCollider.collide_cookie. repeat case_decide; reflexivity.
Qed.

Lemma step_cookie_ident self sub_dt c :
  body_ident (App.step_cookie self sub_dt c) = body_ident c.
Proof.
  unfold App.step_cookie. case_match; [apply apply_underwater_mode_ident|].
  rewrite collide_cookie_ident.
  case_match; unfold body_ident; simpl; apply apply_underwater_mode_ident.
Qed.

Lemma sleep_update_ident self c :
  body_ident (App.sleep_update self c) = body_ident c.
Proof.
  unfold App.sleep_update. repeat (case_match || case_decide); reflexivity.
Qed.

Lemma resolve_ident a b g a' b' g' :
  App._resolve_circle_collision a b g = Some (a', b', g') ->
  body_ident a' = body_ident a /\ body_ident b' = body_ident b.
Proof.
  unfold App._resolve_circle_collision.
  destruct (App.contact_delta a b g) as [[[dx dy] d2] g1].
  intros Hr. case_decide; [simplify_eq; auto|].
  destruct (App.py_sqrt d2) as [dist|]; [|discriminate]. simpl in Hr.
  destruct (App.py_div dx dist) as [nx|]; [|discriminate]. simpl in Hr.
  destruct (App.py_div dy dist) as [ny|]; [|discriminate]. simpl in Hr.
  destruct (asleep a) eqn:Ea, (asleep b) eqn:Eb; simpl in Hr;
    repeat (case_decide; simpl in Hr);
    try (destruct (App.py_div _ 2) as [j|]; [|discriminate]);
    simpl in Hr; rewrite ?Ea, ?Eb in Hr; simpl in Hr; simplify_eq;
    split; reflexivity.
Qed.

Lemma ident_resolve (ids : list (string * R * Z * Z * Z * R * R))
    cs i j a b a' b' g g' :
  body_ident <$> cs = ids -> cs !! i = Some a -> cs !! j = Some b ->
  App._resolve_circle_collision a b g = Some (a', b', g') ->
  body_ident <$> <[j := b']> (<[i := a']> cs) = ids.
Proof.
  intros Hrs Ha Hb Hr. destruct (resolve_ident _ _ _ _ _ _ Hr) as [Ha' Hb'].
  rewrite !list_fmap_insert, Ha', Hb'.
  rewrite (list_insert_id (body_ident <$> cs) i)
    by (rewrite list_lookup_fmap, Ha; reflexivity).
  rewrite (list_insert_id (body_ident <$> cs) j)
    by (rewrite list_lookup_fmap, Hb; reflexivity).
  exact Hrs.
Qed.

Lemma step_ident dt self :
  exists self',
    App._step dt self = Some self'
    /\ body_ident <$> App.cookies self' = body_ident <$> App.cookies self.
Proof.
  destruct (step_inv (fun cs => body_ident <$> cs = body_ident <$> App.cookies self)
              (ident_resolve _) dt self) as (self' & Hs & Hr & _ & _).
  - intros s sub_dt cs <-. rewrite <- list_fmap_compose.
    apply list_fmap_ext. intros _ c _. apply step_cookie_ident.
  - intros s cs <-. rewrite <- list_fmap_compose.
    apply list_fmap_ext. intros _ c _. apply sleep_update_ident.
  - reflexivity.
  - exists self'. split; [exact Hs|exact Hr].
Qed.

Lemma substep_at_rest sub_dt self :
  settled self -> App.substep sub_dt self = Some self.
Proof.
  intros [Hall Hapart]. unfold App.substep.
  assert (App.step_cookie self sub_dt <$> App.cookies self = App.cookies self)
    as ->.
  { rewrite <- (list_fmap_id (App.cookies self)) at 2.
    apply Forall_fmap_ext_1. eapply Forall_impl; [exact Hall|].
    intros c [Hs Hu]. apply step_cookie_asleep; assumption. }
  cbn [App.cookies App.rng App.set_cookies].
  set (st := (App.cookies self, App.rng self)).
  assert (App.collision_pass st = Some st) as Hpass.
  { unfold App.collision_pass.
    destruct (foldl_option_inv (fun s => s = st)
                (fun acc i =>
                   foldl (fun acc j => acc ≫= App.resolve_at i j) acc
                     (seq (S i) (length st.1 - S i)))
                (seq 0 (length st.1))) with (s := st)
      as (s' & Hs' & ->); [|reflexivity|exact Hs'].
    intros i s Hi ->. apply elem_of_seq in Hi.
    apply (foldl_option_inv (fun s => s = st)); [|reflexivity].
    intros j s Hj ->. apply elem_of_seq in Hj.
    exists st. split; [|reflexivity].
    subst st. cbn [fst] in *. simpl.
    destruct (lookup_lt_is_Some_2 (App.cookies self) i) as [a Ha]; [lia|].
    destruct (lookup_lt_is_Some_2 (App.cookies self) j) as [b Hb]; [lia|].
    rewrite Ha, Hb. simpl.
    destruct (Hapart i j a b) as [Hpos Hfar]; [lia|exact Ha|exact Hb|].
    rewrite (resolve_no_contact a b (App.rng self) _ _ _ _
               (contact_delta_regular a b _ Hpos) Hfar).
    simpl. rewrite (list_insert_id _ i a) by exact Ha.
    rewrite (list_insert_id _ j b) by exact Hb. reflexivity. }
  assert (foldl (fun acc _ => acc ≫= App.collision_pass) (Some st)
            (seq 0 COLLISION_PASSES) = Some st) as ->.
  { generalize (seq 0 COLLISION_PASSES). intros l.
    induction l as [|? l IH]; simpl; [reflexivity|].
    rewrite Hpass. exact IH. }
  subst st. simpl. destruct self. reflexivity.
Qed.

(** A pile at rest stays as it is: when every body is asleep with its
    underwater flag up to date and no two bodies overlap or coincide,
    [_step] returns the application unchanged, whatever the time step. *)
Theorem step_settled dt self :
  settled self -> App._step dt self = Some self.
Proof.
  intros Hrest. unfold App._step.
  assert (foldl (fun acc _ => acc ≫= App.substep (dt / INR SUBSTEPS)) (Some self)
            (seq 0 SUBSTEPS) = Some self) as ->.
  { generalize (seq 0 SUBSTEPS). intros l.
    induction l as [|? l IH]; simpl; [reflexivity|].
    rewrite (substep_at_rest _ _ Hrest). exact IH. }
  simpl. destruct Hrest as [Hall _].
  assert (App.sleep_update self <$> App.cookies self = App.cookies self) as ->.
  { rewrite <- (list_fmap_id (App.cookies self)) at 2.
    apply Forall_fmap_ext_1. eapply Forall_impl; [exact Hall|].
    intros c [Hs _]. apply sleep_update_asleep. exact Hs. }
  destruct self. reflexivity.
Qed.
End StepMore.

Section StepSamples.
Import Props More Samples.

Lemma resting_pair_settled : settled resting_pair.
Proof.
  split.
  - repeat constructor; simpl; symmetry; apply bool_decide_eq_true_2; simpl; lra.
  - intros i j a b Hij Ha Hb.
    destruct i as [|[|i]], j as [|[|j]]; simpl in Ha, Hb;
      try lia; try discriminate.
    injection Ha as <-. injection Hb as <-. unfold dist2. simpl. lra.
Defined.

Lemma step_settled_witness :
  App._step (1 / 60) resting_pair = Some resting_pair.
Proof. apply (step_settled (1 / 60) resting_pair resting_pair_settled). Defined.
End StepSamples.

(** ** Invariants of the bodies under every operation *)

Section BodyInvariant.
Import Props More Samples.
Implicit Types (c a b : CookieBody.t) (g : random.t) (self : App.t).
Context (Q : CookieBody.t -> Prop).
Hypothesis Q_new : forall c, asleep c = false -> sleep_counter c = 0%nat -> Q c.
Hypothesis Q_step : forall self sub_dt c, Q c -> Q (App.step_cookie self sub_dt c).
Hypothesis Q_sleep : forall self c, Q c -> Q (App.sleep_update self c).
Hypothesis Q_resolve : forall a b g a' b' g',
  App._resolve_circle_collision a b g = Some (a', b', g') ->
  Q a -> Q b -> Q a' /\ Q b'.

Let Q_all (self : App.t) : Prop := Forall Q (App.cookies self).

Lemma spawn_cookie_Q color self : Q_all self -> Q_all (App.spawn_cookie color self).
Proof.
  intros H. unfold Q_all, App.spawn_cookie.
  repeat case_decide; try exact H.
  unfold random.uniform, random.random. simpl.
  apply Forall_app. split; [exact H|].
  apply Forall_singleton. apply Q_new; reflexivity.
Qed.

Lemma shake_Q self : Q_all (App.shake self).
Proof.
  unfold Q_all, App.shake.
  assert (forall l done g,
            Forall Q done ->
            Forall Q
              (fst (foldl (fun (acc : list CookieBody.t * random.t) c =>
                             let '(done, g) := acc in
                             let '(c', g') := App.shake_cookie c g in
                             (done ++ [c'], g')) (done, g) l))) as Hfold.
  { induction l as [|c l IH]; intros done g Hd; simpl; [exact Hd|].
    apply IH. apply Forall_app. split; [exact Hd|].
    apply Forall_singleton, Q_new; reflexivity. }
  specialize (Hfold (App.cookies self) [] (App.rng self) (Forall_nil_2 _)).
  destruct (foldl _ _ _) as [cs g]. exact Hfold.
Qed.

Lemma step_Q dt self :
  Q_all self -> exists self', App._step dt self = Some self' /\ Q_all self'.
Proof.
  intros H.
  destruct (step_inv (Forall Q) (resolve_Forall _ Q_resolve) dt self)
    as (s & ? & ? & _); eauto.
  - intros s sub_dt cs Hcs. apply Forall_fmap.
    eapply Forall_impl; [exact Hcs|]. apply Q_step.
  - intros s cs Hcs. apply Forall_fmap.
    eapply Forall_impl; [exact Hcs|]. apply Q_sleep.
Qed.

Lemma auto_drop_step_Q dt self :
  Q_all self -> Q_all (App._auto_drop_step dt self).
Proof.
  intros H. unfold App._auto_drop_step.
  destruct (App.auto_enabled self); cbn [negb]; [|exact H].
  case_decide; [exact H|].
  destruct (App.auto_drop_plan _ _ _) as [accum n].
  induction (Z.to_nat n) as [|k IH]; simpl; [exact H|].
  unfold App.auto_spawn_one at 1.
  destruct (App.auto_random_color _).
  - destruct (random.choice COLORS _) as [[color|] g].
    + apply spawn_cookie_Q. exact IH.
    + exact IH.
  - apply spawn_cookie_Q. exact IH.
Qed.

Lemma defender_drop_step_Q self :
  Q_all self -> Q_all (App._defender_drop_step self).
Proof.
  intros H. unfold App._defender_drop_step.
  destruct (App.def_auto_drop self); cbn [negb]; [|exact H].
  generalize MAX_DROPS_PER_TICK. intros budget.
  revert self H. induction budget as [|k IH]; intros self H; simpl; [exact H|].
  destruct (App._defender_pending_colors self) as [|color rest]; [exact H|].
  apply IH, spawn_cookie_Q. exact H.
Qed.

Lemma operations_Q self :
  Q_all self ->
  (forall color, Q_all (App.spawn_cookie color self))
  /\ Q_all (App.shake self)
  /\ Q_all (App.clear self)
  /\ (forall feed, Q_all (App._defender_sync_once feed self))
  /\ (forall dt, exists self', App._step dt self = Some self' /\ Q_all self')
  /\ (forall now, exists self', App._loop now self = Some self' /\ Q_all self').
Proof.
  intros H. repeat apply conj.
  - intros color. apply spawn_cookie_Q, H.
  - apply shake_Q.
  - apply Forall_nil_2.
  - intros [msg|threats]; simpl; [exact H|].
    destruct (foldl _ _ _) as [[|? ?] ?]; exact H.
  - intros dt. apply step_Q, H.
  - intros now. unfold App._loop. apply step_Q.
    apply defender_drop_step_Q, auto_drop_step_Q. exact H.
Qed.
End BodyInvariant.

Section RestState.
Import Props More Samples.
Implicit Types (c a b : CookieBody.t) (g : random.t) (self : App.t).

Lemma rest_ok_eq c c' :
  asleep c' = asleep c -> sleep_counter c' = sleep_counter c ->
  rest_ok c -> rest_ok c'.
Proof. unfold rest_ok, rest_flag. intros -> ->. auto. Qed.

Lemma apply_underwater_mode_counter self c :
  sleep_counter (App._apply_underwater_mode self c) = sleep_counter c.
Proof.
  unfold App._apply_underwater_mode.
  case_decide; [reflexivity|]. case_match; reflexivity.
Qed.

Lemma collide_cookie_counter col c :
  sleep_counter (EllipseBowlCollider.collide_cookie col c) = sleep_counter c.
Proof.
  unfold EllipseBowlCollider.collide_cookie.
  repeat case_decide; reflexivity.
Qed.

Lemma rest_ok_step self sub_dt c : rest_ok c -> rest_ok (App.step_cookie self sub_dt c).
Proof.
  intros H.
  assert (rest_ok (App._apply_underwater_mode self c)) as H1.
  { eapply rest_ok_eq; [| |exact H].
    - apply apply_underwater_mode_asleep.
    - apply apply_underwater_mode_counter. }
  unfold App.step_cookie. case_match; [exact H1|].
  eapply rest_ok_eq; [| |exact H1].
  - rewrite collide_cookie_asleep. case_match; reflexivity.
  - rewrite collide_cookie_counter. case_match; reflexivity.
Qed.

Lemma rest_ok_sleep self c : rest_ok c -> rest_ok (App.sleep_update self c).
Proof.
  unfold rest_ok, rest_flag, App.sleep_update, SLEEP_FRAMES.
  intros [Hf Hle].
  destruct (asleep c) eqn:Hs; cbv iota; [rewrite Hs; auto|].
  symmetry in Hf. apply bool_decide_eq_false_1 in Hf.
  repeat case_decide; simpl in *; rewrite ?Hs; split;
    try lia; try reflexivity; symmetry;
    first [apply bool_decide_eq_true_2; lia | apply bool_decide_eq_false_2; lia].
Qed.

Lemma rest_ok_resolve a b g a' b' g' :
  App._resolve_circle_collision a b g = Some (a', b', g') ->
  rest_ok a -> rest_ok b -> rest_ok a' /\ rest_ok b'.
Proof.
  unfold App._resolve_circle_collision.
  destruct (App.contact_delta a b g) as [[[dx dy] d2] g1].
  intros Hr. unfold rest_ok, rest_flag, SLEEP_FRAMES.
  case_decide; [simplify_eq; auto|].
  destruct (App.py_sqrt d2) as [dist|]; [|discriminate]. simpl in Hr.
  destruct (App.py_div dx dist) as [nx|]; [|discriminate]. simpl in Hr.
  destruct (App.py_div dy dist) as [ny|]; [|discriminate]. simpl in Hr.
  destruct (asleep a) eqn:Ea, (asleep b) eqn:Eb; simpl in Hr;
    repeat (case_decide; simpl in Hr);
    try (destruct (App.py_div _ 2) as [j|]; [|discriminate]);
    simpl in Hr; rewrite ?Ea, ?Eb in Hr; simpl in Hr; simplify_eq;
    simpl; rewrite ?Ea, ?Eb; intros [? ?] [? ?];
    repeat split; auto; lia.
Qed.

(** The rest state stays coherent: if for every body the asleep flag says
    that the rest counter has reached [SLEEP_FRAMES], and no counter has run
    past it, the same holds after a spawn, a shake, a clear, a Defender
    poll, a [_step] and a whole frame of [_loop]. *)
Theorem rest_state_invariant self :
  Forall rest_ok (App.cookies self) ->
  (forall color, Forall rest_ok (App.cookies (App.spawn_cookie color self)))
  /\ Forall rest_ok (App.cookies (App.shake self))
  /\ Forall rest_ok (App.cookies (App.clear self))
  /\ (forall feed, Forall rest_ok (App.cookies (App._defender_sync_once feed self)))
  /\ (forall dt, exists self',
        App._step dt self = Some self' /\ Forall rest_ok (App.cookies self'))
  /\ (forall now, exists self',
        App._loop now self = Some self' /\ Forall rest_ok (App.cookies self')).
Proof.
  apply (operations_Q rest_ok).
  - intros c Hs Hn. unfold rest_ok, rest_flag, SLEEP_FRAMES. rewrite Hs, Hn.
    split; [reflexivity|lia].
  - apply rest_ok_step.
  - apply rest_ok_sleep.
  - apply rest_ok_resolve.
Qed.

Lemma rest_state_invariant_witness :
  exists self',
    App._loop (1 / 60) resting_pair = Some self'
    /\ Forall rest_ok (App.cookies self').
Proof.
  apply (rest_state_invariant resting_pair).
  repeat constructor.
Defined.
End RestState.

(** ** Shake *)

Section Shake.
Import Props More Samples.
Implicit Types (c : CookieBody.t) (g : random.t) (self : App.t).

Lemma fmap_imap_keep {A B} (h : A -> B) (f : nat -> A -> A) (l : list A) :
  (forall i a, h (f i a) = h a) -> h <$> imap f l = h <$> l.
Proof.
  revert f. induction l as [|a l IH]; intros f Hf; simpl; [reflexivity|].
  rewrite Hf. f_equal. apply IH. intros i b. apply Hf.
Qed.

Lemma Forall2_imap_intro {A} (R : A -> A -> Prop) (f : nat -> A -> A) (l : list A) :
  (forall i a, R a (f i a)) -> Forall2 R l (imap f l).
Proof.
  revert f. induction l as [|a l IH]; intros f Hf; simpl; constructor.
  - apply Hf.
  - apply IH. intros i b. apply Hf.
Qed.

(** The body that [shake] makes of the [i]-th body: it reads the draws
    [2 i] and [2 i + 1] after the generator's position. *)
Lemma shake_closed_form self :
  App.shake self =
    App.set_rng
      (random.mk (random.stream (App.rng self))
                 (random.pos (App.rng self) + 2 * length (App.cookies self)))
      (App.set_cookies
         (imap (fun i c =>
                  (App.shake_cookie c
                     (random.mk (random.stream (App.rng self))
                                (random.pos (App.rng self) + 2 * i))).1)
               (App.cookies self))
         self).
Proof.
  unfold App.shake.
  assert (forall l done g,
            foldl (fun (acc : list CookieBody.t * random.t) c =>
                     let '(done, g) := acc in
                     let '(c', g') := App.shake_cookie c g in
                     (done ++ [c'], g')) (done, g) l
            = (done ++ imap (fun i c =>
                               (App.shake_cookie c
                                  (random.mk (random.stream g)
                                             (random.pos g + 2 * i))).1) l,
               random.mk (random.stream g) (random.pos g + 2 * length l)))
    as Hfold.
  { induction l as [|c l IH]; intros done g.
    - simpl. rewrite app_nil_r, Nat.add_0_r. destruct g. reflexivity.
    - cbn [foldl].
      assert (App.shake_cookie c g
              = ((App.shake_cookie c g).1,
                 random.mk (random.stream g) (S (S (random.pos g)))))
        as -> by reflexivity.
      cbv beta iota. rewrite IH. cbn [random.stream random.pos].
      rewrite <- app_assoc. cbn [imap app length].
      f_equal.
      + f_equal. f_equal.
        * rewrite Nat.mul_0_r, Nat.add_0_r. destruct g. reflexivity.
        * apply imap_ext. intros i a _. unfold compose.
          replace (S (S (random.pos g)) + 2 * i)%nat
            with (random.pos g + 2 * S i)%nat by lia.
          reflexivity.
      + f_equal. lia. }
  rewrite Hfold. reflexivity.
Qed.

(** [shake] wakes every body and adds to its velocity a kick within
    [-760, 760) horizontally and [-560, 220) vertically; positions,
    identities and underwater flags stay, nothing but bodies and generator
    changes, and two draws are read per body. *)
Theorem shake_kicks self :
  random.unit_draws (App.rng self) ->
  let self' := App.shake self in
  only_bodies_changed self self'
  /\ Forall2 (fun c c' =>
                body_ident c' = body_ident c
                /\ x c' = x c /\ y c' = y c /\ underwater c' = underwater c
                /\ asleep c' = false /\ sleep_counter c' = 0%nat
                /\ -760 <= vx c' - vx c < 760
                /\ -560 <= vy c' - vy c < 220)
             (App.cookies self) (App.cookies self')
  /\ random.pos (App.rng self')
     = (random.pos (App.rng self) + 2 * length (App.cookies self))%nat.
Proof.
  intros Hu. cbv zeta. rewrite shake_closed_form.
  split; [destruct self; reflexivity|].
  split; [|reflexivity].
  cbn [App.cookies App.set_rng App.set_cookies].
  apply Forall2_imap_intro. intros i c.
  unfold App.shake_cookie, random.uniform, random.random, body_ident.
  cbn.
  pose proof (Hu (random.pos (App.rng self) + (i + (i + 0)))%nat) as H1.
  pose proof (Hu (S (random.pos (App.rng self) + (i + (i + 0))))%nat) as H2.
  repeat split; try reflexivity; lra.
Qed.

Lemma shake_kicks_witness :
  only_bodies_changed pile (App.shake pile)
  /\ random.pos (App.rng (App.shake pile)) = 4%nat.
Proof.
  destruct (shake_kicks pile) as (H1 & _ & H3).
  - intros n. simpl. lra.
  - split; [exact H1|exact H3].
Defined.

Lemma shake_colors self :
  color_name <$> App.cookies (App.shake self) = color_name <$> App.cookies self.
Proof.
  rewrite shake_closed_form. cbn [App.cookies App.set_rng App.set_cookies].
  apply fmap_imap_keep. intros i c. reflexivity.
Qed.
End Shake.

(** ** The per-colour counters *)

Section Counts.
Import Props More Samples.
Implicit Types (c : CookieBody.t) (g : random.t) (self : App.t) (color : string).

Lemma filter_color_length color (cs cs' : list CookieBody.t) :
  color_name <$> cs' = color_name <$> cs ->
  length (filter (fun c => color_name c = color) cs')
  = length (filter (fun c => color_name c = color) cs).
Proof.
  revert cs'. induction cs as [|c cs IH]; intros [|c' cs'] H; simpl in H;
    try discriminate; [reflexivity|].
  injection H as Hc Ht. rewrite !filter_cons, Hc.
  case_decide; simpl; rewrite (IH cs' Ht); reflexivity.
Qed.

Lemma ident_colors (cs cs' : list CookieBody.t) :
  body_ident <$> cs' = body_ident <$> cs ->
  color_name <$> cs' = color_name <$> cs.
Proof.
  intros H.
  apply (f_equal (fmap (fun p : string * R * Z * Z * Z * R * R =>
                          p.1.1.1.1.1.1))) in H.
  rewrite <- !list_fmap_compose in H. exact H.
Qed.

Lemma counts_ok_same self self' :
  App.counts self' = App.counts self ->
  color_name <$> App.cookies self' = color_name <$> App.cookies self ->
  counts_ok self -> counts_ok self'.
Proof.
  intros Hc Hn H color. rewrite Hc, (filter_color_length color _ _ Hn). apply H.
Qed.

Lemma spawn_cookie_counts color self :
  counts_ok self -> counts_ok (App.spawn_cookie color self).
Proof.
  intros H. unfold App.spawn_cookie.
  repeat case_decide; try exact H.
  unfold random.uniform, random.random. cbv beta iota zeta.
  intros color'. cbn [App.counts App.cookies App.set_rng App.set_canvas_next
                      App.set_counts App.set_cookies].
  rewrite filter_app, length_app, <- (H color').
  destruct (decide (color = color')) as [->|Hne].
  - rewrite lookup_insert_eq, filter_cons_True by reflexivity. simpl. lia.
  - rewrite lookup_insert_ne, filter_cons_False by (simpl; congruence).
    simpl. lia.
Qed.

Lemma auto_drop_step_counts dt self :
  counts_ok self -> counts_ok (App._auto_drop_step dt self).
Proof.
  intros H. unfold App._auto_drop_step.
  destruct (App.auto_enabled self); cbn [negb]; [|exact H].
  case_decide; [exact H|].
  destruct (App.auto_drop_plan _ _ _) as [accum n].
  induction (Z.to_nat n) as [|k IH]; simpl; [exact H|].
  unfold App.auto_spawn_one at 1.
  destruct (App.auto_random_color _).
  - destruct (random.choice COLORS _) as [[color|] g].
    + apply spawn_cookie_counts. exact IH.
    + exact IH.
  - apply spawn_cookie_counts. exact IH.
Qed.

Lemma defender_drop_step_counts self :
  counts_ok self -> counts_ok (App._defender_drop_step self).
Proof.
  intros H. unfold App._defender_drop_step.
  destruct (App.def_auto_drop self); cbn [negb]; [|exact H].
  generalize MAX_DROPS_PER_TICK. intros budget.
  revert self H. induction budget as [|k IH]; intros self H; simpl; [exact H|].
  destruct (App._defender_pending_colors self) as [|color rest]; [exact H|].
  apply IH, spawn_cookie_counts. exact H.
Qed.

Lemma step_counts dt self :
  counts_ok self ->
  exists self', App._step dt self = Some self' /\ counts_ok self'.
Proof.
  intros H. destruct (step_ident dt self) as (self' & Hs & Hi).
  pose proof (step_only_bodies _ _ _ Hs) as Hf.
  exists self'. split; [exact Hs|].
  apply (counts_ok_same self); [|apply ident_colors; exact Hi|exact H].
  rewrite Hf. reflexivity.
Qed.

(** The counters that the statistics and the export show agree with the
    bowl: if every colour's counter is the number of bodies of that colour (an
    absent counter standing for 0), the same holds after a spawn (accepted or
    rejected), a shake, a clear, a Defender poll, a [_step] and a whole frame
    of [_loop]. *)
Theorem counts_invariant self :
  counts_ok self ->
  (forall color, counts_ok (App.spawn_cookie color self))
  /\ counts_ok (App.shake self)
  /\ counts_ok (App.clear self)
  /\ (forall feed, counts_ok (App._defender_sync_once feed self))
  /\ (forall dt, exists self', App._step dt self = Some self' /\ counts_ok self')
  /\ (forall now, exists self', App._loop now self = Some self' /\ counts_ok self').
Proof.
  intros H. repeat apply conj.
  - intros color. apply spawn_cookie_counts, H.
  - apply (counts_ok_same self); [|apply shake_colors|exact H].
    rewrite shake_closed_form. reflexivity.
  - intros color. simpl. rewrite lookup_empty. reflexivity.
  - intros [msg|threats]; simpl; [exact H|].
    destruct (foldl _ _ _) as [[|? ?] ?]; exact H.
  - intros dt. apply step_counts, H.
  - intros now. unfold App._loop. apply step_counts.
    apply defender_drop_step_counts, auto_drop_step_counts. exact H.
Qed.

Lemma counts_invariant_witness :
  counts_ok (App.spawn_cookie "red" app0).
Proof.
  apply (counts_invariant app0).
  intros color. simpl. rewrite lookup_empty. reflexivity.
Defined.
End Counts.

(** ** A fresh body *)

Section Fresh.
Import Props More Samples.
Implicit Types (c : CookieBody.t) (g : random.t) (self : App.t) (color : string).

(** In the funnel zone of a bowl whose opening is narrower than the body
    plus its margins, [collide_cookie] does not keep the horizontal
    position: it puts the body at [rim_left + r + 6] when it is left of that
    point, and at [rim_right - r - 6] otherwise. *)
Theorem funnel_narrow_opening col c :
  in_funnel col c ->
  EllipseBowlCollider.rim_right col - EllipseBowlCollider.rim_left col
    < 2 * r c + 12 ->
  let c' := EllipseBowlCollider.collide_cookie col c in
  c' = set_x (if decide (x c < EllipseBowlCollider.rim_left col + r c + 6)
              then EllipseBowlCollider.rim_left col + r c + 6
              else EllipseBowlCollider.rim_right col - r c - 6) c
  /\ x c' <> x c.
Proof.
  unfold in_funnel, EllipseBowlCollider.rim_left, EllipseBowlCollider.rim_right.
  intros Hf Hn. cbv zeta.
  unfold EllipseBowlCollider.collide_cookie. cbv zeta.
  rewrite (decide_True (P := y c < _)) by exact Hf.
  unfold EllipseBowlCollider.opening_clamp_x, clamp.
  destruct (decide (x c < EllipseBowlCollider._rim_left col + r c + 6)) as [Hx|Hx].
  - split; [reflexivity|]. simpl. lra.
  - rewrite decide_True by lra. split; [reflexivity|]. simpl. lra.
Qed.

Lemma funnel_narrow_opening_witness :
  x (EllipseBowlCollider.collide_cookie bowl big) <> x big.
Proof.
  destruct bowl_geometry as (_ & _ & _ & _ & Hy & Hl & Hr).
  apply (funnel_narrow_opening bowl big).
  - unfold in_funnel. rewrite Hy. simpl. lra.
  - unfold EllipseBowlCollider.rim_left, EllipseBowlCollider.rim_right.
    rewrite Hl, Hr. simpl. lra.
Defined.
End Fresh.

(** ** The two drop steps of a frame *)

Section Drops.
Import Props More Samples.
Implicit Types (c : CookieBody.t) (g : random.t) (self : App.t) (color : string).

Lemma spawn_cookie_cases color self :
  (spawn_rejects self
   /\ App.cookies (App.spawn_cookie color self) = App.cookies self)
  \/ (~ spawn_rejects self
      /\ exists c, App.cookies (App.spawn_cookie color self) = App.cookies self ++ [c]
                   /\ color_name c = color).
Proof.
  destruct (spawn_rejects_dec self) as [Hrej|Hacc].
  - left. split; [exact Hrej|].
    rewrite (spawn_cookie_reject color self Hrej). reflexivity.
  - right. split; [exact Hacc|].
    destruct (spawn_cookie_accept color self Hacc) as (c & Hc & Hn & _).
    exists c. split; assumption.
Qed.

Lemma defender_drain_bodies budget self :
  exists new,
    App.cookies (App.defender_drain budget self) = App.cookies self ++ new
    /\ (color_name <$> new) `prefix_of` take budget (App._defender_pending_colors self)
    /\ (~ spawn_rejects (App.defender_drain budget self) ->
        color_name <$> new = take budget (App._defender_pending_colors self)).
Proof.
  revert self. induction budget as [|k IH]; intros self.
  { exists []. simpl. rewrite app_nil_r. split; [reflexivity|].
    split; [apply prefix_nil|reflexivity]. }
  destruct (spawn_rejects_dec self) as [Hrej|Hacc].
  { exists []. rewrite app_nil_r.
    split; [apply (defender_drain_rejected (S k) self Hrej)|].
    split; [apply prefix_nil|].
    intros Hfree. exfalso. apply Hfree.
    eapply spawn_rejects_radii; [|exact Hrej].
    apply defender_drain_radii. exact Hrej. }
  simpl. destruct (App._defender_pending_colors self) as [|color rest] eqn:Hp.
  { exists []. rewrite app_nil_r. split; [reflexivity|].
    split; [apply prefix_nil|reflexivity]. }
  set (self0 := App.set_defender_pending_colors rest self).
  destruct (spawn_cookie_accept color self0 Hacc) as (c & Hc & Hn & _).
  pose proof (spawn_cookie_frame color self0) as (_ & _ & _ & Hpend & _).
  destruct (IH (App.spawn_cookie color self0)) as (new & Hnew & Hpre & Hall).
  rewrite Hpend in Hpre, Hall. cbn [App._defender_pending_colors self0
    App.set_defender_pending_colors] in Hpre, Hall.
  exists (c :: new). rewrite Hnew, Hc. cbn [App.cookies self0
    App.set_defender_pending_colors]. rewrite <- app_assoc.
  split; [reflexivity|]. rewrite fmap_cons, Hn. split.
  - apply prefix_cons. exact Hpre.
  - intros Hfree. rewrite (Hall Hfree). reflexivity.
Qed.

(** [_defender_drop_step] only appends bodies: at most
    [MAX_DROPS_PER_TICK] of them, whose colours are, in order, a prefix of
    the first [MAX_DROPS_PER_TICK] pending colours.  With detection drops
    enabled, one of those colours is left without a body only if the bowl
    rejects spawns afterwards. *)
Theorem defender_drop_step_bodies self :
  exists new,
    App.cookies (App._defender_drop_step self) = App.cookies self ++ new
    /\ (length new <= MAX_DROPS_PER_TICK)%nat
    /\ (color_name <$> new)
         `prefix_of` take MAX_DROPS_PER_TICK (App._defender_pending_colors self)
    /\ (App.def_auto_drop self = true ->
        color_name <$> new
          <> take MAX_DROPS_PER_TICK (App._defender_pending_colors self) ->
        spawn_rejects (App._defender_drop_step self)).
Proof.
  unfold App._defender_drop_step.
  destruct (App.def_auto_drop self); cbn [negb].
  - destruct (defender_drain_bodies MAX_DROPS_PER_TICK self)
      as (new & Hnew & Hpre & Hall).
    exists new. split; [exact Hnew|]. split; [|split; [exact Hpre|]].
    + apply prefix_length in Hpre. rewrite length_fmap, length_take in Hpre. lia.
    + intros _ Hne.
      destruct (spawn_rejects_dec (App.defender_drain MAX_DROPS_PER_TICK self))
        as [Hrej|Hfree]; [exact Hrej|].
      exfalso. apply Hne, Hall, Hfree.
  - exists []. rewrite app_nil_r. split; [reflexivity|].
    split; [simpl; lia|]. split; [apply prefix_nil|discriminate].
Qed.

Lemma defender_drop_step_bodies_witness :
  spawn_rejects (App._defender_drop_step full).
Proof.
  destruct (defender_drop_step_bodies full) as (new & Hnew & _ & _ & Hlost).
  apply Hlost; [reflexivity|].
  assert (new = []) as ->.
  { assert (spawn_rejects full) as Hrej by (left; exact full_hard_stopped).
    pose proof (defender_drain_rejected MAX_DROPS_PER_TICK full Hrej) as [Hc _].
    change (App.defender_drain MAX_DROPS_PER_TICK full)
      with (App._defender_drop_step full) in Hc.
    rewrite Hc in Hnew.
    rewrite <- (app_nil_r (App.cookies full)) in Hnew at 1.
    apply app_inv_head in Hnew. symmetry. exact Hnew. }
  discriminate.
Defined.

Lemma choice_COLORS g :
  exists color, (random.choice COLORS g).1 = Some color /\ color ∈ COLORS.
Proof.
  unfold random.choice, random.random. cbn [fst].
  set (i := (_ `mod` _)%nat).
  assert (i < length COLORS)%nat as Hi
    by (subst i; apply Nat.mod_upper_bound; simpl; lia).
  destruct (lookup_lt_is_Some_2 COLORS i Hi) as [color Hc].
  exists color. split; [exact Hc|]. eapply list_elem_of_lookup_2. exact Hc.
Qed.

(** The colour that a turn of the auto-drop loop asks for. *)
Lemma auto_spawn_one_bodies self :
  App.auto_random_color (App.auto_spawn_one self) = App.auto_random_color self
  /\ App.auto_color (App.auto_spawn_one self) = App.auto_color self
  /\ exists new,
       App.cookies (App.auto_spawn_one self) = App.cookies self ++ new
       /\ (length new <= 1)%nat
       /\ Forall (fun c =>
                    if App.auto_random_color self then color_name c ∈ COLORS
                    else color_name c
                         = (if String.eqb (App.auto_color self) ""
                            then "green"%string else App.auto_color self))
                 new.
Proof.
  unfold App.auto_spawn_one.
  destruct (App.auto_random_color self) eqn:Hrc.
  - destruct (choice_COLORS (App.rng self)) as (color & Hch & Hin).
    destruct (random.choice COLORS (App.rng self)) as [o g]. cbn [fst] in Hch.
    subst o.
    pose proof (spawn_cookie_frame color (App.set_rng g self))
      as (_ & _ & _ & _ & _ & _ & _ & _ & Hr & Hc & _).
    split; [rewrite Hr; exact Hrc|]. split; [rewrite Hc; reflexivity|].
    destruct (spawn_cookie_cases color (App.set_rng g self))
      as [[_ Hsame]|[_ (c & Hc' & Hn)]].
    + exists []. rewrite app_nil_r. split; [exact Hsame|].
      split; [simpl; lia|constructor].
    + exists [c]. split; [exact Hc'|]. split; [simpl; lia|].
      apply Forall_singleton. rewrite Hn. exact Hin.
  - match goal with
    | |- context [App.spawn_cookie ?col self] => set (color := col)
    end.
    pose proof (spawn_cookie_frame color self)
      as (_ & _ & _ & _ & _ & _ & _ & _ & Hr & Hc & _).
    split; [rewrite Hr; exact Hrc|]. split; [rewrite Hc; reflexivity|].
    destruct (spawn_cookie_cases color self)
      as [[_ Hsame]|[_ (c & Hc' & Hn)]].
    + exists []. rewrite app_nil_r. split; [exact Hsame|].
      split; [simpl; lia|constructor].
    + exists [c]. split; [exact Hc'|]. split; [simpl; lia|].
      apply Forall_singleton. exact Hn.
Qed.

Lemma auto_spawn_iter_bodies n self :
  App.auto_random_color (Nat.iter n App.auto_spawn_one self)
    = App.auto_random_color self
  /\ App.auto_color (Nat.iter n App.auto_spawn_one self) = App.auto_color self
  /\ exists new,
       App.cookies (Nat.iter n App.auto_spawn_one self) = App.cookies self ++ new
       /\ (length new <= n)%nat
       /\ Forall (fun c =>
                    if App.auto_random_color self then color_name c ∈ COLORS
                    else color_name c
                         = (if String.eqb (App.auto_color self) ""
                            then "green"%string else App.auto_color self))
                 new.
Proof.
  induction n as [|n (IHr & IHc & new & Hnew & Hlen & Hcol)].
  { split; [reflexivity|]. split; [reflexivity|].
    exists []. simpl. rewrite app_nil_r. split; [reflexivity|].
    split; [lia|constructor]. }
  rewrite !Nat.iter_succ.
  destruct (auto_spawn_one_bodies (Nat.iter n App.auto_spawn_one self))
    as (Hr & Hc & new1 & Hnew1 & Hlen1 & Hcol1).
  rewrite Hr, Hc, IHr, IHc. split; [reflexivity|]. split; [reflexivity|].
  exists (new ++ new1). rewrite Hnew1, Hnew, <- app_assoc.
  split; [reflexivity|]. split; [rewrite length_app; lia|].
  apply Forall_app. split; [exact Hcol|].
  rewrite IHr, IHc in Hcol1. exact Hcol1.
Qed.

Lemma auto_drop_plan_count accum dt rate :
  (Z.to_nat (App.auto_drop_plan accum dt rate).2 <= 10)%nat.
Proof.
  unfold App.auto_drop_plan. case_decide; cbn [snd]; lia.
Qed.

(** [_auto_drop_step] only appends bodies, at most 10 of them whatever the
    frame time and the rate; their colours are drawn from [COLORS] when
    random colours are on, and are otherwise the selected colour, green
    standing in for an empty selection. *)
Theorem auto_drop_step_bodies dt self :
  exists new,
    App.cookies (App._auto_drop_step dt self) = App.cookies self ++ new
    /\ (length new <= 10)%nat
    /\ Forall (fun c =>
                 if App.auto_random_color self then color_name c ∈ COLORS
                 else color_name c
                      = (if String.eqb (App.auto_color self) ""
                         then "green"%string else App.auto_color self))
              new.
Proof.
  unfold App._auto_drop_step.
  destruct (App.auto_enabled self); cbn [negb].
  2: { exists []. simpl. rewrite app_nil_r. split; [reflexivity|].
       split; [lia|constructor]. }
  case_decide.
  { exists []. simpl. rewrite app_nil_r. split; [reflexivity|].
    split; [lia|constructor]. }
  pose proof (auto_drop_plan_count (App._auto_accum self) dt
                (Rmax 0 (App.auto_rate self))) as Hn.
  destruct (App.auto_drop_plan _ _ _) as [accum n]. cbn [snd] in Hn.
  destruct (auto_spawn_iter_bodies (Z.to_nat n) (App.set_auto_accum accum self))
    as (_ & _ & new & Hnew & Hlen & Hcol).
  exists new. split; [exact Hnew|]. split; [lia|exact Hcol].
Qed.
Lemma defender_drop_step_appends self :
  exists new,
    App.cookies (App._defender_drop_step self) = App.cookies self ++ new
    /\ (length new <= MAX_DROPS_PER_TICK)%nat.
Proof.
  unfold App._defender_drop_step.
  destruct (App.def_auto_drop self); cbn [negb].
  - destruct (defender_drain_bodies MAX_DROPS_PER_TICK self)
      as (new & Hnew & Hpre & _).
    exists new. split; [exact Hnew|].
    apply prefix_length in Hpre. rewrite length_fmap, length_take in Hpre. lia.
  - exists []. rewrite app_nil_r. split; [reflexivity|simpl; lia].
Qed.

Lemma auto_drop_step_appends dt self :
  exists new,
    App.cookies (App._auto_drop_step dt self) = App.cookies self ++ new
    /\ (length new <= 10)%nat.
Proof.
  unfold App._auto_drop_step.
  destruct (App.auto_enabled self); cbn [negb].
  2: { exists []. simpl. rewrite app_nil_r. split; [reflexivity|lia]. }
  case_decide.
  { exists []. simpl. rewrite app_nil_r. split; [reflexivity|lia]. }
  pose proof (auto_drop_plan_count (App._auto_accum self) dt
                (Rmax 0 (App.auto_rate self))) as Hn.
  destruct (App.auto_drop_plan _ _ _) as [accum n]. cbn [snd] in Hn.
  destruct (auto_spawn_iter_bodies (Z.to_nat n) (App.set_auto_accum accum self))
    as (_ & _ & new & Hnew & Hlen & _).
  exists new. split; [exact Hnew|lia].
Qed.
End Drops.

(** ** A frame *)

Section Frame.
Import Props More Samples.
Implicit Types (c : CookieBody.t) (g : random.t) (self : App.t) (color : string).

(** The bowl, the water line and the two clocks. *)
Let fixed (self : App.t) : EllipseBowlCollider.t * R * R * R :=
  (App.collider self, App.water_y self, App._sim_t self, App._last_t self).

Lemma spawn_cookie_fixed color self : fixed (App.spawn_cookie color self) = fixed self.
Proof.
  pose proof (spawn_cookie_frame color self)
    as (H1 & H2 & _ & _ & _ & _ & _ & _ & _ & _ & _ & H3 & H4).
  unfold fixed. rewrite H1, H2, H3, H4. reflexivity.
Qed.

Lemma auto_drop_step_fixed dt self : fixed (App._auto_drop_step dt self) = fixed self.
Proof.
  unfold App._auto_drop_step.
  destruct (App.auto_enabled self); cbn [negb]; [|reflexivity].
  case_decide; [reflexivity|].
  destruct (App.auto_drop_plan _ _ _) as [accum n].
  induction (Z.to_nat n) as [|k IH]; [reflexivity|].
  rewrite Nat.iter_succ. unfold App.auto_spawn_one at 1.
  destruct (App.auto_random_color _).
  - destruct (random.choice COLORS _) as [[color|] g].
    + rewrite spawn_cookie_fixed. exact IH.
    + exact IH.
  - rewrite spawn_cookie_fixed. exact IH.
Qed.

Lemma defender_drop_step_fixed self : fixed (App._defender_drop_step self) = fixed self.
Proof.
  unfold App._defender_drop_step.
  destruct (App.def_auto_drop self); cbn [negb]; [|reflexivity].
  generalize MAX_DROPS_PER_TICK. intros budget.
  revert self. induction budget as [|k IH]; intros self; simpl; [reflexivity|].
  destruct (App._defender_pending_colors self) as [|color rest]; [reflexivity|].
  rewrite IH, spawn_cookie_fixed. reflexivity.
Qed.

End Frame.

(** ** Clear and the Defender feed *)

Section ClearAndFeed.
Import Props More Samples.
Implicit Types (c : CookieBody.t) (self : App.t) (color : string).

Lemma new_threats_seen prev (threats : list Threat) :
  snapshot_ids threats ⊆ prev -> new_threats prev threats = [].
Proof.
  unfold new_threats, snapshot_ids, snapshot_rids.
  induction threats as [|th threats IH]; intros Hsub; [reflexivity|].
  rewrite filter_cons_False.
  - apply IH. intros rid Hrid. apply Hsub. rewrite fmap_cons. set_solver.
  - intros Hnot. apply Hnot, Hsub. rewrite fmap_cons. set_solver.
Qed.

(** A successful poll, field by field. *)
Lemma sync_snapshot_state threats self :
  App._defender_sync_once (Snapshot threats) self
  = let base :=
      App.set_defender_last_ids (∅ ∪ snapshot_ids threats)
        (App.set_defender_total (length threats)
           (App.set_defender_last_error "" self)) in
    match threat_color <$> new_threats (App._defender_last_ids self) threats with
    | [] => base
    | color :: colors =>
        App.set_defender_pending_colors
          (App._defender_pending_colors self ++ color :: colors) base
    end.
Proof.
  unfold App._defender_sync_once. rewrite sync_fold. cbv zeta.
  rewrite app_nil_l.
  destruct (threat_color <$> _) as [|color colors]; reflexivity.
Qed.

Lemma sync_twice threats self :
  App._defender_sync_once (Snapshot threats)
    (App._defender_sync_once (Snapshot threats) self)
  = App._defender_sync_once (Snapshot threats) self.
Proof.
  rewrite (sync_snapshot_state threats (App._defender_sync_once _ self)).
  destruct (sync_snapshot threats self) as [_ Hids]. rewrite Hids.
  rewrite new_threats_seen by reflexivity. cbn [fmap list_fmap].
  rewrite sync_snapshot_state. cbv zeta.
  destruct (threat_color <$> _) as [|color colors]; destruct self; reflexivity.
Qed.

(** Polling is idempotent on the state that the simulation reads: a second
    poll that shows the same detections leaves the pending queue, the
    identifier set, the detection total, the error text and everything else
    of the application as they are, also when a failed poll came in between,
    whose error text the successful poll wipes.  A successful poll records
    the number of detections shown.  (The status text and the fetch time of
    the Defender panel are not part of this state.) *)
Theorem sync_repoll threats self :
  let self' := App._defender_sync_once (Snapshot threats) self in
  App._defender_sync_once (Snapshot threats) self' = self'
  /\ (forall msg,
        App._defender_sync_once (Snapshot threats)
          (App._defender_sync_once (FeedError msg) self') = self')
  /\ App._defender_total self' = length threats
  /\ App._defender_last_error self' = ""%string.
Proof.
  cbv zeta. split; [apply sync_twice|]. split.
  - intros msg. rewrite <- (sync_twice threats self) at 2.
    rewrite !(sync_snapshot_state threats (App._defender_sync_once _ _)).
    cbn [App._defender_sync_once App._defender_last_ids
         App._defender_pending_colors App.set_defender_last_error].
    cbv zeta.
    destruct (threat_color <$> _) as [|color colors];
      destruct (App._defender_sync_once (Snapshot threats) self); reflexivity.
  - rewrite sync_snapshot_state. cbv zeta.
    destruct (threat_color <$> _) as [|color colors]; split; reflexivity.
Qed.

(** [clear] empties the bowl from any state: the fill ratio is 0, the next
    spawn is accepted, a step has nothing to move, and clearing again
    changes nothing.  It keeps the generator, the canvas ids and the
    identifiers of the last snapshot, so detections that were waiting when
    the bowl was cleared are not enqueued again by a poll that still shows
    them. *)
Theorem clear_resets self :
  let self' := App.clear self in
  App._fill_ratio self' = 0
  /\ ~ spawn_rejects self'
  /\ App.clear self' = self'
  /\ (forall dt, App._step dt self' = Some self')
  /\ App.rng self' = App.rng self
  /\ App.canvas_next self' = App.canvas_next self
  /\ App._defender_last_ids self' = App._defender_last_ids self
  /\ (forall threats,
        App._defender_pending_colors
          (App._defender_sync_once (Snapshot threats)
             (App.clear (App._defender_sync_once (Snapshot threats) self)))
        = []).
Proof.
  cbv zeta.
  assert (App._fill_ratio (App.clear self) = 0) as Hz.
  { unfold App._fill_ratio. cbn [App.cookies App.clear App.set_status
      App.set_defender_pending_colors App.set_auto_accum App.set_counts
      App.set_cookies foldl]. unfold Rdiv. ring. }
  split; [exact Hz|]. split.
  { unfold spawn_rejects. rewrite Hz. unfold HARD_STOP_AT, OVERFLOW_AT.
    intros [H|[_ H]]; lra. }
  split; [destruct self; reflexivity|]. split.
  { intros dt. destruct self. reflexivity. }
  split; [reflexivity|]. split; [reflexivity|]. split; [reflexivity|].
  intros threats.
  destruct (sync_snapshot threats
              (App.clear (App._defender_sync_once (Snapshot threats) self)))
    as [-> _].
  destruct (sync_snapshot threats self) as [_ Hids].
  change (App._defender_last_ids (App.clear ?s)) with (App._defender_last_ids s).
  rewrite Hids, new_threats_seen by reflexivity. reflexivity.
Qed.

Lemma severity_color_in id txt :
  defender_severity_to_cookie_color id txt ∈ defender_colors.
Proof.
  unfold defender_severity_to_cookie_color, defender_colors.
  repeat case_match; set_solver.
Qed.

(** Detections only ever ask for red, orange, yellow or purple: the
    severity mapping returns one of these four, whatever the fields hold;
    all four are colours of [COLORS] with an entry in [COLOR_RGB]; and if
    the waiting colours are among them, so they are after a poll and after a
    drop step, and so are the colours of the bodies that the drop step
    adds. *)
Theorem defender_colors_only self :
  Forall (fun color => color ∈ defender_colors) (App._defender_pending_colors self) ->
  (forall id txt, defender_severity_to_cookie_color id txt ∈ defender_colors)
  /\ Forall (fun color => color ∈ COLORS /\ color ∈ (COLOR_RGB).*1) defender_colors
  /\ (forall feed,
        Forall (fun color => color ∈ defender_colors)
          (App._defender_pending_colors (App._defender_sync_once feed self)))
  /\ Forall (fun color => color ∈ defender_colors)
       (App._defender_pending_colors (App._defender_drop_step self))
  /\ exists new,
       App.cookies (App._defender_drop_step self) = App.cookies self ++ new
       /\ Forall (fun c => color_name c ∈ defender_colors) new.
Proof.
  intros Hp. split; [apply severity_color_in|]. split.
  { unfold defender_colors, COLORS, COLOR_RGB. repeat constructor; set_solver. }
  split.
  { intros [msg|threats]; [exact Hp|].
    destruct (sync_snapshot threats self) as [-> _].
    apply Forall_app. split; [exact Hp|].
    apply Forall_fmap, Forall_forall. intros th _. apply severity_color_in. }
  unfold App._defender_drop_step.
  destruct (App.def_auto_drop self); cbn [negb].
  - split.
    + rewrite defender_drain_pending. apply Forall_drop. exact Hp.
    + destruct (defender_drain_bodies MAX_DROPS_PER_TICK self)
        as (new & Hnew & [rest Hpre] & _).
      exists new. split; [exact Hnew|].
      apply (Forall_take _ MAX_DROPS_PER_TICK) in Hp. rewrite Hpre in Hp.
      apply Forall_app in Hp as [Hp _].
      apply Forall_fmap in Hp. exact Hp.
  - split; [exact Hp|]. exists []. rewrite app_nil_r.
    split; [reflexivity|constructor].
Qed.

Lemma defender_colors_only_witness :
  Forall (fun color => color ∈ defender_colors)
    (App._defender_pending_colors
       (App._defender_sync_once (Snapshot [thA; thB; thC]) full)).
Proof.
  destruct (defender_colors_only full) as (_ & _ & Hsync & _).
  - repeat constructor.
  - apply Hsync.
Defined.
End ClearAndFeed.

(** ** Body by body through a step *)

Section StepRelation.
Import Props More Samples.
Implicit Types (c a b : CookieBody.t) (g : random.t) (self : App.t).
Context (R R' : CookieBody.t -> CookieBody.t -> Prop).
Hypothesis R_refl : forall c, R c c.
Hypothesis R_step : forall self sub_dt c0 c,
  R c0 c -> R c0 (App.step_cookie self sub_dt c).
Hypothesis R_resolve : forall a b g a' b' g' a0 b0,
  App._resolve_circle_collision a b g = Some (a', b', g') ->
  R a0 a -> R b0 b -> R a0 a' /\ R b0 b'.
Hypothesis R_sleep : forall self c0 c, R c0 c -> R' c0 (App.sleep_update self c).

Lemma Forall2_resolve (cs0 : list CookieBody.t) cs i j a b a' b' g g' :
  Forall2 R cs0 cs -> cs !! i = Some a -> cs !! j = Some b ->
  App._resolve_circle_collision a b g = Some (a', b', g') ->
  Forall2 R cs0 (<[j := b']> (<[i := a']> cs)).
Proof.
  intros H Ha Hb Hr.
  destruct (Forall2_lookup_r _ _ _ _ _ H Ha) as (a0 & Ha0 & HRa).
  destruct (Forall2_lookup_r _ _ _ _ _ H Hb) as (b0 & Hb0 & HRb).
  destruct (R_resolve _ _ _ _ _ _ _ _ Hr HRa HRb) as [HRa' HRb'].
  rewrite <- (list_insert_id cs0 j b0) by exact Hb0.
  apply Forall2_insert; [|exact HRb'].
  rewrite <- (list_insert_id cs0 i a0) by exact Ha0.
  apply Forall2_insert; [exact H|exact HRa'].
Qed.

Lemma step_Forall2 dt self :
  exists self',
    App._step dt self = Some self'
    /\ Forall2 R' (App.cookies self) (App.cookies self').
Proof.
  unfold App._step.
  destruct (foldl_option_inv
              (fun s => Forall2 R (App.cookies self) (App.cookies s))
              (fun acc (_ : nat) => acc ≫= App.substep (dt / INR SUBSTEPS))
              (seq 0 SUBSTEPS)) with (s := self)
    as (s1 & -> & H1).
  - intros _ s _ Hs.
    destruct (substep_inv (Forall2 R (App.cookies self))
                (Forall2_resolve (App.cookies self)) (dt / INR SUBSTEPS) s)
      as (s' & Hs' & HI & _).
    + apply Forall2_fmap_r. eapply Forall2_impl; [exact Hs|].
      intros c0 c Hc. apply R_step. exact Hc.
    + exists s'. split; [exact Hs'|exact HI].
  - apply Forall_Forall2_diag, Forall_forall. intros c _. apply R_refl.
  - simpl. eexists. split; [reflexivity|].
    cbn [App.cookies App.set_cookies].
    apply Forall2_fmap_r. eapply Forall2_impl; [exact H1|].
    intros c0 c Hc. apply R_sleep. exact Hc.
Qed.
End StepRelation.

Section RestTrace.
Import Props More Samples.
Implicit Types (c a b : CookieBody.t) (g : random.t) (self : App.t).

Lemma step_cookie_rest self sub_dt c :
  asleep (App.step_cookie self sub_dt c) = asleep c
  /\ sleep_counter (App.step_cookie self sub_dt c) = sleep_counter c.
Proof.
  unfold App.step_cookie. case_match.
  - split; [apply apply_underwater_mode_asleep|apply apply_underwater_mode_counter].
  - rewrite collide_cookie_asleep, collide_cookie_counter.
    case_match; simpl;
      (split; [apply apply_underwater_mode_asleep|apply apply_underwater_mode_counter]).
Qed.

Lemma resolve_rest a b g a' b' g' :
  App._resolve_circle_collision a b g = Some (a', b', g') ->
  ((sleep_counter a' <= sleep_counter a)%nat /\ (asleep a' = true -> asleep a = true))
  /\ ((sleep_counter b' <= sleep_counter b)%nat /\ (asleep b' = true -> asleep b = true)).
Proof.
  unfold App._resolve_circle_collision.
  destruct (App.contact_delta a b g) as [[[dx dy] d2] g1].
  intros Hr.
  case_decide; [simplify_eq; auto|].
  destruct (App.py_sqrt d2) as [dist|]; [|discriminate]. simpl in Hr.
  destruct (App.py_div dx dist) as [nx|]; [|discriminate]. simpl in Hr.
  destruct (App.py_div dy dist) as [ny|]; [|discriminate]. simpl in Hr.
  destruct (asleep a) eqn:Ea, (asleep b) eqn:Eb; simpl in Hr;
    repeat (case_decide; simpl in Hr);
    try (destruct (App.py_div _ 2) as [j|]; [|discriminate]);
    simpl in Hr; rewrite ?Ea, ?Eb in Hr; simpl in Hr; simplify_eq;
    simpl; rewrite ?Ea, ?Eb; repeat split; auto; try lia; try discriminate.
Qed.

Lemma step_rested dt self :
  exists self',
    App._step dt self = Some self'
    /\ Forall2 (rested_within 1) (App.cookies self) (App.cookies self').
Proof.
  apply (step_Forall2
           (fun c0 c => (sleep_counter c <= sleep_counter c0)%nat
                        /\ (asleep c = true -> asleep c0 = true))).
  - intros c. split; [lia|auto].
  - intros s sub_dt c0 c [Hn Hs].
    destruct (step_cookie_rest s sub_dt c) as [-> ->]. auto.
  - intros a b g a' b' g' a0 b0 Hr [Han Has] [Hbn Hbs].
    destruct (resolve_rest _ _ _ _ _ _ Hr) as [[Ha1 Ha2] [Hb1 Hb2]].
    repeat split; try lia; auto.
  - intros s c0 c [Hn Hs]. unfold rested_within, App.sleep_update, SLEEP_FRAMES.
    destruct (asleep c) eqn:Hc.
    + split; [lia|]. intros H0. rewrite (Hs eq_refl) in H0. discriminate.
    + repeat case_decide; simpl in *; rewrite ?Hc; split;
        try lia; intros; try discriminate; lia.
Qed.

(** The rest counter of a body grows by at most one per step, so that a
    body cannot fall asleep early: over a run of [n] steps, which always
    returns and keeps the bodies in place, the counter of each body grows by
    at most [n], and a body that was awake is asleep afterwards only if its
    counter plus [n] reaches [SLEEP_FRAMES]. *)
Theorem steps_rested dts self :
  exists self',
    steps dts self = Some self'
    /\ Forall2 (rested_within (length dts)) (App.cookies self) (App.cookies self').
Proof.
  revert self. induction dts as [|dt dts IH]; intros self.
  - exists self. split; [reflexivity|].
    apply Forall_Forall2_diag, Forall_forall. intros c _.
    split; [lia|]. intros H0 H1. rewrite H0 in H1. discriminate.
  - destruct (step_rested dt self) as (s1 & Hs1 & H1).
    destruct (IH s1) as (self' & Hs' & Hn).
    exists self'. split; [simpl; rewrite Hs1; exact Hs'|].
    eapply Forall2_trans; [|exact H1|exact Hn].
    intros c c1 c' [Hc1 Ha1] [Hcn Han]. cbn [length].
    split; [lia|]. intros H0 H1'.
    destruct (asleep c1) eqn:E1.
    + specialize (Ha1 H0 eq_refl). lia.
    + specialize (Han eq_refl H1'). lia.
Qed.
End RestTrace.

(** ** The capacity of the application's bowl *)

Section Capacity.
Import Props More Samples.
Implicit Types (c : CookieBody.t) (self : App.t).

Lemma count_fold_ge (f : nat -> bool) (l : list nat) (acc : nat) :
  (acc <= foldl (fun acc i => if f i then S acc else acc) acc l)%nat.
Proof.
  revert acc. induction l as [|i l IH]; intros acc; simpl; [lia|].
  specialize (IH (if f i then S acc else acc)). destruct (f i); lia.
Qed.

Lemma count_fold_all (f : nat -> bool) (l : list nat) (acc : nat) :
  (forall i, i ∈ l -> f i = true) ->
  foldl (fun acc i => if f i then S acc else acc) acc l = (acc + length l)%nat.
Proof.
  revert acc. induction l as [|i l IH]; intros acc Hall; simpl; [lia|].
  rewrite (Hall i) by left. rewrite IH; [lia|].
  intros j Hj. apply Hall. right. exact Hj.
Qed.

Lemma count_fold_segment (f : nat -> bool) (n0 n1 n2 acc : nat) :
  (forall i, (n0 <= i < n0 + n1)%nat -> f i = true) ->
  (acc + n1 <= foldl (fun acc i => if f i then S acc else acc) acc
                 (seq 0 (n0 + n1 + n2)))%nat.
Proof.
  intros Hall. rewrite !seq_app, !foldl_app. cbn [Nat.add].
  etransitivity; [|apply count_fold_ge].
  rewrite count_fold_all.
  - rewrite length_seq. pose proof (count_fold_ge f (seq 0 n0) acc). lia.
  - intros i Hi. apply elem_of_seq in Hi. apply Hall. lia.
Qed.

Lemma grid_fold_rows (f : nat -> nat -> bool) (lx ly : list nat) (k acc : nat)
    (rows : nat -> Prop) :
  (forall iy acc', rows iy ->
     (acc' + k <= foldl (fun acc ix => if f iy ix then S acc else acc) acc' lx)%nat) ->
  Forall rows ly ->
  (acc + length ly * k
   <= foldl (fun acc iy => foldl (fun acc ix => if f iy ix then S acc else acc)
                                 acc lx) acc ly)%nat.
Proof.
  intros Hrow Hall. revert acc.
  induction Hall as [|iy ly Hiy Hall IH]; intros acc; simpl; [lia|].
  specialize (IH (foldl (fun acc ix => if f iy ix then S acc else acc) acc lx)).
  pose proof (Hrow iy acc Hiy). lia.
Qed.

Lemma grid_fold_ge (f : nat -> nat -> bool) (lx ly : list nat) (acc : nat) :
  (acc <= foldl (fun acc iy => foldl (fun acc ix => if f iy ix then S acc else acc)
                                     acc lx) acc ly)%nat.
Proof.
  pose proof (grid_fold_rows f lx ly 0 acc (fun _ => True)) as H.
  rewrite Nat.mul_0_r, Nat.add_0_r in H. apply H.
  - intros iy acc' _. rewrite Nat.add_0_r. apply count_fold_ge.
  - apply Forall_forall. auto.
Qed.

(** A box of grid points that all lie in the bowl is counted. *)
Lemma grid_fold_box (f : nat -> nat -> bool) (x0 nx x2 y0 ny y2 : nat) :
  (forall iy ix, (y0 <= iy < y0 + ny)%nat -> (x0 <= ix < x0 + nx)%nat ->
     f iy ix = true) ->
  (ny * nx
   <= foldl (fun acc iy => foldl (fun acc ix => if f iy ix then S acc else acc)
                                 acc (seq 0 (x0 + nx + x2)))
            0 (seq 0 (y0 + ny + y2)))%nat.
Proof.
  intros Hbox. rewrite (seq_app (y0 + ny)), (seq_app y0), !foldl_app. cbn [Nat.add].
  etransitivity; [|apply grid_fold_ge].
  pose proof (grid_fold_rows f (seq 0 (x0 + nx + x2)) (seq y0 ny) nx
                (foldl (fun acc iy =>
                          foldl (fun acc ix => if f iy ix then S acc else acc)
                                acc (seq 0 (x0 + nx + x2))) 0%nat (seq 0 y0))
                (fun iy => y0 <= iy < y0 + ny)%nat) as H.
  rewrite length_seq in H.
  etransitivity; [|apply H].
  - lia.
  - intros iy acc' Hiy. apply count_fold_segment.
    intros ix Hix. apply Hbox; assumption.
  - apply Forall_forall. intros iy Hiy. apply elem_of_seq in Hiy. exact Hiy.
Qed.

(** The sampled area is at least the share of the sampled rectangle that
    a box of grid points inside the bowl takes. *)
Lemma recalc_area_box col (x0 nx x2 y0 ny y2 : nat) :
  (x0 + nx + x2 = 140)%nat -> (y0 + ny + y2 = 180)%nat ->
  0 <= 2 * EllipseBowlCollider.a col
       * (EllipseBowlCollider.cy col + EllipseBowlCollider.b col
          - EllipseBowlCollider.rim_y col) ->
  (forall iy ix, (y0 <= iy < y0 + ny)%nat -> (x0 <= ix < x0 + nx)%nat ->
     EllipseBowlCollider.is_inside_point col
       (EllipseBowlCollider.cx col - EllipseBowlCollider.a col
        + (INR ix + 0.5) * (2 * EllipseBowlCollider.a col / 140))
       (EllipseBowlCollider.rim_y col
        + (INR iy + 0.5)
          * ((EllipseBowlCollider.cy col + EllipseBowlCollider.b col
              - EllipseBowlCollider.rim_y col) / 180))
     = true) ->
  2 * EllipseBowlCollider.a col
  * (EllipseBowlCollider.cy col + EllipseBowlCollider.b col
     - EllipseBowlCollider.rim_y col)
  * (INR (ny * nx) / 25200)
  <= EllipseBowlCollider.bowl_area (EllipseBowlCollider._recalc_area col).
Proof.
  intros Hx Hy Hrect Hbox.
  unfold EllipseBowlCollider.bowl_area, EllipseBowlCollider._recalc_area.
  cbn [EllipseBowlCollider._bowl_area].
  etransitivity; [|apply Rmax_r].
  match goal with
  | |- context [INR (foldl ?F 0%nat (seq 0 180))] =>
      set (inside := foldl F 0%nat (seq 0 180))
  end.
  assert (INR 140 = 140) as H140 by (rewrite INR_IZR_INZ; reflexivity).
  assert (INR 180 = 180) as H180 by (rewrite INR_IZR_INZ; reflexivity).
  assert (INR (140 * 180) = 25200) as Htot by (rewrite INR_IZR_INZ; reflexivity).
  assert (ny * nx <= inside)%nat as Hin.
  { pose proof (grid_fold_box
                  (fun iy ix =>
                     EllipseBowlCollider.is_inside_point col
                       (EllipseBowlCollider.cx col - EllipseBowlCollider.a col
                        + (INR ix + 0.5)
                          * ((EllipseBowlCollider.cx col + EllipseBowlCollider.a col
                              - (EllipseBowlCollider.cx col - EllipseBowlCollider.a col))
                             / INR 140))
                       (EllipseBowlCollider.rim_y col
                        + (INR iy + 0.5)
                          * ((EllipseBowlCollider.cy col + EllipseBowlCollider.b col
                              - EllipseBowlCollider.rim_y col) / INR 180)))
                  x0 nx x2 y0 ny y2) as Hle.
    rewrite Hx, Hy in Hle. subst inside. apply Hle.
    intros iy ix Hiy Hix. rewrite <- (Hbox iy ix Hiy Hix), H140, H180.
    f_equal. lra. }
  apply le_INR in Hin. rewrite Htot.
  replace (EllipseBowlCollider.cx col + EllipseBowlCollider.a col
           - (EllipseBowlCollider.cx col - EllipseBowlCollider.a col))
    with (2 * EllipseBowlCollider.a col) by ring.
  set (W := 2 * EllipseBowlCollider.a col
            * (EllipseBowlCollider.cy col + EllipseBowlCollider.b col
               - EllipseBowlCollider.rim_y col)) in *.
  clearbody W. unfold Rdiv. nra.
Qed.
Lemma bowl_area_lower : 53799 <= EllipseBowlCollider.bowl_area bowl.
Proof.
  destruct bowl_geometry as (Hcx & Hcy & Ha & Hb & Hrim & _).
  unfold bowl in *.
  set (col := EllipseBowlCollider._recalc_rim _) in *.
  cbn [EllipseBowlCollider._recalc_area EllipseBowlCollider.cx
       EllipseBowlCollider.cy EllipseBowlCollider.a EllipseBowlCollider.b
       EllipseBowlCollider.rim_y] in Hcx, Hcy, Ha, Hb, Hrim.
  etransitivity; [|apply (recalc_area_box col 21 98 21 44 112 24)].
  - rewrite Ha, Hcy, Hb, Hrim.
    replace (INR (112 * 98)) with 10976 by (rewrite INR_IZR_INZ; reflexivity).
    lra.
  - reflexivity.
  - reflexivity.
  - rewrite Ha, Hcy, Hb, Hrim. lra.
  - intros iy ix Hiy Hix.
    unfold EllipseBowlCollider.is_inside_point.
    rewrite Hcx, Ha, Hcy, Hb, Hrim.
    assert (21 <= INR ix <= 118) as Hu.
    { split.
      - replace 21 with (INR 21) by (rewrite INR_IZR_INZ; reflexivity).
        apply le_INR. lia.
      - replace 118 with (INR 118) by (rewrite INR_IZR_INZ; reflexivity).
        apply le_INR. lia. }
    assert (44 <= INR iy <= 155) as Hv.
    { split.
      - replace 44 with (INR 44) by (rewrite INR_IZR_INZ; reflexivity).
        apply le_INR. lia.
      - replace 155 with (INR 155) by (rewrite INR_IZR_INZ; reflexivity).
        apply le_INR. lia. }
    set (u := INR ix) in *. set (v := INR iy) in *.
    apply andb_true_intro. split; apply bool_decide_eq_true_2; [|lra].
    set (X := (395.2 - 178.6 + (u + 0.5) * (2 * 178.6 / 140) - 395.2) / 178.6).
    set (Y := (156 + (v + 0.5) * ((348.4 + 153.4 - 156) / 180) - 348.4) / 153.4).
    assert (-0.7 <= X <= 0.7) as HX by (unfold X; lra).
    assert (-0.7 <= Y <= 0.7) as HY by (unfold Y; lra).
    nra.
Qed.

Lemma fill_sum_bounds (cs : list CookieBody.t) (acc : R) :
  Forall (fun c => 11 <= r c <= 18) cs ->
  acc + INR (length cs) * (PI * 121)
  <= foldl (fun acc c => acc + PI * r c * r c) acc cs
  <= acc + INR (length cs) * (PI * 324).
Proof.
  intros Hall. revert acc.
  induction Hall as [|c cs Hc Hall IH]; intros acc.
  - simpl. lra.
  - cbn [foldl length]. rewrite S_INR.
    specialize (IH (acc + PI * r c * r c)).
    pose proof PI_RGT_0 as Hpi.
    assert (121 <= r c * r c <= 324) as Hr by nra.
    assert (PI * 121 <= PI * r c * r c <= PI * 324) as Hq by nra.
    lra.
Qed.

(** The bowl of the application holds between 45 and 323 bodies: the
    constructor returns, the sampled area of its bowl lies between 53799
    and 123519.76, and with radii as [spawn_cookie] draws them a state of
    that bowl accepts a spawn while it has at most 45 bodies and rejects it
    once it has 324. *)
Theorem app_bowl_capacity now g :
  exists self0,
    App.init now g = Some self0
    /\ App.cookies self0 = []
    /\ 53799 <= EllipseBowlCollider.bowl_area (App.collider self0) <= 123519.76
    /\ forall self,
         App.collider self = App.collider self0 ->
         Forall (fun c => 11 <= r c <= 18) (App.cookies self) ->
         ((length (App.cookies self) <= 45)%nat -> ~ spawn_rejects self)
         /\ ((324 <= length (App.cookies self))%nat -> spawn_rejects self).
Proof.
  unfold App.init, EllipseBowlCollider.init.
  case_decide as Hz; [exfalso; destruct Hz; lra|].
  eexists. split; [reflexivity|]. split; [reflexivity|].
  cbn [App.collider mbind option_bind].
  change (EllipseBowlCollider._recalc_area _) with bowl.
  pose proof bowl_area_lower as Hlo. pose proof bowl_area_bounds as [_ Hhi].
  split; [split; assumption|].
  intros self Hcol Hr.
  pose proof (fill_sum_bounds (App.cookies self) 0 Hr) as [Hs1 Hs2].
  assert (3 < PI) as Hpi3 by (pose proof PI2_3_2; unfold PI2 in *; lra).
  pose proof PI_4 as Hpi4.
  unfold spawn_rejects, App._fill_ratio. rewrite Hcol.
  set (A := EllipseBowlCollider.bowl_area bowl) in *.
  set (filled := foldl _ 0 (App.cookies self)) in *.
  set (n := length (App.cookies self)) in *.
  rewrite Rmax_right by lra.
  unfold HARD_STOP_AT, OVERFLOW_AT, MAX_COOKIES.
  split.
  - intros Hn. pose proof (le_INR _ _ Hn) as HnR.
    replace (INR 45) with 45 in HnR by (rewrite INR_IZR_INZ; reflexivity).
    pose proof (pos_INR n) as Hn0.
    assert (filled < 1.10 * A) as Hfill by nra.
    intros [Hh|[Hm _]].
    + apply Rge_le in Hh.
      apply (Rmult_le_compat_r A) in Hh; [|lra].
      unfold Rdiv in Hh. rewrite Rmult_assoc, Rinv_l, Rmult_1_r in Hh by lra. lra.
    + unfold ge in Hm. lia.
  - intros Hn. right. split; [unfold ge; lia|].
    apply le_INR in Hn.
    replace (INR 324) with 324 in Hn by (rewrite INR_IZR_INZ; reflexivity).
    assert (0.95 * A <= filled) as Hfill by nra.
    apply Rle_ge. apply (Rmult_le_reg_r A); [lra|].
    unfold Rdiv. rewrite Rmult_assoc, Rinv_l, Rmult_1_r by lra. exact Hfill.
Qed.

Lemma app_bowl_capacity_witness :
  ~ spawn_rejects (App.set_cookies (replicate 40 big) app0).
Proof.
  destruct (app_bowl_capacity 0 halves) as (self0 & Hinit & _ & _ & Hcap).
  rewrite app0_init in Hinit. injection Hinit as <-.
  destruct (Hcap (App.set_cookies (replicate 40 big) app0)) as [Hacc _].
  - reflexivity.
  - apply Forall_replicate. cbn [r big]. lra.
  - apply Hacc. cbn [App.cookies App.set_cookies]. rewrite length_replicate. lia.
Defined.
End Capacity.

(** ** Contacts and kinetic energy *)

Section ContactEnergy.
Import Props More Samples.
Implicit Types (a b : CookieBody.t) (g : random.t).

(** The velocities that a contact leaves. *)
Lemma resolve_contact_velocity a b g dx dy d2 g1 :
  App.contact_delta a b g = (dx, dy, d2, g1) ->
  d2 < (r a + r b) * (r a + r b) ->
  let nx := dx / sqrt d2 in
  let ny := dy / sqrt d2 in
  let vel_n := (vx b - vx a) * nx + (vy b - vy a) * ny in
  let j := if decide (vel_n > 0) then 0 else - (1 + COOKIE_RESTITUTION) * vel_n / 2 in
  exists a' b',
    App._resolve_circle_collision a b g = Some (a', b', g1)
    /\ (asleep a' = true -> asleep a = true)
    /\ (asleep b' = true -> asleep b = true)
    /\ vx a' = (if asleep a' then vx a else vx a - j * nx)
    /\ vy a' = (if asleep a' then vy a else vy a - j * ny)
    /\ vx b' = (if asleep b' then vx b else vx b + j * nx)
    /\ vy b' = (if asleep b' then vy b else vy b + j * ny).
Proof.
  intros Hd Hnear nx ny vel_n j.
  pose proof (contact_delta_pos a b g) as Hpos. rewrite Hd in Hpos.
  destruct Hpos as [_ Hpos].
  unfold App._resolve_circle_collision. rewrite Hd.
  case_decide; [lra|].
  rewrite py_sqrt_some by lra. simpl.
  assert (sqrt d2 <> 0) as Hs by (pose proof (sqrt_lt_R0 _ Hpos); lra).
  rewrite !py_div_some by exact Hs. simpl.
  fold nx ny.
  destruct (asleep a) eqn:Ha, (asleep b) eqn:Hb; simpl;
    destruct (decide (r a + r b - sqrt d2 > 0.6)) as [Ho|Ho];
    simpl; fold vel_n; subst j;
    (destruct (decide (vel_n > 0)) as [Hv|Hv];
     [|rewrite py_div_some by lra; simpl; rewrite ?Ha, ?Hb; simpl]);
    eexists _, _; (split; [reflexivity|]); simpl; rewrite ?Ha, ?Hb;
    repeat split; intros; try discriminate; try lra; try reflexivity.
Qed.

(** Contact resolution never adds kinetic energy: for two bodies that
    are at rest when asleep, the squared speeds add up to no more after
    [_resolve_circle_collision] than before. *)
Theorem resolve_slows a b g a' b' g' :
  App._resolve_circle_collision a b g = Some (a', b', g') ->
  sleep_inv a -> sleep_inv b ->
  speed2 a' + speed2 b' <= speed2 a + speed2 b.
Proof.
  intros Hr Hsa Hsb.
  destruct (App.contact_delta a b g) as [[[dx dy] d2] g1] eqn:Hd.
  destruct (decide (d2 >= (r a + r b) * (r a + r b))) as [Hfar|Hnear].
  { rewrite (resolve_no_contact a b g _ _ _ _ Hd Hfar) in Hr.
    injection Hr as <- <- _. lra. }
  destruct (resolve_contact_velocity a b g _ _ _ _ Hd) as
    (a1 & b1 & Hr1 & Hwa & Hwb & Hax & Hay & Hbx & Hby); [lra|].
  rewrite Hr in Hr1. injection Hr1 as -> -> _.
  pose proof (contact_normal_unit a b g) as Hunit. rewrite Hd in Hunit.
  destruct Hunit as [_ Hunit].
  unfold speed2. rewrite Hax, Hay, Hbx, Hby.
  set (nx := dx / sqrt d2) in *. set (ny := dy / sqrt d2) in *.
  set (vel_n := (vx b - vx a) * nx + (vy b - vy a) * ny) in *.
  unfold COOKIE_RESTITUTION.
  destruct (decide (vel_n > 0)) as [Hv|Hv].
  { destruct (asleep a1), (asleep b1); lra. }
  set (j := - (1 + 0.10) * vel_n / 2).
  pose proof (Rle_0_sqr vel_n) as Hsq. unfold Rsqr in Hsq.
  destruct (asleep a1) eqn:Ea, (asleep b1) eqn:Eb.
  - lra.
  - destruct (Hsa (Hwa eq_refl)) as [Hva1 Hva2].
    assert (vel_n = vx b * nx + vy b * ny) as Hvn
      by (unfold vel_n; rewrite Hva1, Hva2; lra).
    assert ((vx b + j * nx) * (vx b + j * nx) + (vy b + j * ny) * (vy b + j * ny)
            = vx b * vx b + vy b * vy b + 2 * j * (vx b * nx + vy b * ny)
              + j * j * (nx * nx + ny * ny)) as -> by lra.
    rewrite Hunit, <- Hvn. unfold j. nra.
  - destruct (Hsb (Hwb eq_refl)) as [Hvb1 Hvb2].
    assert (vel_n = - (vx a * nx + vy a * ny)) as Hvn
      by (unfold vel_n; rewrite Hvb1, Hvb2; lra).
    assert ((vx a - j * nx) * (vx a - j * nx) + (vy a - j * ny) * (vy a - j * ny)
            = vx a * vx a + vy a * vy a - 2 * j * (vx a * nx + vy a * ny)
              + j * j * (nx * nx + ny * ny)) as -> by lra.
    rewrite Hunit. replace (vx a * nx + vy a * ny) with (- vel_n) by lra.
    unfold j. nra.
  - assert ((vx a - j * nx) * (vx a - j * nx) + (vy a - j * ny) * (vy a - j * ny)
            + ((vx b + j * nx) * (vx b + j * nx) + (vy b + j * ny) * (vy b + j * ny))
            = vx a * vx a + vy a * vy a + (vx b * vx b + vy b * vy b)
              + 2 * j * vel_n + 2 * (j * j) * (nx * nx + ny * ny)) as ->
      by (unfold vel_n; lra).
    rewrite Hunit. unfold j. nra.
Qed.

Lemma resolve_slows_witness :
  exists a' b' g',
    App._resolve_circle_collision neighbour loose halves = Some (a', b', g')
    /\ speed2 a' + speed2 b' <= speed2 neighbour + speed2 loose.
Proof.
  destruct (resolve_returns neighbour loose halves) as (a' & b' & g' & Hr).
  exists a', b', g'. split; [exact Hr|].
  apply (resolve_slows _ _ _ _ _ _ Hr).
  - intros _. split; reflexivity.
  - intros H. discriminate H.
Defined.
End ContactEnergy.

(** * The calls with their drawing arguments: properties *)

(** The methods of [Calls] agree with those of [App] whenever the drawing
    arguments can be computed, and raise otherwise. *)

Section CallsLayer.
Import Props More Samples.
Implicit Types (c : CookieBody.t) (self : App.t) (color : string).

Lemma spawn_call_returns color self :
  spawn_rejects self \/ Calls.drawable color ->
  Calls.spawn_cookie color self = Calls.Returns (App.spawn_cookie color self).
Proof.
  intros H. unfold Calls.spawn_cookie, App.spawn_cookie.
  case_decide as Hh; [reflexivity|].
  case_decide as Hm; [reflexivity|].
  destruct H as [[H|H]|[s Hs]]; [contradiction|contradiction|].
  unfold random.uniform, random.random. cbv zeta. rewrite Hs. reflexivity.
Qed.

Lemma spawn_call_raises color self :
  ~ spawn_rejects self -> ~ Calls.drawable color ->
  exists self',
    Calls.spawn_cookie color self = Calls.Raises self'
    /\ App.cookies self' = App.cookies self
    /\ App.counts self' = App.counts self
    /\ App.collider self' = App.collider self
    /\ random.stream (App.rng self') = random.stream (App.rng self).
Proof.
  intros Hrej Hd. unfold Calls.spawn_cookie.
  case_decide as Hh; [exfalso; apply Hrej; left; exact Hh|].
  case_decide as Hm; [exfalso; apply Hrej; right; exact Hm|].
  unfold random.uniform, random.random. cbv zeta.
  destruct (highlight_color color) as [s|] eqn:Hs.
  { exfalso. apply Hd. exists s. exact Hs. }
  eexists. split; [reflexivity|]. repeat split.
Qed.

Lemma drawable_dec color : Calls.drawable color \/ ~ Calls.drawable color.
Proof.
  unfold Calls.drawable. destruct (highlight_color color) as [s|].
  - left. eauto.
  - right. intros [s Hs]. discriminate.
Qed.

Lemma plain_drawable color : String.prefix "#" color = false -> Calls.drawable color.
Proof.
  intros Hp. unfold Calls.drawable, highlight_color. rewrite Hp.
  cbn [mbind option_bind]. eauto.
Qed.

Lemma highlight_fill_some c :
  underwater c = true \/ Calls.drawable (color_name c) -> is_Some (_highlight_fill c).
Proof.
  intros Hc. unfold _highlight_fill, _cookie_fill.
  destruct (underwater c) eqn:Hu.
  - unfold highlight_color.
    destruct (underwater_color_hex (color_name c)) as ([[r0 g0] b0] & ->).
    rewrite rgb_to_hex_prefix.
    destruct (rgb_to_hex_digits r0 g0 b0)
      as (r1 & r2 & g1 & g2 & b1 & b2 & -> & Hr & Hri & Hgi & Hbi).
    rewrite (hex_to_rgb_digits _ _ _ _ _ _ Hr), Hri, Hgi, Hbi.
    cbn [mbind option_bind]. eauto.
  - destruct Hc as [Hc|Hc]; [discriminate|exact Hc].
Qed.

Lemma apply_underwater_mode_call self c :
  Calls.drawable (color_name c) ->
  Calls._apply_underwater_mode self c = Some (App._apply_underwater_mode self c).
Proof.
  intros Hd. unfold Calls._apply_underwater_mode, App._apply_underwater_mode.
  cbv zeta. case_decide as Hf; [reflexivity|].
  destruct (highlight_fill_some
              (set_underwater (bool_decide (y c >= App.water_y self)) c))
    as [s Hs]; [right; exact Hd|].
  rewrite Hs. reflexivity.
Qed.

(** The recolouring raises exactly for a body that leaves the water with a
    colour whose highlight cannot be computed. *)
Lemma apply_underwater_mode_raises self c :
  Calls._apply_underwater_mode self c = None
  <-> (underwater c = true /\ y c < App.water_y self
       /\ ~ Calls.drawable (color_name c)).
Proof.
  unfold Calls._apply_underwater_mode. cbv zeta.
  destruct (decide (y c >= App.water_y self)) as [Hy|Hy].
  - rewrite (bool_decide_eq_true_2 _ Hy).
    case_decide as Hf.
    + split; [discriminate|]. intros (_ & Hlt & _). lra.
    + destruct (highlight_fill_some (set_underwater true c)) as [s Hs];
        [left; reflexivity|].
      rewrite Hs. split; [discriminate|]. intros (_ & Hlt & _). lra.
  - rewrite (bool_decide_eq_false_2 _ Hy).
    case_decide as Hf.
    + split; [discriminate|]. intros (Hu & _). congruence.
    + assert (underwater c = true) as Hu by (destruct (underwater c); congruence).
      unfold _highlight_fill, _cookie_fill. cbn [underwater color_name set_underwater].
      destruct (highlight_color (color_name c)) as [s|] eqn:Hs.
      * split; [discriminate|]. intros (_ & _ & Hd). exfalso. apply Hd.
        exists s. exact Hs.
      * split; [|reflexivity]. intros _. split; [exact Hu|]. split; [lra|].
        intros [s Hd]. unfold Calls.drawable in *. congruence.
Qed.

Lemma step_cookie_call self sub_dt c :
  Calls.drawable (color_name c) ->
  Calls.step_cookie self sub_dt c = Some (App.step_cookie self sub_dt c).
Proof.
  intros Hd. unfold Calls.step_cookie, App.step_cookie.
  rewrite (apply_underwater_mode_call self c Hd). reflexivity.
Qed.

Lemma mapM_total {A B} (f : A -> option B) (g : A -> B) (l : list A) :
  Forall (fun a => f a = Some (g a)) l -> mapM f l = Some (g <$> l).
Proof.
  intros H. apply mapM_Some. induction H; constructor; auto.
Qed.

Lemma substep_call sub_dt self :
  Calls.bodies_drawable self ->
  Calls.substep sub_dt self = App.substep sub_dt self.
Proof.
  intros Hd. unfold Calls.substep, App.substep.
  rewrite (mapM_total _ (App.step_cookie self sub_dt)).
  - reflexivity.
  - eapply Forall_impl; [exact Hd|]. intros c Hc. apply step_cookie_call, Hc.
Qed.

Lemma colors_bodies_drawable (cs cs' : list CookieBody.t) :
  color_name <$> cs' = color_name <$> cs ->
  Forall (fun c => Calls.drawable (color_name c)) cs ->
  Forall (fun c => Calls.drawable (color_name c)) cs'.
Proof.
  intros Hc H.
  apply (Forall_fmap color_name Calls.drawable) in H.
  apply (Forall_fmap color_name Calls.drawable). rewrite Hc. exact H.
Qed.

Lemma substep_drawable sub_dt self :
  Calls.bodies_drawable self ->
  exists self', App.substep sub_dt self = Some self' /\ Calls.bodies_drawable self'.
Proof.
  intros Hd.
  destruct (substep_inv
              (fun cs => body_ident <$> cs = body_ident <$> App.cookies self)
              (ident_resolve _) sub_dt self) as (self' & Hs & Hi & _).
  - rewrite <- list_fmap_compose.
    apply list_fmap_ext. intros _ c _. apply step_cookie_ident.
  - exists self'. split; [exact Hs|].
    eapply colors_bodies_drawable; [|exact Hd]. apply ident_colors, Hi.
Qed.

Lemma substeps_call sub_dt (l : list nat) self :
  Calls.bodies_drawable self ->
  foldl (fun acc _ => acc ≫= Calls.substep sub_dt) (Some self) l
  = foldl (fun acc _ => acc ≫= App.substep sub_dt) (Some self) l.
Proof.
  revert self. induction l as [|i l IH]; intros self Hd; [reflexivity|].
  cbn [foldl mbind option_bind]. rewrite (substep_call sub_dt self Hd).
  destruct (substep_drawable sub_dt self Hd) as (self' & -> & Hd').
  apply IH, Hd'.
Qed.

(** With colours that can be drawn on every body, [_step] is the step
    without the recolouring. *)
Lemma step_call dt self :
  Calls.bodies_drawable self -> Calls._step dt self = App._step dt self.
Proof.
  intros Hd. unfold Calls._step, App._step. cbv zeta.
  rewrite (substeps_call _ _ self Hd). reflexivity.
Qed.

Lemma step_drawable dt self self' :
  App._step dt self = Some self' ->
  Calls.bodies_drawable self -> Calls.bodies_drawable self'.
Proof.
  intros Hs Hd. destruct (step_ident dt self) as (s & Hs' & Hi).
  rewrite Hs in Hs'. injection Hs' as <-.
  eapply colors_bodies_drawable; [|exact Hd]. apply ident_colors, Hi.
Qed.

Lemma COLORS_drawable : Forall Calls.drawable COLORS.
Proof. repeat constructor; apply plain_drawable; reflexivity. Qed.

(** A spawn that returns keeps the bodies drawable. *)
Lemma spawn_drawable color self :
  Calls.bodies_drawable self ->
  spawn_rejects self \/ Calls.drawable color ->
  Calls.bodies_drawable (App.spawn_cookie color self).
Proof.
  intros Hd H. unfold Calls.bodies_drawable in *.
  destruct (spawn_cookie_cases color self) as [[_ ->]|[Hacc (c & -> & Hc)]];
    [exact Hd|].
  apply Forall_app. split; [exact Hd|]. apply Forall_singleton.
  rewrite Hc. destruct H as [H|H]; [contradiction|exact H].
Qed.


(** *** The spawns of a frame *)

Lemma spawn_keeps_rejects color self :
  spawn_rejects self -> spawn_rejects (App.spawn_cookie color self).
Proof.
  intros H. exact (spawn_rejects_radii _ _ (spawn_cookie_rejected color self H) H).
Qed.

Lemma spawn_keeps_colors color self :
  Calls.colors_drawable self -> Calls.colors_drawable (App.spawn_cookie color self).
Proof.
  unfold Calls.colors_drawable.
  pose proof (spawn_cookie_frame color self)
    as (_ & _ & _ & -> & _ & _ & _ & _ & -> & -> & _).
  auto.
Qed.

Lemma auto_spawn_one_call self :
  spawn_rejects self \/ Calls.colors_drawable self ->
  Calls.auto_spawn_one self = Some (App.auto_spawn_one self).
Proof.
  intros H. unfold Calls.auto_spawn_one, App.auto_spawn_one.
  destruct (App.auto_random_color self) eqn:Hr.
  - destruct (choice_COLORS (App.rng self)) as (color & Hc & Hin).
    destruct (random.choice COLORS (App.rng self)) as [[color'|] g];
      [|reflexivity].
    cbn [fst] in Hc. injection Hc as ->.
    rewrite spawn_call_returns; [reflexivity|].
    right. exact (proj1 (Forall_forall _ _) COLORS_drawable color Hin).
  - rewrite spawn_call_returns; [reflexivity|].
    destruct H as [H|[H _]]; [left; exact H|right; apply H; exact Hr].
Qed.

Lemma auto_spawn_one_keeps self :
  (spawn_rejects self -> spawn_rejects (App.auto_spawn_one self))
  /\ (Calls.colors_drawable self -> Calls.colors_drawable (App.auto_spawn_one self))
  /\ (spawn_rejects self \/ Calls.colors_drawable self ->
      Calls.bodies_drawable self -> Calls.bodies_drawable (App.auto_spawn_one self)).
Proof.
  split; [|split].
  - intros H.
    exact (spawn_rejects_radii _ _ (auto_spawn_one_rejected self H) H).
  - unfold App.auto_spawn_one.
    destruct (App.auto_random_color self) eqn:Hr.
    + destruct (random.choice COLORS (App.rng self)) as [[color|] g]; intros H.
      * apply spawn_keeps_colors. exact H.
      * exact H.
    + apply spawn_keeps_colors.
  - intros H Hd. unfold App.auto_spawn_one.
    destruct (App.auto_random_color self) eqn:Hr.
    + destruct (choice_COLORS (App.rng self)) as (color & Hc & Hin).
      destruct (random.choice COLORS (App.rng self)) as [[color'|] g];
        [|exact Hd].
      cbn [fst] in Hc. injection Hc as ->.
      apply spawn_drawable; [exact Hd|].
      right. exact (proj1 (Forall_forall _ _) COLORS_drawable color Hin).
    + apply spawn_drawable; [exact Hd|].
      destruct H as [H|[H _]]; [left; exact H|right; apply H; exact Hr].
Qed.

Lemma auto_spawn_iter_call n self :
  spawn_rejects self \/ Calls.colors_drawable self ->
  Calls.bodies_drawable self ->
  Nat.iter n (fun acc => acc ≫= Calls.auto_spawn_one) (Some self)
  = Some (Nat.iter n App.auto_spawn_one self)
  /\ (spawn_rejects self -> spawn_rejects (Nat.iter n App.auto_spawn_one self))
  /\ (Calls.colors_drawable self ->
      Calls.colors_drawable (Nat.iter n App.auto_spawn_one self))
  /\ Calls.bodies_drawable (Nat.iter n App.auto_spawn_one self).
Proof.
  intros H Hd. induction n as [|n (IH & IHr & IHc & IHd)]; [auto|].
  rewrite !Nat.iter_succ. rewrite IH. cbn [mbind option_bind].
  pose proof (auto_spawn_one_keeps (Nat.iter n App.auto_spawn_one self))
    as (Kr & Kc & Kd).
  assert (spawn_rejects (Nat.iter n App.auto_spawn_one self)
          \/ Calls.colors_drawable (Nat.iter n App.auto_spawn_one self)) as H'.
  { destruct H as [H|H]; [left; apply IHr, H|right; apply IHc, H]. }
  split; [apply auto_spawn_one_call, H'|].
  split; [intros Hr; apply Kr, IHr, Hr|].
  split; [intros Hc; apply Kc, IHc, Hc|].
  apply Kd; assumption.
Qed.

Lemma auto_drop_step_call dt self :
  spawn_rejects self \/ Calls.colors_drawable self ->
  Calls.bodies_drawable self ->
  Calls._auto_drop_step dt self = Some (App._auto_drop_step dt self)
  /\ (spawn_rejects self -> spawn_rejects (App._auto_drop_step dt self))
  /\ (Calls.colors_drawable self ->
      Calls.colors_drawable (App._auto_drop_step dt self))
  /\ Calls.bodies_drawable (App._auto_drop_step dt self).
Proof.
  intros H Hd. unfold Calls._auto_drop_step, App._auto_drop_step.
  destruct (App.auto_enabled self); cbn [negb]; [|auto].
  case_decide; [auto|].
  destruct (App.auto_drop_plan _ _ _) as [accum n].
  apply (auto_spawn_iter_call (Z.to_nat n) (App.set_auto_accum accum self));
    assumption.
Qed.

Lemma defender_drain_call budget self :
  spawn_rejects self \/ Calls.colors_drawable self ->
  Calls.bodies_drawable self ->
  Calls.defender_drain budget self = Some (App.defender_drain budget self)
  /\ (spawn_rejects self -> spawn_rejects (App.defender_drain budget self))
  /\ (Calls.colors_drawable self ->
      Calls.colors_drawable (App.defender_drain budget self))
  /\ Calls.bodies_drawable (App.defender_drain budget self).
Proof.
  revert self. induction budget as [|budget IH]; intros self H Hd; [simpl; auto|].
  cbn [Calls.defender_drain App.defender_drain].
  destruct (App._defender_pending_colors self) as [|color rest] eqn:Hp; [auto|].
  set (s := App.set_defender_pending_colors rest self).
  assert (Calls.colors_drawable self -> Calls.colors_drawable s /\ Calls.drawable color)
    as Hpop.
  { intros [Ha Hq]. rewrite Hp in Hq. apply Forall_cons in Hq as [Hc Hq].
    split; [split; [exact Ha|exact Hq]|exact Hc]. }
  assert (spawn_rejects s \/ Calls.drawable color) as Hs.
  { destruct H as [H|H]; [left; exact H|right; apply Hpop, H]. }
  rewrite (spawn_call_returns color s Hs). cbn [Calls.returned mbind option_bind].
  destruct (IH (App.spawn_cookie color s)) as (IHc & IHr & IHq & IHd).
  - destruct H as [H|H].
    + left. apply spawn_keeps_rejects. exact H.
    + right. apply spawn_keeps_colors, Hpop, H.
  - apply spawn_drawable; [exact Hd|exact Hs].
  - split; [exact IHc|]. split; [|split; [|exact IHd]].
    + intros Hr. apply IHr, spawn_keeps_rejects. exact Hr.
    + intros Hc. apply IHq, spawn_keeps_colors, Hpop, Hc.
Qed.

Lemma defender_drop_step_call self :
  spawn_rejects self \/ Calls.colors_drawable self ->
  Calls.bodies_drawable self ->
  Calls._defender_drop_step self = Some (App._defender_drop_step self)
  /\ (spawn_rejects self -> spawn_rejects (App._defender_drop_step self))
  /\ (Calls.colors_drawable self ->
      Calls.colors_drawable (App._defender_drop_step self))
  /\ Calls.bodies_drawable (App._defender_drop_step self).
Proof.
  intros H Hd. unfold Calls._defender_drop_step, App._defender_drop_step.
  destruct (App.def_auto_drop self); cbn [negb]; [|auto].
  apply defender_drain_call; assumption.
Qed.

Lemma step_keeps_colors dt self self' :
  App._step dt self = Some self' ->
  Calls.colors_drawable self -> Calls.colors_drawable self'.
Proof.
  intros Hs. pose proof (step_only_bodies _ _ _ Hs) as ->. auto.
Qed.

(** With colours that can be drawn on every body, and spawn requests that
    are all rejected or all of colours that can be drawn, a frame is the
    frame without the drawing calls, and leaves such a state again. *)
Lemma loop_call now self :
  spawn_rejects self \/ Calls.colors_drawable self ->
  Calls.bodies_drawable self ->
  Calls._loop now self = App._loop now self
  /\ (forall self', App._loop now self = Some self' ->
      Calls.bodies_drawable self'
      /\ (Calls.colors_drawable self -> Calls.colors_drawable self')).
Proof.
  intros H Hd. unfold Calls._loop, App._loop. cbv zeta.
  set (dt := Rmin (now - App._last_t self) (1 / 30)).
  set (s0 := App.set_sim_t (App._sim_t (App.set_last_t now self) + dt)
                           (App.set_last_t now self)).
  destruct (auto_drop_step_call dt s0 H Hd) as (-> & Hr1 & Hc1 & Hd1).
  cbn [mbind option_bind].
  assert (spawn_rejects (App._auto_drop_step dt s0)
          \/ Calls.colors_drawable (App._auto_drop_step dt s0)) as H1.
  { destruct H as [H|H]; [left; apply Hr1, H|right; apply Hc1, H]. }
  destruct (defender_drop_step_call _ H1 Hd1) as (-> & Hr2 & Hc2 & Hd2).
  cbn [mbind option_bind].
  split; [apply step_call, Hd2|].
  intros self' Hs. split; [eapply step_drawable; eassumption|].
  intros Hc. eapply step_keeps_colors; [exact Hs|]. apply Hc2, Hc1, Hc.
Qed.

(** *** What a spawn leaves, however it ends *)

Lemma spawn_left_cases color self :
  (spawn_rejects self
   /\ Calls.spawn_cookie color self = Calls.Returns (App.spawn_cookie color self)
   /\ App.cookies (App.spawn_cookie color self) = App.cookies self
   /\ App.counts (App.spawn_cookie color self) = App.counts self)
  \/ (~ spawn_rejects self /\ Calls.drawable color
      /\ Calls.spawn_cookie color self = Calls.Returns (App.spawn_cookie color self)
      /\ exists c,
           App.cookies (App.spawn_cookie color self) = App.cookies self ++ [c]
           /\ color_name c = color
           /\ r c = 11 + (18 - 11) * random.stream (App.rng self)
                                       (random.pos (App.rng self))
           /\ App.counts (App.spawn_cookie color self) =
                <[color := S (default 0%nat (App.counts self !! color))]>
                  (App.counts self))
  \/ (~ spawn_rejects self /\ ~ Calls.drawable color
      /\ exists self',
           Calls.spawn_cookie color self = Calls.Raises self'
           /\ App.cookies self' = App.cookies self
           /\ App.counts self' = App.counts self
           /\ App.collider self' = App.collider self
           /\ random.stream (App.rng self') = random.stream (App.rng self)).
Proof.
  destruct (spawn_rejects_dec self) as [Hrej|Hacc].
  - left. split; [exact Hrej|].
    split; [apply spawn_call_returns; left; exact Hrej|].
    rewrite (spawn_cookie_reject color self Hrej). auto.
  - right. destruct (drawable_dec color) as [Hd|Hd].
    + left. split; [exact Hacc|]. split; [exact Hd|].
      split; [apply spawn_call_returns; right; exact Hd|].
      destruct (spawn_cookie_accept color self Hacc) as (c & ? & ? & _ & ? & ?).
      exists c. auto.
    + right. split; [exact Hacc|]. split; [exact Hd|].
      apply spawn_call_raises; assumption.
Qed.

Lemma spawn_left_frame color self :
  App.collider (Calls.left (Calls.spawn_cookie color self)) = App.collider self
  /\ random.stream (App.rng (Calls.left (Calls.spawn_cookie color self)))
     = random.stream (App.rng self).
Proof.
  pose proof (spawn_cookie_frame color self) as (Hcol & _ & Hs & _).
  destruct (spawn_left_cases color self)
    as [(_ & -> & _)|[(_ & _ & -> & _)|(_ & _ & s & -> & _ & _ & ? & ?)]];
    cbn [Calls.left]; auto.
Qed.

Lemma spawn_left_fill color self :
  random.unit_draws (App.rng self) ->
  App._fill_ratio self
  <= App._fill_ratio (Calls.left (Calls.spawn_cookie color self)).
Proof.
  intros Hu. destruct (spawn_cookie_fill color self Hu) as [Hrej Hacc].
  destruct (spawn_left_cases color self)
    as [(H & -> & _)|[(H & _ & -> & _)|(_ & _ & s & -> & Hc & _ & Hcol & _)]];
    cbn [Calls.left].
  - rewrite (Hrej H). lra.
  - specialize (Hacc H). lra.
  - rewrite (fill_ratio_same self s Hc Hcol). lra.
Qed.

Lemma spawn_all_fill colors self :
  random.unit_draws (App.rng self) ->
  App._fill_ratio self <= App._fill_ratio (Calls.spawn_all colors self).
Proof.
  revert self. induction colors as [|color colors IH]; intros self Hu;
    [simpl; lra|].
  change (Calls.spawn_all (color :: colors) self)
    with (Calls.spawn_all colors (Calls.left (Calls.spawn_cookie color self))).
  pose proof (spawn_left_fill color self Hu) as H1.
  pose proof (spawn_left_frame color self) as [_ Hs].
  assert (random.unit_draws
            (App.rng (Calls.left (Calls.spawn_cookie color self)))) as Hu'.
  { intros n. rewrite Hs. apply Hu. }
  specialize (IH _ Hu'). lra.
Qed.




Lemma full_drawable : Calls.bodies_drawable full.
Proof.
  unfold Calls.bodies_drawable, full. cbn [App.cookies App.set_cookies
    App.set_defender_pending_colors].
  apply Forall_replicate. apply plain_drawable. reflexivity.
Qed.

Lemma app0_drawable : Calls.bodies_drawable app0 /\ Calls.colors_drawable app0.
Proof.
  split; [apply Forall_nil_2|].
  split; [intros H; discriminate H|apply Forall_nil_2].
Qed.

Lemma short_hex_not_drawable : ~ Calls.drawable "#ff".
Proof. intros [s Hs]. vm_compute in Hs. discriminate Hs. Qed.



(** C6 (monotone fill).  With draws in the unit interval, [spawn_cookie]
    never touches the bowl (hence the denominator of the fill ratio); when
    the request is rejected, or the call raises because the colour cannot be
    drawn, bodies and fill ratio are left as they were; when the request is
    accepted and the colour can be drawn, one body with a positive radius is
    appended and the fill ratio is strictly larger; and over any sequence of
    spawn calls, however each of them ends, the fill ratio does not
    decrease. *)
Theorem C6_monotone_fill self :
  random.unit_draws (App.rng self) ->
  (forall color,
     let self' := Calls.left (Calls.spawn_cookie color self) in
     App.collider self' = App.collider self
     /\ (spawn_rejects self \/ ~ Calls.drawable color ->
          App.cookies self' = App.cookies self
          /\ App._fill_ratio self' = App._fill_ratio self)
     /\ (~ spawn_rejects self -> Calls.drawable color ->
          (exists c, Calls.spawn_cookie color self
                       = Calls.Returns self'
                     /\ App.cookies self' = App.cookies self ++ [c]
                     /\ 0 < r c)
          /\ App._fill_ratio self < App._fill_ratio self'))
  /\ (forall colors,
       App._fill_ratio self <= App._fill_ratio (Calls.spawn_all colors self)).
Proof.
  intros Hu. split; [|intros colors; apply spawn_all_fill, Hu].
  intros color self'. subst self'.
  pose proof (spawn_left_frame color self) as [Hcol _].
  destruct (spawn_cookie_fill color self Hu) as [Hrej Hacc].
  split; [exact Hcol|].
  destruct (spawn_left_cases color self)
    as [(H & Hs & Hc & _)|[(H & Hd & Hs & c & Hc & _ & Hr & _)
                          |(H & Hd & s & Hs & Hc & _ & Hcs & _)]];
    rewrite Hs in *; cbn [Calls.left] in *.
  - split; [|intros Hn; contradiction].
    intros _. split; [exact Hc|apply Hrej, H].
  - split; [intros [Hn|Hn]; contradiction|].
    intros _ _. split; [|apply Hacc, H].
    exists c. split; [reflexivity|]. split; [exact Hc|].
    pose proof (Hu (random.pos (App.rng self))). rewrite Hr. nra.
  - split; [|intros _ Hn; contradiction].
    intros _. split; [exact Hc|]. apply fill_ratio_same; assumption.
Qed.

Lemma C6_monotone_fill_witness :
  random.unit_draws (App.rng app0)
  /\ App._fill_ratio app0
     < App._fill_ratio (Calls.left (Calls.spawn_cookie "red" app0))
  /\ App._fill_ratio app0
     <= App._fill_ratio (Calls.spawn_all ["red"; "#ff"; "green"]%string app0).
Proof.
  split; [exact halves_unit_draws|].
  destruct (C6_monotone_fill app0 halves_unit_draws) as [Hone Hall].
  split; [|apply Hall].
  destruct (Hone "red"%string) as (_ & _ & Hacc).
  apply Hacc; [exact app0_accepts|apply plain_drawable; reflexivity].
Defined.

(** *** The step and the frame *)

Lemma substeps_raise sub_dt (l : list nat) :
  foldl (fun acc _ => acc ≫= Calls.substep sub_dt) None l = None.
Proof. induction l as [|i l IH]; [reflexivity|exact IH]. Qed.

(** [_step] with its recolouring.  When the colour of every body can be
    drawn, [_step] returns; it changes nothing of the application but the
    bodies and the generator, it neither adds, removes nor reorders bodies
    (colour, radius, canvas ids and wobble parameters stay as they are,
    position by position), and the colours can still be drawn.  When some
    body is about to leave the water with a colour whose highlight cannot be
    computed, [_step] raises. *)
Theorem step_keeps_bodies dt self :
  (Calls.bodies_drawable self ->
   exists self',
     Calls._step dt self = Some self'
     /\ only_bodies_changed self self'
     /\ body_ident <$> App.cookies self' = body_ident <$> App.cookies self
     /\ Calls.bodies_drawable self')
  /\ (forall c,
        c ∈ App.cookies self ->
        underwater c = true -> y c < App.water_y self ->
        ~ Calls.drawable (color_name c) ->
        Calls._step dt self = None).
Proof.
  split.
  - intros Hd. rewrite (step_call dt self Hd).
    destruct (step_ident dt self) as (self' & Hs & Hi).
    exists self'. split; [exact Hs|].
    split; [apply step_only_bodies with dt; exact Hs|].
    split; [exact Hi|]. eapply step_drawable; eassumption.
  - intros c Hin Hu Hy Hd. unfold Calls._step. cbv zeta.
    assert (Calls.substep (dt / INR SUBSTEPS) self = None) as Hsub.
    { unfold Calls.substep.
      destruct (mapM (Calls.step_cookie self (dt / INR SUBSTEPS))
                     (App.cookies self)) as [cs|] eqn:Hm; [|reflexivity].
      exfalso.
      assert (is_Some (mapM (Calls.step_cookie self (dt / INR SUBSTEPS))
                            (App.cookies self))) as Hsome by (rewrite Hm; eauto).
      apply mapM_is_Some in Hsome.
      pose proof (proj1 (Forall_forall _ _) Hsome c Hin) as [c' Hc'].
      cbn [compose] in Hc'. unfold Calls.step_cookie in Hc'.
      rewrite (proj2 (apply_underwater_mode_raises self c)) in Hc'
        by (split; [exact Hu|split; [exact Hy|exact Hd]]).
      discriminate Hc'. }
    unfold SUBSTEPS. cbn [seq foldl mbind option_bind].
    fold SUBSTEPS. rewrite Hsub. reflexivity.
Qed.

Lemma step_keeps_bodies_witness :
  (exists self',
     Calls._step (1 / 60) pile = Some self'
     /\ only_bodies_changed pile self'
     /\ body_ident <$> App.cookies self' = body_ident <$> App.cookies pile
     /\ Calls.bodies_drawable self')
  /\ Calls._step (1 / 60)
       (App.set_cookies
          [CookieBody.mk "#ff" 15 395.2 100 0 0 26 25 27 false 0 true 0 1] app0)
     = None.
Proof.
  split.
  - apply (step_keeps_bodies (1 / 60) pile).
    repeat constructor; apply plain_drawable; reflexivity.
  - eapply (step_keeps_bodies (1 / 60)).
    + apply list_elem_of_singleton. reflexivity.
    + reflexivity.
    + cbn [y App.water_y App.set_cookies app0]. lra.
    + exact short_hex_not_drawable.
Defined.

(** An accepted [spawn_cookie] for a colour that can be drawn, with draws in
    the unit interval, returns with one body appended: awake and above the
    water, with radius in [11, 18], a horizontal position between the two
    ends [rim_left + r + 10] and [rim_right - r - 10] (in whichever order
    they come) and a height between 45 and 120 above the rim line on top of
    its radius, both up to rounding, hence in the funnel zone; a velocity in
    [-240, 240] by [-40, 120], a wobble phase in [0, tau] and a wobble
    frequency in [WOBBLE_FREQ_MIN, WOBBLE_FREQ_MAX]; it takes three canvas
    ids and seven draws. *)
Theorem spawn_cookie_fresh color self :
  ~ spawn_rejects self ->
  Calls.drawable color ->
  random.unit_draws (App.rng self) ->
  let col := App.collider self in
  exists self' c,
    Calls.spawn_cookie color self = Calls.Returns self'
    /\ App.cookies self' = App.cookies self ++ [c]
    /\ color_name c = color
    /\ 11 <= r c <= 18
    /\ Rmin (EllipseBowlCollider.rim_left col + r c + 10)
            (EllipseBowlCollider.rim_right col - r c - 10) - 1e-9 <= x c
       <= Rmax (EllipseBowlCollider.rim_left col + r c + 10)
               (EllipseBowlCollider.rim_right col - r c - 10) + 1e-9
    /\ EllipseBowlCollider.rim_y col - r c - 120 - 1e-9 <= y c
       <= EllipseBowlCollider.rim_y col - r c - 45 + 1e-9
    /\ in_funnel col c
    /\ -240 <= vx c <= 240 /\ -40 <= vy c <= 120
    /\ asleep c = false /\ sleep_counter c = 0%nat /\ underwater c = false
    /\ 0 <= wobble_phase c <= tau
    /\ WOBBLE_FREQ_MIN <= wobble_freq c <= WOBBLE_FREQ_MAX
    /\ (shadow_id c, item_id c, highlight_id c)
       = (App.canvas_next self, App.canvas_next self + 1, App.canvas_next self + 2)%Z
    /\ App.canvas_next self' = (App.canvas_next self + 3)%Z
    /\ random.pos (App.rng self') = (random.pos (App.rng self) + 7)%nat.
Proof.
  intros Hrej Hd Hu col. subst col.
  rewrite (spawn_call_returns color self (or_intror Hd)).
  unfold App.spawn_cookie.
  case_decide as Hh; [exfalso; apply Hrej; left; exact Hh|].
  case_decide as Hm; [exfalso; apply Hrej; right; exact Hm|].
  unfold random.uniform, random.random. simpl.
  eexists _, _. split; [reflexivity|]. simpl. split; [reflexivity|].
  set (p := random.pos (App.rng self)).
  pose proof (Hu p) as H0. pose proof (Hu (S p)) as H1.
  pose proof (Hu (S (S p))) as H2. pose proof (Hu (S (S (S p)))) as H3.
  pose proof (Hu (S (S (S (S p))))) as H4.
  pose proof (Hu (S (S (S (S (S p)))))) as H5.
  pose proof (Hu (S (S (S (S (S (S p))))))) as H6.
  pose proof PI_RGT_0 as Hpi.
  unfold in_funnel, tau, WOBBLE_FREQ_MIN, WOBBLE_FREQ_MAX. simpl.
  repeat apply conj; try reflexivity; try lra; try nra.
  - unfold Rmin. destruct (Rle_dec _ _); nra.
  - unfold Rmax. destruct (Rle_dec _ _); nra.
  - lia.
Qed.

Lemma spawn_cookie_fresh_witness :
  exists self' c,
    Calls.spawn_cookie "red" app0 = Calls.Returns self'
    /\ App.cookies self' = [c]
    /\ 11 <= r c <= 18
    /\ in_funnel bowl c.
Proof.
  destruct (spawn_cookie_fresh "red" app0 app0_accepts
              (plain_drawable "red" eq_refl) halves_unit_draws)
    as (self' & c & Hs & Hc & _ & Hr & _ & _ & Hf & _).
  exists self', c. split; [exact Hs|]. split; [exact Hc|].
  split; [exact Hr|exact Hf].
Defined.

(** The simulation part of a frame of [_loop] (up to and including
    [_step]).  When the colour of every body can be drawn, and so can the
    colours a spawn of the frame may ask for (the auto-drop colour, unless it
    is drawn from [COLORS], and the colours waiting from the detections),
    the frame returns.  It sets the clock reading, moves the simulation time
    by the elapsed time cut at 1/30, leaves bowl and water line alone, and
    keeps every body it finds, in place and with its identity: all it does
    to the list is to append at most 16 bodies (10 from the auto-drop, 6
    from the detections).  The state it leaves meets the two conditions
    again. *)
Theorem loop_frame now self :
  Calls.bodies_drawable self ->
  Calls.colors_drawable self ->
  exists self' new,
    Calls._loop now self = Some self'
    /\ App._last_t self' = now
    /\ App._sim_t self' = App._sim_t self + Rmin (now - App._last_t self) (1 / 30)
    /\ App.collider self' = App.collider self
    /\ App.water_y self' = App.water_y self
    /\ body_ident <$> App.cookies self'
       = (body_ident <$> App.cookies self) ++ (body_ident <$> new)
    /\ (length new <= 16)%nat
    /\ Calls.bodies_drawable self'
    /\ Calls.colors_drawable self'.
Proof.
  intros Hd Hc.
  destruct (loop_call now self (or_intror Hc) Hd) as [-> Hkeep].
  unfold App._loop in *.
  set (dt := Rmin (now - App._last_t self) (1 / 30)) in *.
  set (s0 := App.set_sim_t (App._sim_t self + dt) (App.set_last_t now self)) in *.
  set (s1 := App._auto_drop_step dt s0) in *.
  set (s2 := App._defender_drop_step s1) in *.
  destruct (auto_drop_step_appends dt s0) as (new1 & Hnew1 & Hlen1).
  destruct (defender_drop_step_appends s1) as (new2 & Hnew2 & Hlen2).
  fold s1 in Hnew1. fold s2 in Hnew2.
  destruct (step_ident dt s2) as (self' & Hs & Hi).
  pose proof (step_only_bodies _ _ _ Hs) as Hf.
  pose proof (defender_drop_step_fixed s1) as Hfix2.
  pose proof (auto_drop_step_fixed dt s0) as Hfix1.
  fold s1 in Hfix1. fold s2 in Hfix2.
  assert ((App.collider self', App.water_y self', App._sim_t self',
           App._last_t self')
          = (App.collider s2, App.water_y s2, App._sim_t s2, App._last_t s2))
    as Hfix' by (rewrite Hf; reflexivity).
  rewrite Hfix2, Hfix1 in Hfix'.
  cbn [s0 App.collider App.water_y App._sim_t App._last_t App.set_sim_t
       App.set_last_t] in Hfix'.
  injection Hfix' as Hcol Hw Ht Hl.
  destruct (Hkeep self' Hs) as [Hd' Hc'].
  exists self', (new1 ++ new2). split; [exact Hs|].
  split; [exact Hl|]. split; [exact Ht|].
  split; [exact Hcol|]. split; [exact Hw|]. split; [|split; [|split]].
  - rewrite Hi, Hnew2, Hnew1. cbn [s0 App.cookies App.set_sim_t App.set_last_t].
    rewrite <- app_assoc, fmap_app. reflexivity.
  - rewrite length_app. unfold MAX_DROPS_PER_TICK in Hlen2. lia.
  - exact Hd'.
  - apply Hc', Hc.
Qed.

Lemma loop_frame_witness :
  exists self' new,
    Calls._loop 1 full = Some self'
    /\ App._last_t self' = 1
    /\ body_ident <$> App.cookies self'
       = (body_ident <$> App.cookies full) ++ (body_ident <$> new)
    /\ (length new <= 16)%nat.
Proof.
  destruct (loop_frame 1 full full_drawable)
    as (self' & new & Hs & Hl & _ & _ & _ & Hb & Hn & _).
  - split; [intros H; discriminate H|].
    repeat constructor; apply plain_drawable; reflexivity.
  - exists self', new. auto.
Defined.
End CallsLayer.
